(** * setup.mjs: the electronize transformation engine

    A shallow embedding of [src/setup.mjs] (a one-shot Node script that turns
    a Vite + React project into an Electron project) and the proofs of the
    properties its specification states about it.

    - The project tree under [ROOT] is a [node]: a file with its text or a
      directory with a finite map of children.  Paths are lists of
      components below [ROOT].
    - The script runs in the monad [M]: it threads the [world] (the tree and
      the console), and ends a computation early on [process.exit] ([Exit]),
      on a rejected promise / thrown error ([Throw]), or on an error that is
      thrown outside every promise of the script ([Uncaught]), which no
      [catch] of the script sees.
    - What the script cannot decide by itself (a rename that fails across
      devices, a backup copy that fails, the outcome of [npm install], the
      command-line flags, the JSON codec and the literal templates) is the
      environment [env].
    - Strings are sequences of code units below 256 ([ascii]); JSON values
      of the manifest maps are strings, truthy exactly when non-empty. *)

From Stdlib Require Import Ascii String ZArith.
From stdpp Require Import gmap strings list fin_maps.

Set Warnings "-register-all,-clear-no-such-hyp".
Local Open Scope string_scope.

Abbreviation path := (list string).

(** ** The project tree *)

Inductive node :=
  | File (content : string)
  | Dir (entries : gmap string node).

Fixpoint lookupPath (p : path) (n : node) : option node :=
  match p with
  | [] => Some n
  | k :: p' =>
      match n with
      | Dir m => match m !! k with Some c => lookupPath p' c | None => None end
      | File _ => None
      end
  end.

(** [putPath p x n] binds the entry at [p] to [x]; the parent of [p] has to
    be an existing directory. *)
Fixpoint putPath (p : path) (x : node) (n : node) : option node :=
  match p, n with
  | [], _ => None
  | [k], Dir m => Some (Dir (<[k:=x]> m))
  | k :: p', Dir m =>
      match m !! k with
      | Some c =>
          match putPath p' x c with
          | Some c' => Some (Dir (<[k:=c']> m))
          | None => None
          end
      | None => None
      end
  | _ :: _, File _ => None
  end.

(** [delPath p n] unlinks the entry at [p] with everything below it. *)
Fixpoint delPath (p : path) (n : node) : option node :=
  match p, n with
  | [], _ => None
  | [k], Dir m => Some (Dir (delete k m))
  | k :: p', Dir m =>
      match m !! k with
      | Some c =>
          match delPath p' c with
          | Some c' => Some (Dir (<[k:=c']> m))
          | None => None
          end
      | None => None
      end
  | _ :: _, File _ => None
  end.

(** [mkdirp p n] is [mkdir -p]: it creates the missing directories along
    [p], and fails when a file is in the way. *)
Fixpoint mkdirp (p : path) (n : node) : option node :=
  match p, n with
  | [], Dir _ => Some n
  | [], File _ => None
  | k :: p', Dir m =>
      match mkdirp p' (default (Dir ∅) (m !! k)) with
      | Some c => Some (Dir (<[k:=c]> m))
      | None => None
      end
  | _ :: _, File _ => None
  end.

Definition dirname (p : path) : path := removelast p.

Definition showPath (p : path) : string := String.concat "/" p.

(** [`${p}.bak-electronize`]: the suffix goes on the last component. *)
Fixpoint bakPath (p : path) : path :=
  match p with
  | [] => []
  | [k] => [k +:+ ".bak-electronize"]
  | k :: p' => k :: bakPath p'
  end.

(** ** The world and the script monad *)

Inductive event :=
  | Log (msg : string)
  | Ok (msg : string)
  | Warn (msg : string)
  | Error (msg : string).

Record world := World { files : node; console : list event }.

Definition setFiles (n : node) (w : world) : world :=
  World n (console w).

Definition say (e : event) (w : world) : world :=
  World (files w) (console w ++ [e]).

Inductive outcome (A : Type) :=
  | Ret (a : A) (w : world)
  | Exit (code : Z) (w : world)
  | Throw (w : world)
  | Uncaught (w : world).
Arguments Ret {A} a w.
Arguments Exit {A} code w.
Arguments Throw {A} w.
Arguments Uncaught {A} w.

Definition M (A : Type) : Type := world -> outcome A.

Definition ret {A} (a : A) : M A := fun w => Ret a w.

Definition bind {A B} (m : M A) (k : A -> M B) : M B :=
  fun w =>
    match m w with
    | Ret a w' => k a w'
    | Exit c w' => Exit c w'
    | Throw w' => Throw w'
    | Uncaught w' => Uncaught w'
    end.

(** [try { m } catch { h }] *)
Definition tryCatch {A} (m : M A) (h : M A) : M A :=
  fun w =>
    match m w with
    | Throw w' => h w'
    | r => r
    end.

Declare Scope script_scope.
Delimit Scope script_scope with script.
Notation "x <- m ;; k" := (bind m (fun x => k))
  (at level 100, m at next level, right associativity) : script_scope.
Notation "m ;; k" := (bind m (fun _ => k))
  (at level 100, right associativity) : script_scope.
Local Open Scope script_scope.

Definition log (msg : string) : M unit := fun w => Ret tt (say (Log msg) w).
Definition ok (msg : string) : M unit := fun w => Ret tt (say (Ok msg) w).
Definition warn (msg : string) : M unit := fun w => Ret tt (say (Warn msg) w).

(** [fail]: print the message and [process.exit(1)]; it never returns. *)
Definition fail {A} (msg : string) : M A := fun w => Exit 1 (say (Error msg) w).

Definition throw {A} : M A := fun w => Throw w.

Fixpoint forEach {A} (l : list A) (body : A -> M unit) : M unit :=
  match l with
  | [] => ret tt
  | x :: l' => body x ;; forEach l' body
  end.

(** ** The manifest document

    The fields of [package.json] the script reads and writes; what it does
    not touch travels in [pkg_other].  [None] is an absent field. *)

Record package := Package {
  pkg_type : option string;
  pkg_main : option string;
  pkg_scripts : option (gmap string string);
  pkg_dependencies : option (gmap string string);
  pkg_devDependencies : option (gmap string string);
  pkg_other : list (string * string)
}.

(** The environment of a run: the command-line flags, which platform
    operations are refused, the JSON codec and the literal payloads the
    script writes, and the child process of [npm install]: whether it can
    be started at all ([npmSpawns]), what it leaves on the disk
    ([npmTree]) and whether it exits with status 0 ([npmInstallOk]). *)
Record env := Env {
  FORCE : bool;
  DO_INSTALL : bool;
  nodeVerOk : bool;
  renameThrows : path -> bool;
  cpThrows : path -> bool;
  rmThrows : path -> bool;
  copyFileThrows : path -> bool;
  npmInstallOk : bool;
  npmSpawns : bool;
  npmTree : node -> node;
  JSON_parse : string -> option package;
  JSON_stringify : package -> string;
  MAIN_TS_CONTENT : string;
  PRELOAD_TS_CONTENT : string;
  TSCONFIG_ELECTRON_CONTENT : string;
  VITE_ELECTRON_CONTENT : string;
  VITE_RENDERER_CONTENT : string;
  ELECTRON_BUILDER_YML_CONTENT : string;
  ICON_PNG : string
}.

(** The names [readdir] lists for a directory. *)
Definition names (m : gmap string node) : list string := fst <$> map_to_list m.

(** [items.some(name => name !== "electron")] *)
Definition hasNonElectron (items : list string) : bool :=
  existsb (fun name => negb (String.eqb name "electron")) items.

(** ** Node's [fs] on the tree *)

Module fs.

Definition onTree (f : node -> option node) : M unit :=
  fun w =>
    match f (files w) with
    | Some n => Ret tt (setFiles n w)
    | None => Throw w
    end.

Definition access (p : path) : M unit :=
  fun w =>
    match lookupPath p (files w) with
    | Some _ => Ret tt w
    | None => Throw w
    end.

Definition mkdir (p : path) : M unit := onTree (mkdirp p).

Definition readFile (p : path) : M string :=
  fun w =>
    match lookupPath p (files w) with
    | Some (File c) => Ret c w
    | _ => Throw w
    end.

Definition writeFile (p : path) (content : string) : M unit :=
  fun w =>
    match lookupPath p (files w) with
    | Some (Dir _) => Throw w
    | _ => onTree (putPath p (File content)) w
    end.

Definition copyFile (E : env) (p q : path) : M unit :=
  fun w =>
    if copyFileThrows E p then Throw w
    else
      match lookupPath p (files w) with
      | Some (File c) => writeFile q c w
      | _ => Throw w
      end.

Definition readdir (p : path) : M (list string) :=
  fun w =>
    match lookupPath p (files w) with
    | Some (Dir m) => Ret (names m) w
    | _ => Throw w
    end.

(** [rename] can be refused by the platform ([renameThrows]: another
    device, a permission boundary); otherwise it moves the entry with its
    subtree.  The script only renames into a directory it has just
    created, so that the target never exists. *)
Definition rename (E : env) (from to : path) : M unit :=
  fun w =>
    if renameThrows E from then Throw w
    else
      match lookupPath from (files w) with
      | Some x =>
          onTree (fun n => match delPath from n with
                           | Some n' => putPath to x n'
                           | None => None
                           end) w
      | None => Throw w
      end.

(** [cp(from, to, {recursive: true})] *)
Definition cp (E : env) (from to : path) : M unit :=
  fun w =>
    if cpThrows E from then Throw w
    else
      match lookupPath from (files w) with
      | Some x => onTree (putPath to x) w
      | None => Throw w
      end.

(** [rm(p, {recursive: true, force: true})]: a missing entry is no error. *)
Definition rm (E : env) (p : path) : M unit :=
  fun w =>
    if rmThrows E p then Throw w
    else
      match delPath p (files w) with
      | Some n => Ret tt (setFiles n w)
      | None => Ret tt w
      end.

End fs.

(** ** The helpers of the script *)

Definition exists_ (p : path) : M bool :=
  tryCatch (fs.access p ;; ret true) (ret false).

Definition ensureDir (p : path) : M unit :=
  e <- exists_ p ;;
  if negb e then fs.mkdir p else ret tt.

(** ** Text: the anchor pattern of [index.html]

    [moduleTagRegex] is the pattern of [patchIndexHtml], with the flag [i]:
    the text <script, a run of [^>], the text type=, a quote (double or
    single), the text module, a quote, a run of [^>], the text src=, a
    quote, a non-empty run of characters that are no quotes, a quote, a run
    of [^>], the character >, a run of \s and the text </script>.
    A pattern is a sequence of atoms; the matcher backtracks the way the
    JavaScript one does (a greedy quantifier tries the longest run first). *)

Definition dq : string := String "034"%char EmptyString.
Definition nl : string := String "010"%char EmptyString.

Definition code (c : ascii) : N := N_of_ascii c.

(** Canonicalisation under the [i] flag, for the letters of the pattern. *)
Definition upper (c : ascii) : ascii :=
  if ((97 <=? code c) && (code c <=? 122))%N then ascii_of_N (code c - 32) else c.

Definition ciEq (a b : ascii) : bool := Ascii.eqb (upper a) (upper b).

Inductive atom :=
  | Chr (c : ascii)
  | OneOf (cls : ascii -> bool)
  | Star (cls : ascii -> bool)
  | Plus (cls : ascii -> bool).

Fixpoint lit (s : string) : list atom :=
  match s with
  | EmptyString => []
  | String c s' => Chr c :: lit s'
  end.

Definition notGt (c : ascii) : bool := negb (Ascii.eqb c ">").
Definition isQuote (c : ascii) : bool := Ascii.eqb c "034" || Ascii.eqb c "'".
Definition notQuote (c : ascii) : bool := negb (isQuote c).

(** [\s]: TAB, LF, VT, FF, CR, SP and NBSP are the white space and line
    terminators below 256. *)
Definition isSpace (c : ascii) : bool :=
  (((9 <=? code c) && (code c <=? 13)) || (code c =? 32) || (code c =? 160))%N.

(** The pattern in two parts: the opening of a module script tag up to the
    quote that opens the value of [src], and the rest. *)
Definition moduleTagHead : list atom :=
  lit "<script" ++ [Star notGt] ++ lit "type=" ++ [OneOf isQuote] ++
  lit "module" ++ [OneOf isQuote; Star notGt] ++ lit "src=" ++ [OneOf isQuote].

Definition moduleTagTail : list atom :=
  [Plus notQuote; OneOf isQuote; Star notGt] ++ lit ">" ++
  [Star isSpace] ++ lit "</script>".

Definition moduleTagRegex : list atom := moduleTagHead ++ moduleTagTail.

(** A greedy run of [cls] followed by the continuation [k]: the longest run
    is tried first, a shorter one when the continuation fails. *)
Fixpoint starK (cls : ascii -> bool) (k : string -> option string) (s : string)
  : option string :=
  match s with
  | String c s' =>
      if cls c then
        match starK cls k s' with
        | Some r => Some r
        | None => k s
        end
      else k s
  | EmptyString => k s
  end.

(** [matchHere r s]: the pattern matched at the start of [s]; the result is
    what follows the match. *)
Fixpoint matchHere (r : list atom) (s : string) : option string :=
  match r with
  | [] => Some s
  | Chr c :: r' =>
      match s with
      | String x s' => if ciEq c x then matchHere r' s' else None
      | EmptyString => None
      end
  | OneOf cls :: r' =>
      match s with
      | String x s' => if cls x then matchHere r' s' else None
      | EmptyString => None
      end
  | Star cls :: r' => starK cls (matchHere r') s
  | Plus cls :: r' =>
      match s with
      | String x s' => if cls x then starK cls (matchHere r') s' else None
      | EmptyString => None
      end
  end.

(** The leftmost match: what precedes it and what follows it. *)
Fixpoint search (r : list atom) (s : string) : option (string * string) :=
  match matchHere r s with
  | Some rest => Some (EmptyString, rest)
  | None =>
      match s with
      | String c s' =>
          match search r s' with
          | Some (pre, rest) => Some (String c pre, rest)
          | None => None
          end
      | EmptyString => None
      end
  end.

(** [regex.test(s)] *)
Definition test (r : list atom) (s : string) : bool :=
  match search r s with Some _ => true | None => false end.

(** [s.replace(regex, rep)] for a pattern without the [g] flag and a
    replacement without [$]: the first match is replaced. *)
Definition replaceRegex (r : list atom) (rep s : string) : string :=
  match search r s with
  | Some (pre, rest) => pre +:+ rep +:+ rest
  | None => s
  end.

Fixpoint stripPrefix (pat s : string) : option string :=
  match pat with
  | EmptyString => Some s
  | String a pat' =>
      match s with
      | String b s' => if Ascii.eqb a b then stripPrefix pat' s' else None
      | EmptyString => None
      end
  end.

(** [s.includes(pat)] *)
Fixpoint includes (pat s : string) : bool :=
  match stripPrefix pat s with
  | Some _ => true
  | None =>
      match s with
      | String _ s' => includes pat s'
      | EmptyString => false
      end
  end.

(** [s.replace(pat, rep)] for a string pattern: the first occurrence. *)
Fixpoint replaceFirst (pat rep s : string) : string :=
  match stripPrefix pat s with
  | Some rest => rep +:+ rest
  | None =>
      match s with
      | String c s' => String c (replaceFirst pat rep s')
      | EmptyString => EmptyString
      end
  end.

Definition ENTRY_CANDIDATES : list string :=
  ["main.tsx"; "main.jsx"; "index.tsx"; "index.jsx";
   "main.ts"; "index.ts"; "main.js"; "index.js"].

Definition relScript (entry : string) : string :=
  "<script type=" +:+ dq +:+ "module" +:+ dq +:+ " src=" +:+ dq +:+
  "/src/ui/" +:+ entry +:+ dq +:+ "></script>".

(** The three-way decision of [patchIndexHtml] on the text of an existing
    document. *)
Definition patchHtml (entry : string) (html : string) : string :=
  if test moduleTagRegex html then replaceRegex moduleTagRegex (relScript entry) html
  else if negb (includes (relScript entry) html) then
    replaceFirst "</body>" ("  " +:+ relScript entry +:+ nl +:+ "</body>") html
  else html.

(** The document written when there is no [index.html]. *)
Definition freshHtml (entry : string) : string :=
  "<!doctype html>" +:+ nl +:+
  "<html lang=" +:+ dq +:+ "en" +:+ dq +:+ ">" +:+ nl +:+
  "  <head>" +:+ nl +:+
  "    <meta charset=" +:+ dq +:+ "utf-8" +:+ dq +:+ "/>" +:+ nl +:+
  "    <meta name=" +:+ dq +:+ "viewport" +:+ dq +:+ " content=" +:+ dq +:+
    "width=device-width,initial-scale=1" +:+ dq +:+ "/>" +:+ nl +:+
  "    <link rel=" +:+ dq +:+ "icon" +:+ dq +:+ " href=" +:+ dq +:+
    "/favicon.ico" +:+ dq +:+ "/>" +:+ nl +:+
  "    <title>Electronized App</title>" +:+ nl +:+
  "  </head>" +:+ nl +:+
  "  <body>" +:+ nl +:+
  "    <div id=" +:+ dq +:+ "root" +:+ dq +:+ "></div>" +:+ nl +:+
  "    " +:+ relScript entry +:+ nl +:+
  "  </body>" +:+ nl +:+
  "</html>" +:+ nl.

(** ** The merge into the manifest *)

Definition DESIRED_SCRIPTS : list (string * string) :=
  [ ("dev:react", "vite");
    ("dev:electron", "electron .");
    ("dev", "concurrently " +:+ dq +:+ "npm run dev:react" +:+ dq +:+ " " +:+
            dq +:+ "npm run dev:electron" +:+ dq);
    ("lint", "eslint .");
    ("preview", "vite preview");
    ("build", "tsc -b && vite build");
    ("electron:tsc", "tsc -p tsconfig.electron.json");
    ("electron:dev",
     "cross-env NODE_ENV=development npm run electron:tsc && vite --config vite.electron.config.ts");
    ("electron:build",
     "cross-env NODE_ENV=production npm run electron:tsc && vite build --config vite.renderer.config.ts");
    ("build:electron", "npx electron-builder --config electron-builder.yml --dir");
    ("package", "npx electron-builder --config electron-builder.yml") ].

Definition DESIRED_DEVDEPS : list (string * string) :=
  [ ("cross-env", "^10.0.0");
    ("electron", "^32.1.2");
    ("electron-builder", "^25.0.5");
    ("vite", "^5.4.2");
    ("vite-plugin-electron", "^0.29.0");
    ("vite-plugin-electron-renderer", "^0.14.6");
    ("concurrently", "^8.2.2");
    ("wait-on", "^7.0.1");
    ("typescript", "^5.2.0") ].

(** JavaScript truthiness of [obj[k]] for a map of strings: an absent key
    ([undefined]) and the empty string are falsy. *)
Definition truthy (v : option string) : bool :=
  match v with
  | Some s => negb (bool_decide (s = ""))
  | None => false
  end.

Definition backupKey (k : string) : string := "_backup_" +:+ k.

(** Does the loop body take the branch that demotes and warns? *)
Definition conflicts (s : gmap string string) (k v : string) : bool :=
  truthy (s !! k) && negb (bool_decide (s !! k = Some v)).

(** One turn of the loop over [Object.entries(DESIRED_SCRIPTS)]. *)
Definition addScript (s : gmap string string) (kv : string * string)
  : gmap string string :=
  let '(k, v) := kv in
  match s !! k with
  | Some cur =>
      if negb (truthy (Some cur)) then <[k:=v]> s
      else if negb (bool_decide (cur = v)) then
        let bakKey := backupKey k in
        let s1 := if negb (truthy (s !! bakKey)) then <[bakKey:=cur]> s else s in
        <[k:=v]> s1
      else s
  | None => <[k:=v]> s
  end.

Definition mergeScripts (desired : list (string * string)) (s : gmap string string)
  : gmap string string :=
  fold_left addScript desired s.

(** [pkg.dependencies && pkg.dependencies[dep]] *)
Definition truthyIn (deps : option (gmap string string)) (dep : string) : bool :=
  match deps with
  | Some d => truthy (d !! dep)
  | None => false
  end.

(** One turn of the loop over [Object.entries(DESIRED_DEVDEPS)];
    [deps] is [pkg.dependencies]. *)
Definition addDevDep (deps : option (gmap string string))
    (dev : gmap string string) (dv : string * string) : gmap string string :=
  let '(dep, ver) := dv in
  if negb (truthy (dev !! dep)) && negb (truthyIn deps dep)
  then <[dep:=ver]> dev
  else dev.

Definition mergeDevDeps (desired : list (string * string))
    (deps : option (gmap string string)) (dev : gmap string string)
  : gmap string string :=
  fold_left (addDevDep deps) desired dev.

(** The manifest object after the in-memory part of [patchPackageJson]. *)
Definition patchPkg (pkg : package) : package :=
  {| pkg_type := Some "module";
     pkg_main := if truthy (pkg_main pkg) then pkg_main pkg
                 else Some "src/electron/main";
     pkg_scripts :=
       Some (mergeScripts DESIRED_SCRIPTS (default ∅ (pkg_scripts pkg)));
     pkg_dependencies := pkg_dependencies pkg;
     pkg_devDependencies :=
       Some (mergeDevDeps DESIRED_DEVDEPS (pkg_dependencies pkg)
               (default ∅ (pkg_devDependencies pkg)));
     pkg_other := pkg_other pkg |}.

Definition scriptsOf (pkg : package) : gmap string string :=
  default ∅ (pkg_scripts pkg).

Definition devDepsOf (pkg : package) : gmap string string :=
  default ∅ (pkg_devDependencies pkg).

(** The warnings of the loop over the scripts, in order. *)
Fixpoint scriptWarnings (desired : list (string * string)) (s : gmap string string)
  : list event :=
  match desired with
  | [] => []
  | (k, v) :: rest =>
      (if conflicts s k v then
         [Warn ("script " +:+ dq +:+ k +:+ dq +:+ " existed and was saved to scripts."
                +:+ backupKey k +:+ " before updating.")]
       else []) ++ scriptWarnings rest (addScript s (k, v))
  end.

(** ** Paths *)

Definition SRC : path := ["src"].
Definition UI : path := ["src"; "ui"].
Definition ELECTRON_DIR : path := ["src"; "electron"].
Definition INDEX_HTML : path := ["index.html"].
Definition PACKAGE_JSON : path := ["package.json"].
Definition TSCONFIG_ELECTRON : path := ["tsconfig.electron.json"].
Definition VITE_ELECTRON : path := ["vite.electron.config.ts"].
Definition VITE_RENDERER : path := ["vite.renderer.config.ts"].
Definition ELECTRON_BUILDER_YML : path := ["electron-builder.yml"].

(** ** The steps of the script *)

Section Script.

Variable E : env.

Definition safeWrite (filePath : path) (content : string) (force : bool) : M bool :=
  let p := filePath in
  let write :=
    ensureDir (dirname p) ;;
    fs.writeFile p content ;;
    log ("Wrote: " +:+ showPath filePath) ;;
    ret true in
  e <- exists_ p ;;
  if e then
    if negb force then
      old <- fs.readFile p ;;
      if bool_decide (old = content) then
        log ("Unchanged: " +:+ showPath filePath) ;;
        ret false
      else
        let bak := bakPath p in
        tryCatch (fs.copyFile E p bak) (ret tt) ;;
        warn ("Backed up existing file to " +:+ showPath bak) ;;
        write
    else write
  else write.

Definition writeJSON (p : path) (obj : package) : M bool :=
  safeWrite p (JSON_stringify E obj +:+ nl) true.

(** Step 1: move src -> src/ui. *)
Definition moveSrcToUi : M unit :=
  e <- exists_ SRC ;;
  (if negb e then fail "No src/ directory found. Run this in the React project root."
   else ret tt) ;;
  eu <- exists_ UI ;;
  if eu then log "src/ui already exists — skipping move."
  else
    items <- fs.readdir SRC ;;
    if negb (hasNonElectron items) then
      log "src contains only electron/ (or is empty) — nothing to move."
    else
      ensureDir UI ;;
      forEach items (fun name =>
        if String.eqb name "electron" then ret tt
        else
          let from := (SRC ++ [name])%list in
          let to := (UI ++ [name])%list in
          tryCatch (fs.rename E from to)
                   (fs.cp E from to ;; fs.rm E from) ;;
          log ("Moved src/" +:+ name +:+ " -> src/ui/" +:+ name)) ;;
      ok "Moved src -> src/ui (non-electron files).".

(** Step 3: patch index.html to import /src/ui/<entry>. *)
Fixpoint detectEntryIn (candidates : list string) : M string :=
  match candidates with
  | [] => ret "main.tsx"
  | c :: rest =>
      e <- exists_ ["src"; "ui"; c] ;;
      if e then ret c else detectEntryIn rest
  end.

Definition detectEntry : M string := detectEntryIn ENTRY_CANDIDATES.

Definition patchIndexHtml (entry : string) : M unit :=
  e <- exists_ INDEX_HTML ;;
  if negb e then
    safeWrite INDEX_HTML (freshHtml entry) false ;;
    ok ("Created index.html (points to /src/ui/" +:+ entry +:+ ")")
  else
    html <- fs.readFile INDEX_HTML ;;
    (if test moduleTagRegex html then ret tt
     else if negb (includes (relScript entry) html) then ret tt
     else log "index.html already points to the detected entry -> skipping patch.") ;;
    safeWrite INDEX_HTML (patchHtml entry html) true ;;
    ok ("Patched index.html to load /src/ui/" +:+ entry).

(** Step 5: patch package.json (backup first). *)
Definition patchPackageJson : M unit :=
  e <- exists_ PACKAGE_JSON ;;
  (if negb e then fail "package.json not found." else ret tt) ;;
  originalPkg <- fs.readFile PACKAGE_JSON ;;
  safeWrite (bakPath PACKAGE_JSON) originalPkg true ;;
  match JSON_parse E originalPkg with
  | None => throw
  | Some pkg =>
      (if truthy (pkg_type pkg) && negb (bool_decide (pkg_type pkg = Some "module"))
       then warn ("Existing package.json 'type' is '" +:+ default "" (pkg_type pkg)
                  +:+ "' — backing up and overriding with 'module'.")
       else ret tt) ;;
      forEach (scriptWarnings DESIRED_SCRIPTS (default ∅ (pkg_scripts pkg)))
              (fun e => fun w => Ret tt (say e w)) ;;
      writeJSON PACKAGE_JSON (patchPkg pkg) ;;
      ok "Updated package.json (backup at package.json.bak-electronize)"
  end.

(** Step 6: ensure public icons. *)
Definition ensurePublicIcons : M unit :=
  let PUB := ["public"] in
  ensureDir PUB ;;
  let icoPath := (PUB ++ ["favicon.ico"])%list in
  let pngPath := (PUB ++ ["icon.png"])%list in
  e1 <- exists_ icoPath ;;
  (if negb e1 then fs.writeFile icoPath (ICON_PNG E) else ret tt) ;;
  e2 <- exists_ pngPath ;;
  (if negb e2 then fs.writeFile pngPath (ICON_PNG E) else ret tt) ;;
  ok "Ensured public/favicon.ico and public/icon.png".

(** Step 7: optionally run npm install.  The promise settles on the
    [exit] event of the child only: status 0 resolves it, any other status
    rejects it.  No listener is registered for the [error] event, so that a
    child that cannot be started makes the event emitter throw outside the
    promise: the promise never settles and no [catch] sees the error.  A
    child that ran has written to the project what [npm] writes. *)
Definition runNpmInstall : M unit :=
  log "Running npm install to add devDependencies (this can take a few minutes)..." ;;
  (fun w =>
     if negb (npmSpawns E) then Uncaught w
     else
       let w' := setFiles (npmTree E (files w)) w in
       if npmInstallOk E then Ret tt w' else Throw w') ;;
  ok "npm install finished".

(** The stages of the main function, around the manifest stage. *)
Definition beforeManifest : M unit :=
  log "Starting electronize process (ESM mode) ..." ;;
  existsSync <- exists_ SRC ;;
  (if existsSync then moveSrcToUi
   else warn "No src/ directory found — skipping move.") ;;
  ensureDir ELECTRON_DIR ;;
  safeWrite (ELECTRON_DIR ++ ["main.ts"])%list (MAIN_TS_CONTENT E) (FORCE E) ;;
  safeWrite (ELECTRON_DIR ++ ["preload.ts"])%list (PRELOAD_TS_CONTENT E) (FORCE E) ;;
  entry <- detectEntry ;;
  patchIndexHtml entry ;;
  safeWrite TSCONFIG_ELECTRON (TSCONFIG_ELECTRON_CONTENT E) (FORCE E) ;;
  safeWrite VITE_ELECTRON (VITE_ELECTRON_CONTENT E) (FORCE E) ;;
  safeWrite VITE_RENDERER (VITE_RENDERER_CONTENT E) (FORCE E) ;;
  safeWrite ELECTRON_BUILDER_YML (ELECTRON_BUILDER_YML_CONTENT E) (FORCE E) ;;
  ret tt.

Definition afterManifest : M unit :=
  ensurePublicIcons ;;
  (if DO_INSTALL E then runNpmInstall
   else log "Skipped npm install. Run `npm install` manually or re-run with --install.") ;;
  ok "Electronization complete!" ;;
  log "Next steps: ...".

(** The body of the main function; an error that escapes it is reported
    and ends the process with status 1. *)
Definition main : M unit :=
  tryCatch (beforeManifest ;; patchPackageJson ;; afterManifest)
           (fun w => Exit 1 (say (Error "Fatal error:") w)).

(** The module from its first statement: the version check, then main. *)
Definition script : M unit :=
  (if negb (nodeVerOk E) then
     warn "Node version < 18 detected. This script expects Node 18+. Continue at your own risk."
   else ret tt) ;;
  main.

End Script.

(** ** Shapes used in the statements *)

(** The project tree whose [src] holds the children [ms] and, in [src/ui],
    the children [mu]. *)
Definition withSrc (root ms mu : gmap string node) : node :=
  Dir (<["src" := Dir (<["ui" := Dir mu]> ms)]> root).

(** A desired list the loop can be read key by key on: no key twice, and no
    key that is the backup key of another. *)
Definition separated (d : list (string * string)) : Prop :=
  NoDup d.*1 /\ Forall (fun k => backupKey k ∉ d.*1) d.*1.

(** [stripCi w s]: [s] without a leading copy of the text [w], letter
    case apart. *)
Fixpoint stripCi (w s : string) : option string :=
  match w with
  | EmptyString => Some s
  | String c w' =>
      match s with
      | String x s' => if ciEq c x then stripCi w' s' else None
      | EmptyString => None
      end
  end.

(** Every character of [s] is in the class. *)
Fixpoint allCls (cls : ascii -> bool) (s : string) : bool :=
  match s with
  | EmptyString => true
  | String c s' => cls c && allCls cls s'
  end.

(** Does the atom accept the character? *)
Definition accepts (a : atom) (x : ascii) : bool :=
  match a with
  | Chr c => ciEq c x
  | OneOf cls | Star cls | Plus cls => cls x
  end.

Definition gt : ascii := ">"%char.
Definition lt : ascii := "<"%char.

(** [p] does not go through the root entry [k]. *)
Definition avoids (k : string) (p : path) : bool :=
  match p with
  | [] => true
  | k' :: _ => negb (String.eqb k' k)
  end.

(** The root of the tree has no entry [k]. *)
Definition absent (k : string) (n : node) : Prop := lookupPath [k] n = None.

(** [m] preserves the property [Q] of the tree however it ends, when it
    ends the process it does so with status 1, and it throws nothing
    outside its promises. *)
Definition keeps (Q : node -> Prop) {A} (m : M A) : Prop :=
  forall w, Q (files w) ->
    match m w with
    | Ret _ w' => Q (files w')
    | Exit c w' => c = 1%Z /\ Q (files w')
    | Throw w' => Q (files w')
    | Uncaught _ => False
    end.

(** [m] ends the process with status 1 only, and throws outside its
    promises only when [U] holds. *)
Definition ends (U : Prop) {A} (m : M A) : Prop :=
  forall w,
    match m w with
    | Ret _ _ | Throw _ => True
    | Exit c _ => c = 1%Z
    | Uncaught _ => U
    end.

(** ** Sample runs

    Concrete inputs on which the theorems below are instantiated. *)

Definition emptyPackage : package := Package None None None None None [].

(** A run without flags on a platform that refuses nothing. *)
Definition quietEnv : env :=
  {| FORCE := false; DO_INSTALL := false; nodeVerOk := true;
     renameThrows := fun _ => false; cpThrows := fun _ => false;
     rmThrows := fun _ => false;
     copyFileThrows := fun _ => false; npmInstallOk := true;
     npmSpawns := true; npmTree := fun n => n;
     JSON_parse := fun _ => Some emptyPackage;
     JSON_stringify := fun _ => "{}";
     MAIN_TS_CONTENT := "main"; PRELOAD_TS_CONTENT := "preload";
     TSCONFIG_ELECTRON_CONTENT := "{}"; VITE_ELECTRON_CONTENT := "electron";
     VITE_RENDERER_CONTENT := "renderer"; ELECTRON_BUILDER_YML_CONTENT := "yml";
     ICON_PNG := "png" |}.

(** A platform on which every rename is refused (the copy fallback runs). *)
Definition crossDeviceEnv : env :=
  {| FORCE := false; DO_INSTALL := false; nodeVerOk := true;
     renameThrows := fun _ => true; cpThrows := fun _ => false;
     rmThrows := fun _ => false;
     copyFileThrows := fun _ => false; npmInstallOk := true;
     npmSpawns := true; npmTree := fun n => n;
     JSON_parse := fun _ => Some emptyPackage;
     JSON_stringify := fun _ => "{}";
     MAIN_TS_CONTENT := "main"; PRELOAD_TS_CONTENT := "preload";
     TSCONFIG_ELECTRON_CONTENT := "{}"; VITE_ELECTRON_CONTENT := "electron";
     VITE_RENDERER_CONTENT := "renderer"; ELECTRON_BUILDER_YML_CONTENT := "yml";
     ICON_PNG := "png" |}.

Definition dir (l : list (string * node)) : node := Dir (list_to_map l).

Definition onDisk (n : node) : world := World n [].

(** A project with an [index.html] only. *)
Definition indexOnly : world := onDisk (dir [("index.html", File "old")]).

(** The tree of the relocation example: [a.ts], [b.css] and [electron/c.ts]
    under [src]. *)
Definition exampleTree : world :=
  onDisk (dir [("src", dir [("a.ts", File "a"); ("b.css", File "b");
                            ("electron", dir [("c.ts", File "c")])]);
               ("package.json", File "{}")]).

(** [src] holds [electron] only. *)
Definition electronOnly : world :=
  onDisk (dir [("src", dir [("electron", dir [("c.ts", File "c")])])]).

(** [src/ui] is already there, next to a file that was never moved. *)
Definition alreadyMigrated : world :=
  onDisk (dir [("src", dir [("ui", dir []); ("a.ts", File "a")])]).

(** A project without [src], with its manifest. *)
Definition noSrc : world := onDisk (dir [("package.json", File "{}")]).

(** A project without manifest. *)
Definition noManifest : world :=
  onDisk (dir [("src", dir [("main.tsx", File "x")])]).

(** A manifest with the scripts [s] and nothing else. *)
Definition withScripts (s : list (string * string)) : package :=
  Package None None (Some (list_to_map s)) None None [].

(** A manifest with the development dependencies [d] and nothing else. *)
Definition withDevDeps (d : list (string * string)) : package :=
  Package None None None None (Some (list_to_map d)) [].

(** A document with a classic script and one module script tag. *)
Definition beforeAnchor : string :=
  "<html><body><script src=" +:+ dq +:+ "a.js" +:+ dq +:+ "></script>".

Definition afterAnchor : string := "</body></html>".

Definition oldDocument : string :=
  beforeAnchor +:+
  "<script type=" +:+ dq +:+ "module" +:+ dq +:+ " src=" +:+ dq +:+
  "/old/entry.js" +:+ dq +:+ "></script>" +:+ afterAnchor.

(** A document in which an opening of a module script tag is never closed
    before the tag the pattern finds. *)
Definition strayOpening : string :=
  "<script type=" +:+ dq +:+ "module" +:+ dq +:+ " src=" +:+ dq +:+ "a>" +:+
  "<script type='module' src='/o>ld.js'></script>".

(** Two paths part ways at some component: neither leads to the other. *)
Fixpoint diverge (p q : path) : bool :=
  match p, q with
  | a :: p', b :: q' => if String.eqb a b then diverge p' q' else true
  | _, _ => false
  end.

(** A run without flags in which the platform refuses the renames, the
    recursive copies, the removals or the backup copies. *)
Definition envWith (renameT cpT rmT copyT : bool) : env :=
  {| FORCE := false; DO_INSTALL := false; nodeVerOk := true;
     renameThrows := fun _ => renameT; cpThrows := fun _ => cpT;
     rmThrows := fun _ => rmT;
     copyFileThrows := fun _ => copyT; npmInstallOk := true;
     npmSpawns := true; npmTree := fun n => n;
     JSON_parse := fun _ => Some emptyPackage;
     JSON_stringify := fun _ => "{}";
     MAIN_TS_CONTENT := "main"; PRELOAD_TS_CONTENT := "preload";
     TSCONFIG_ELECTRON_CONTENT := "{}"; VITE_ELECTRON_CONTENT := "electron";
     VITE_RENDERER_CONTENT := "renderer"; ELECTRON_BUILDER_YML_CONTENT := "yml";
     ICON_PNG := "png" |}.

(** A project in which [src] is a directory and nothing else exists. *)
Definition emptySrc : world := onDisk (dir [("src", dir [])]).

(** A run whose manifest parses to an already merged manifest. *)
Definition mergedEnv : env :=
  {| FORCE := false; DO_INSTALL := false; nodeVerOk := true;
     renameThrows := fun _ => false; cpThrows := fun _ => false;
     rmThrows := fun _ => false;
     copyFileThrows := fun _ => false; npmInstallOk := true;
     npmSpawns := true; npmTree := fun n => n;
     JSON_parse := fun _ => Some (patchPkg emptyPackage);
     JSON_stringify := fun _ => "{merged}";
     MAIN_TS_CONTENT := "main"; PRELOAD_TS_CONTENT := "preload";
     TSCONFIG_ELECTRON_CONTENT := "{}"; VITE_ELECTRON_CONTENT := "electron";
     VITE_RENDERER_CONTENT := "renderer"; ELECTRON_BUILDER_YML_CONTENT := "yml";
     ICON_PNG := "png" |}.

(** A run whose manifest is no JSON. *)
Definition brokenJsonEnv : env :=
  {| FORCE := false; DO_INSTALL := false; nodeVerOk := true;
     renameThrows := fun _ => false; cpThrows := fun _ => false;
     rmThrows := fun _ => false;
     copyFileThrows := fun _ => false; npmInstallOk := true;
     npmSpawns := true; npmTree := fun n => n;
     JSON_parse := fun _ => None;
     JSON_stringify := fun _ => "{}";
     MAIN_TS_CONTENT := "main"; PRELOAD_TS_CONTENT := "preload";
     TSCONFIG_ELECTRON_CONTENT := "{}"; VITE_ELECTRON_CONTENT := "electron";
     VITE_RENDERER_CONTENT := "renderer"; ELECTRON_BUILDER_YML_CONTENT := "yml";
     ICON_PNG := "png" |}.

(** The warning of the loop over the scripts for the key [k]. *)
Definition demotionWarning (k : string) : event :=
  Warn ("script " +:+ dq +:+ k +:+ dq +:+ " existed and was saved to scripts."
        +:+ backupKey k +:+ " before updating.").

(** A project that brings its own [favicon.ico]. *)
Definition withFavicon : world :=
  onDisk (dir [("public", dir [("favicon.ico", File "mine")])]).

(** A project in which [public] is a file. *)
Definition publicIsFile : world := onDisk (dir [("public", File "x")]).

(** The entry [k] of the project root is [x] ([None]: there is none). *)
Definition entryIs (k : string) (x : option node) (n : node) : Prop :=
  lookupPath [k] n = x.

(** The entries of the project root the script creates or changes. *)
Definition touchedRoots : list string :=
  ["src"; "index.html"; "index.html.bak-electronize";
   "tsconfig.electron.json"; "tsconfig.electron.json.bak-electronize";
   "vite.electron.config.ts"; "vite.electron.config.ts.bak-electronize";
   "vite.renderer.config.ts"; "vite.renderer.config.ts.bak-electronize";
   "electron-builder.yml"; "electron-builder.yml.bak-electronize";
   "package.json"; "package.json.bak-electronize"; "public"].

(** [src/ui] exists. *)
Definition hasUi (n : node) : Prop := is_Some (lookupPath UI n).

(** A project with a [README.md] the script has no business with. *)
Definition withReadme : world :=
  onDisk (dir [("src", dir [("main.tsx", File "x")]);
               ("package.json", File "{}");
               ("README.md", File "read me")]).

(** [src] with one file, before the relocation. *)
Definition oneFile : world := onDisk (dir [("src", dir [("a.ts", File "a")])]).

(** What [freshHtml] writes before and after the script tag. *)
Definition freshHead : string :=
  "<!doctype html>" +:+ nl +:+
  "<html lang=" +:+ dq +:+ "en" +:+ dq +:+ ">" +:+ nl +:+
  "  <head>" +:+ nl +:+
  "    <meta charset=" +:+ dq +:+ "utf-8" +:+ dq +:+ "/>" +:+ nl +:+
  "    <meta name=" +:+ dq +:+ "viewport" +:+ dq +:+ " content=" +:+ dq +:+
    "width=device-width,initial-scale=1" +:+ dq +:+ "/>" +:+ nl +:+
  "    <link rel=" +:+ dq +:+ "icon" +:+ dq +:+ " href=" +:+ dq +:+
    "/favicon.ico" +:+ dq +:+ "/>" +:+ nl +:+
  "    <title>Electronized App</title>" +:+ nl +:+
  "  </head>" +:+ nl +:+
  "  <body>" +:+ nl +:+
  "    <div id=" +:+ dq +:+ "root" +:+ dq +:+ "></div>" +:+ nl +:+
  "    ".

Definition freshTail : string :=
  nl +:+ "  </body>" +:+ nl +:+ "</html>" +:+ nl.

(** A project without [index.html]. *)
Definition noIndex : world := onDisk (dir [("src", dir [("main.tsx", File "x")])]).

(** A JavaScript project: [index.jsx] and [main.js] beside a component. *)
Definition jsProject : world :=
  onDisk (dir [("src", dir [("index.jsx", File "i"); ("main.js", File "m");
                            ("App.jsx", File "a")])]).

(** The tree of [emptySrc] with [src/electron] made. *)
Definition electronMade : node := dir [("src", dir [("electron", dir [])])].

(** A project in which [src] is a file. *)
Definition srcIsFile : world :=
  onDisk (dir [("src", File "x"); ("package.json", File "{}")]).

(** A run with [--install] on a machine without [npm]. *)
Definition noNpmEnv : env :=
  {| FORCE := false; DO_INSTALL := true; nodeVerOk := true;
     renameThrows := fun _ => false; cpThrows := fun _ => false;
     rmThrows := fun _ => false;
     copyFileThrows := fun _ => false; npmInstallOk := false;
     npmSpawns := false; npmTree := fun n => n;
     JSON_parse := fun _ => Some emptyPackage;
     JSON_stringify := fun _ => "{}";
     MAIN_TS_CONTENT := "main"; PRELOAD_TS_CONTENT := "preload";
     TSCONFIG_ELECTRON_CONTENT := "{}"; VITE_ELECTRON_CONTENT := "electron";
     VITE_RENDERER_CONTENT := "renderer"; ELECTRON_BUILDER_YML_CONTENT := "yml";
     ICON_PNG := "png" |}.



(** * Proofs *)

(** ** Strings *)

Lemma app_nil_s (s : string) : "" +:+ s = s.
Proof. reflexivity. Qed.

Lemma app_cons_s (c : ascii) (a b : string) :
  String c a +:+ b = String c (a +:+ b).
Proof. reflexivity. Qed.

Lemma length_app (a b : string) :
  String.length (a +:+ b) = String.length a + String.length b.
Proof.
  induction a as [|c a IH]; [done|].
  rewrite app_cons_s. simpl. by rewrite IH.
Qed.

Lemma app_assoc_s (a b c : string) : (a +:+ b) +:+ c = a +:+ (b +:+ c).
Proof.
  induction a as [|x a IH]; [done|].
  rewrite !app_cons_s. by rewrite IH.
Qed.

Lemma backupKey_neq (k : string) : backupKey k ≠ k.
Proof.
  intros H. apply (f_equal String.length) in H.
  unfold backupKey in H. rewrite length_app in H. simpl in H. lia.
Qed.

Lemma backupKey_inj (k k' : string) : backupKey k = backupKey k' -> k = k'.
Proof. unfold backupKey. apply String.app_inj. Qed.

(** ** Running the monad *)

Lemma bind_Ret {A B} (m : M A) (k : A -> M B) w a w' :
  m w = Ret a w' -> bind m k w = k a w'.
Proof. intros H. unfold bind. by rewrite H. Qed.

Lemma bind_Exit {A B} (m : M A) (k : A -> M B) w c w' :
  m w = Exit c w' -> bind m k w = Exit c w'.
Proof. intros H. unfold bind. by rewrite H. Qed.

Lemma bind_Throw {A B} (m : M A) (k : A -> M B) w w' :
  m w = Throw w' -> bind m k w = Throw w'.
Proof. intros H. unfold bind. by rewrite H. Qed.

(** ** The guarded file writer *)

Ltac unfold_script :=
  unfold exists_, ensureDir, bind, ret, tryCatch, log, ok, warn, fail, throw,
    fs.access, fs.readFile, fs.mkdir, fs.onTree in *.

Lemma exists_true p w x :
  lookupPath p (files w) = Some x -> exists_ p w = Ret true w.
Proof. intros H. unfold_script. by rewrite H. Qed.

Lemma exists_false p w :
  lookupPath p (files w) = None -> exists_ p w = Ret false w.
Proof. intros H. unfold_script. by rewrite H. Qed.

Lemma exists_spec p w :
  exists_ p w = Ret (bool_decide (is_Some (lookupPath p (files w)))) w.
Proof.
  destruct (lookupPath p (files w)) as [x|] eqn:H.
  - rewrite (exists_true _ _ _ H). by rewrite bool_decide_true.
  - rewrite (exists_false _ _ H). rewrite bool_decide_false; [done|].
    by intros [? ?].
Qed.

(** C5. A write without [force] of the content the file already has
    writes nothing, backs nothing up and reports "Unchanged": the world
    after the call is the world before it with that one console line, its
    tree is the tree before the call, and the same write again does the
    same. *)
Theorem safeWrite_unchanged (E : env) (p : path) (content : string) (w : world) :
  lookupPath p (files w) = Some (File content) ->
  let w' := say (Log ("Unchanged: " +:+ showPath p)) w in
  safeWrite E p content false w = Ret false w' /\
  files w' = files w /\
  safeWrite E p content false w'
  = Ret false (say (Log ("Unchanged: " +:+ showPath p)) w').
Proof.
  assert (Hrun : forall w0, lookupPath p (files w0) = Some (File content) ->
            safeWrite E p content false w0
            = Ret false (say (Log ("Unchanged: " +:+ showPath p)) w0)).
  { intros w0 H. unfold safeWrite.
    erewrite bind_Ret; [|by apply (exists_true p w0 (File content))].
    cbn [negb]. erewrite bind_Ret; [|unfold fs.readFile; by rewrite H].
    rewrite bool_decide_true by done. reflexivity. }
  intros H w'. split; [by apply Hrun|]. split; [done|]. by apply Hrun.
Qed.

Lemma safeWrite_unchanged_witness :
  let w' := say (Log ("Unchanged: " +:+ showPath ["index.html"])) indexOnly in
  safeWrite quietEnv ["index.html"] "old" false indexOnly = Ret false w' /\
  files w' = files indexOnly /\
  safeWrite quietEnv ["index.html"] "old" false w'
  = Ret false (say (Log ("Unchanged: " +:+ showPath ["index.html"])) w').
Proof.
  apply (safeWrite_unchanged quietEnv ["index.html"] "old" indexOnly).
  reflexivity.
Defined.

(** Writing over an existing entry. *)
Lemma lookupPath_dirname p n y :
  lookupPath p n = Some y -> is_Some (lookupPath (dirname p) n).
Proof.
  revert n. induction p as [|k p IH]; intros n; [by exists n|].
  destruct p as [|k2 p]; [by exists n|].
  change (dirname (k :: k2 :: p)) with (k :: dirname (k2 :: p)).
  destruct n as [?|m]; [done|]. simpl lookupPath at 1.
  destruct (m !! k) as [c|] eqn:Hk; [|done].
  intros H. cbn [lookupPath]. rewrite Hk. by apply IH.
Qed.

Lemma putPath_existing p x n y :
  p <> [] -> lookupPath p n = Some y ->
  exists n', putPath p x n = Some n' /\ lookupPath p n' = Some x /\
             (y = x -> n' = n).
Proof.
  revert n. induction p as [|k p IH]; intros n Hp; [done|].
  destruct n as [?|m]; [done|]. destruct p as [|k2 p].
  - simpl. destruct (m !! k) as [c|] eqn:Hk; [|done]. intros [= ->].
    exists (Dir (<[k:=x]> m)). split; [done|]. rewrite lookup_insert_eq.
    split; [done|]. intros ->. by rewrite insert_id.
  - change (lookupPath (k :: k2 :: p) (Dir m))
      with (match m !! k with Some c => lookupPath (k2 :: p) c | None => None end).
    change (putPath (k :: k2 :: p) x (Dir m))
      with (match m !! k with
            | Some c => match putPath (k2 :: p) x c with
                        | Some c' => Some (Dir (<[k:=c']> m))
                        | None => None
                        end
            | None => None
            end).
    destruct (m !! k) as [c|] eqn:Hk; [|done]. intros Hy.
    destruct (IH c) as (c' & -> & Hc' & Hid); [done|done|].
    exists (Dir (<[k:=c']> m)). split; [done|]. split.
    + change (lookupPath (k :: k2 :: p) (Dir (<[k:=c']> m)))
        with (match <[k:=c']> m !! k with
              | Some c => lookupPath (k2 :: p) c
              | None => None
              end).
      by rewrite lookup_insert_eq.
    + intros Hyx. rewrite (Hid Hyx). by rewrite insert_id.
Qed.

(** A forced write over an existing file, in general: the file is
    overwritten in place and nothing else in the tree changes; there is no
    backup and no comparison with the old content. *)
Lemma safeWrite_force_overwrites (E : env) (p : path) (content old : string) w :
  p <> [] ->
  lookupPath p (files w) = Some (File old) ->
  exists n',
    putPath p (File content) (files w) = Some n' /\
    lookupPath p n' = Some (File content) /\
    (old = content -> n' = files w) /\
    safeWrite E p content true w
    = Ret true (say (Log ("Wrote: " +:+ showPath p)) (setFiles n' w)).
Proof.
  intros Hp H.
  destruct (putPath_existing p (File content) (files w) (File old) Hp H)
    as (n' & Hput & Hget & Hid).
  exists n'. split; [done|]. split; [done|]. split; [by intros ->; apply Hid|].
  unfold safeWrite.
  erewrite bind_Ret; [|by apply (exists_true p w (File old))]. cbn [negb].
  destruct (lookupPath_dirname p (files w) _ H) as [d Hd].
  erewrite bind_Ret; last first.
  { unfold ensureDir. erewrite bind_Ret; [|by apply (exists_true _ w d)]. done. }
  erewrite bind_Ret; last first.
  { unfold fs.writeFile, fs.onTree. by rewrite H, Hput. }
  reflexivity.
Qed.

(** C1. A forced write over an existing file: the file is overwritten and
    no [.bak-electronize] sibling is made, whether the content differs
    from what is on disk or not.  The short-circuit on identical content
    is skipped, and the backup with it. *)
Theorem safeWrite_force_makes_no_backup :
  (exists w',
     safeWrite quietEnv ["index.html"] "new" true indexOnly = Ret true w' /\
     lookupPath ["index.html"] (files w') = Some (File "new") /\
     lookupPath (bakPath ["index.html"]) (files w') = None /\
     console w' = [Log "Wrote: index.html"]) /\
  (exists w',
     safeWrite quietEnv ["index.html"] "old" true indexOnly = Ret true w' /\
     lookupPath (bakPath ["index.html"]) (files w') = None /\
     console w' = [Log "Wrote: index.html"]).
Proof. split; eexists; repeat split; vm_compute; reflexivity. Qed.

(** The same call without [force] does make the backup first. *)
Lemma safeWrite_plain_makes_backup :
  exists w',
    safeWrite quietEnv ["index.html"] "new" false indexOnly = Ret true w' /\
    lookupPath ["index.html"] (files w') = Some (File "new") /\
    lookupPath (bakPath ["index.html"]) (files w') = Some (File "old").
Proof. eexists. repeat split; vm_compute; reflexivity. Qed.

(** ** The tree under one root entry *)

Lemma lookupPath_focus k p c (r : gmap string node) :
  lookupPath (k :: p) (Dir (<[k:=c]> r)) = lookupPath p c.
Proof. simpl. by rewrite lookup_insert_eq. Qed.

Lemma putPath_focus k k2 p x c (r : gmap string node) :
  putPath (k :: k2 :: p) x (Dir (<[k:=c]> r))
  = (fun c' => Dir (<[k:=c']> r)) <$> putPath (k2 :: p) x c.
Proof.
  change (putPath (k :: k2 :: p) x (Dir (<[k:=c]> r)))
    with (match (<[k:=c]> r) !! k with
          | Some c0 => match putPath (k2 :: p) x c0 with
                       | Some c' => Some (Dir (<[k:=c']> (<[k:=c]> r)))
                       | None => None
                       end
          | None => None
          end).
  rewrite lookup_insert_eq.
  destruct (putPath (k2 :: p) x c); simpl; [|done].
  by rewrite insert_insert_eq.
Qed.

Lemma delPath_focus k k2 p c (r : gmap string node) :
  delPath (k :: k2 :: p) (Dir (<[k:=c]> r))
  = (fun c' => Dir (<[k:=c']> r)) <$> delPath (k2 :: p) c.
Proof.
  change (delPath (k :: k2 :: p) (Dir (<[k:=c]> r)))
    with (match (<[k:=c]> r) !! k with
          | Some c0 => match delPath (k2 :: p) c0 with
                       | Some c' => Some (Dir (<[k:=c']> (<[k:=c]> r)))
                       | None => None
                       end
          | None => None
          end).
  rewrite lookup_insert_eq.
  destruct (delPath (k2 :: p) c); simpl; [|done].
  by rewrite insert_insert_eq.
Qed.

Lemma root_is_dir p k n x :
  lookupPath (k :: p) n = Some x ->
  exists root c, n = Dir root /\ root !! k = Some c /\ lookupPath p c = Some x.
Proof.
  destruct n as [?|root]; simpl; [done|].
  destruct (root !! k) as [c|] eqn:Hk; [|done].
  intros H. by exists root, c.
Qed.

(** ** The subtree relocator *)

Section Relocation.

Variable E : env.

(** One child moved, by the rename or by the copy fallback. *)
Lemma move_one (root ms mu : gmap string node) name x c :
  ms !! name = Some x ->
  name <> "ui" ->
  cpThrows E ["src"; name] = false ->
  rmThrows E ["src"; name] = false ->
  tryCatch (fs.rename E ["src"; name] ["src"; "ui"; name])
           (fs.cp E ["src"; name] ["src"; "ui"; name] ;; fs.rm E ["src"; name])
           (World (withSrc root ms mu) c)
  = Ret tt (World (withSrc root (delete name ms) (<[name:=x]> mu)) c).
Proof.
  intros Hx Hui Hcp Hrm.
  assert (Hfrom : lookupPath ["src"; name] (withSrc root ms mu) = Some x).
  { unfold withSrc. rewrite lookupPath_focus. simpl.
    rewrite lookup_insert_ne by done. by rewrite Hx. }
  assert (Hnorm :
    <["ui" := Dir (<[name:=x]> mu)]> (delete name (<["ui" := Dir mu]> ms))
    = <["ui" := Dir (<[name:=x]> mu)]> (delete name ms)).
  { rewrite delete_insert_ne by done. by rewrite insert_insert_eq. }
  unfold tryCatch, fs.rename, fs.cp, fs.rm, fs.onTree, bind.
  destruct (renameThrows E ["src"; name]); cbn [files].
  - (* the rename is refused: copy, then remove *)
    rewrite Hcp, Hrm, Hfrom. unfold withSrc at 1.
    rewrite putPath_focus. simpl putPath.
    rewrite lookup_insert_eq. cbn [fmap option_fmap option_map setFiles files console].
    rewrite delPath_focus. simpl delPath.
    cbn [fmap option_fmap option_map setFiles files console].
    unfold withSrc. do 4 f_equal.
    rewrite delete_insert_ne by done.
    rewrite delete_insert_ne by done.
    by rewrite insert_insert_eq.
  - rewrite Hfrom. unfold withSrc at 1.
    rewrite delPath_focus. simpl delPath.
    cbn [fmap option_fmap option_map setFiles files console].
    rewrite putPath_focus. simpl putPath.
    rewrite lookup_delete_ne by done. rewrite lookup_insert_eq.
    unfold setFiles, withSrc. cbn [fmap option_fmap option_map console].
    by rewrite Hnorm.
Qed.

Lemma elem_of_names (m : gmap string node) k :
  k ∈ names m <-> is_Some (m !! k).
Proof.
  unfold names. rewrite list_elem_of_fmap. split.
  - intros [[k' x] [-> Hin]]. apply elem_of_map_to_list in Hin. by exists x.
  - intros [x Hx]. exists (k, x). split; [done|]. by apply elem_of_map_to_list.
Qed.

Lemma hasNonElectron_false (l : list string) :
  hasNonElectron l = false <-> forall k, k ∈ l -> k = "electron".
Proof.
  unfold hasNonElectron. induction l as [|a l IH]; simpl.
  - split; [|done]. intros _ k Hk. by apply elem_of_nil in Hk.
  - rewrite orb_false_iff, IH, negb_false_iff, String.eqb_eq. split.
    + intros [Ha Hl] k Hk. apply elem_of_cons in Hk as [->|Hk]; auto.
    + intros H. split; [apply H; left | intros k Hk; apply H; by right].
Qed.

(** The loop over the children: what is left in [src] and what has
    arrived in [src/ui]. *)
Lemma move_loop (l : list string) :
  forall (root ms mu : gmap string node) c,
    NoDup l ->
    "ui" ∉ l ->
    (forall p, cpThrows E p = false) ->
    (forall p, rmThrows E p = false) ->
    (forall name, name ∈ l -> name <> "electron" -> is_Some (ms !! name)) ->
    exists ms' mu' c',
      forEach l (fun name =>
        if String.eqb name "electron" then ret tt
        else
          let from := (SRC ++ [name])%list in
          let to := (UI ++ [name])%list in
          tryCatch (fs.rename E from to) (fs.cp E from to ;; fs.rm E from) ;;
          log ("Moved src/" +:+ name +:+ " -> src/ui/" +:+ name))
        (World (withSrc root ms mu) c)
      = Ret tt (World (withSrc root ms' mu') c') /\
      (forall k, ms' !! k
                 = if bool_decide (k ∈ l /\ k <> "electron") then None else ms !! k) /\
      (forall k, mu' !! k
                 = if bool_decide (k ∈ l /\ k <> "electron") then ms !! k else mu !! k).
Proof.
  induction l as [|name l IH]; intros root ms mu c Hnd Hui Hcp Hrm Hin.
  - exists ms, mu, c. split; [done|].
    split; intros k; rewrite bool_decide_false; try done;
      intros [Hk _]; by apply elem_of_nil in Hk.
  - apply NoDup_cons in Hnd as [Hname Hnd].
    apply not_elem_of_cons in Hui as [Hne Hui].
    cbn [forEach]. destruct (String.eqb name "electron") eqn:He.
    + apply String.eqb_eq in He. subst name.
      destruct (IH root ms mu c Hnd Hui Hcp Hrm) as (ms' & mu' & c' & Hrun & Hs & Hu).
      { intros n Hn. apply Hin. by right. }
      exists ms', mu', c'. split; [exact Hrun|].
      split; intros k; [rewrite Hs | rewrite Hu];
        destruct (decide (k = "electron")) as [->|Hk];
        repeat case_bool_decide; try done;
        rewrite ?elem_of_cons in *; naive_solver.
    + apply String.eqb_neq in He.
      destruct (Hin name) as [x Hx]; [by left | done |].
      cbn [app SRC UI].
      erewrite bind_Ret; last first.
      { erewrite bind_Ret; [|apply (move_one root ms mu name x c); auto].
        reflexivity. }
      destruct (IH root (delete name ms) (<[name:=x]> mu)
                  (c ++ [Log ("Moved src/" +:+ name +:+ " -> src/ui/" +:+ name)])%list
                  Hnd Hui Hcp Hrm)
        as (ms' & mu' & c' & Hrun & Hs & Hu).
      { intros n Hn Hne'. rewrite lookup_delete_ne; [apply Hin; [by right|done]|].
        intros ->. done. }
      exists ms', mu', c'. split; [exact Hrun|].
      split; intros k; [rewrite Hs | rewrite Hu].
      * destruct (decide (k = name)) as [->|Hk].
        -- rewrite lookup_delete_eq.
           rewrite (bool_decide_true (name ∈ name :: l /\ _));
             [by case_bool_decide | split; [by left | done]].
        -- rewrite lookup_delete_ne by done.
           repeat case_bool_decide; try done;
             rewrite ?elem_of_cons in *; naive_solver.
      * destruct (decide (k = name)) as [->|Hk].
        -- rewrite lookup_insert_eq.
           rewrite (bool_decide_false (name ∈ l /\ _)) by naive_solver.
           rewrite bool_decide_true; [done | split; [by left | done]].
        -- rewrite lookup_insert_ne, lookup_delete_ne by done.
           repeat case_bool_decide; try done;
             rewrite ?elem_of_cons in *; naive_solver.
Qed.

End Relocation.

(** The two early returns of [moveSrcToUi]. *)
Lemma moveSrcToUi_ui_exists (E : env) (w : world) :
  is_Some (lookupPath UI (files w)) ->
  moveSrcToUi E w = Ret tt (say (Log "src/ui already exists — skipping move.") w).
Proof.
  intros [x Hui]. unfold moveSrcToUi.
  destruct (root_is_dir _ _ _ _ Hui) as (root & c & Hw & Hc & _).
  erewrite bind_Ret; [|apply (exists_true SRC w c); rewrite Hw; simpl; by rewrite Hc].
  cbn [negb]. erewrite bind_Ret; [|reflexivity].
  erewrite bind_Ret; [|apply (exists_true UI w x Hui)].
  reflexivity.
Qed.

Lemma moveSrcToUi_nothing_to_move (E : env) (w : world) m :
  lookupPath SRC (files w) = Some (Dir m) ->
  hasNonElectron (names m) = false ->
  moveSrcToUi E w
  = Ret tt (say (Log "src contains only electron/ (or is empty) — nothing to move.") w).
Proof.
  intros Hsrc Hall. unfold moveSrcToUi.
  assert (Hno : lookupPath UI (files w) = None).
  { destruct (root_is_dir _ _ _ _ Hsrc) as (root & c & Hw & Hc & Hm).
    simpl in Hm. injection Hm as ->. rewrite Hw. simpl. rewrite Hc.
    destruct (m !! "ui") as [u|] eqn:Hu; [|done].
    assert (Hin : "ui" ∈ names m) by (apply elem_of_names; by exists u).
    by specialize (proj1 (hasNonElectron_false _) Hall _ Hin). }
  erewrite bind_Ret; [|apply (exists_true SRC w _ Hsrc)].
  cbn [negb]. erewrite bind_Ret; [|reflexivity].
  erewrite bind_Ret; [|apply (exists_false UI w Hno)].
  cbv beta iota.
  erewrite bind_Ret; [|unfold fs.readdir; rewrite Hsrc; reflexivity].
  by rewrite Hall.
Qed.

(** C9. The relocation does nothing when [src/ui] already exists, and
    nothing when [src] has no child other than [electron]: the call returns
    and the world after it is the world before it with one console line. *)
Theorem moveSrcToUi_noop (E : env) (w : world) :
  is_Some (lookupPath UI (files w)) \/
  (exists m, lookupPath SRC (files w) = Some (Dir m) /\
             hasNonElectron (names m) = false) ->
  exists msg,
    moveSrcToUi E w = Ret tt (say (Log msg) w) /\
    files (say (Log msg) w) = files w.
Proof.
  intros [Hui | (m & Hsrc & Hall)].
  - eexists. split; [by apply moveSrcToUi_ui_exists | done].
  - eexists. split; [by apply (moveSrcToUi_nothing_to_move E w m) | done].
Qed.

Lemma moveSrcToUi_noop_witness :
  (exists msg, moveSrcToUi quietEnv alreadyMigrated
               = Ret tt (say (Log msg) alreadyMigrated) /\
               files (say (Log msg) alreadyMigrated) = files alreadyMigrated) /\
  (exists msg, moveSrcToUi quietEnv electronOnly
               = Ret tt (say (Log msg) electronOnly) /\
               files (say (Log msg) electronOnly) = files electronOnly).
Proof.
  split.
  - apply (moveSrcToUi_noop quietEnv alreadyMigrated). left.
    vm_compute. eexists. reflexivity.
  - apply (moveSrcToUi_noop quietEnv electronOnly). right.
    eexists. split; vm_compute; reflexivity.
Defined.

(** C6, as the code has it.  When [src/ui] does not exist yet and no step
    of the copy fallback is refused, the call returns, and after it: [src/electron] is
    what it was; every other child of [src] is, with its whole subtree,
    under [src/ui]; [src] holds nothing else than [electron] and [ui]; and
    nothing outside [src] has changed. *)
Theorem moveSrcToUi_relocates (E : env) (w : world) (m : gmap string node) :
  lookupPath SRC (files w) = Some (Dir m) ->
  m !! "ui" = None ->
  (forall p, cpThrows E p = false) ->
  (forall p, rmThrows E p = false) ->
  exists w',
    moveSrcToUi E w = Ret tt w' /\
    lookupPath ["src"; "electron"] (files w') = m !! "electron" /\
    (forall name, name <> "electron" ->
       lookupPath ["src"; "ui"; name] (files w') = m !! name) /\
    (forall name, name <> "electron" -> name <> "ui" ->
       lookupPath ["src"; name] (files w') = None) /\
    (forall k, k <> "src" -> lookupPath [k] (files w') = lookupPath [k] (files w)).
Proof.
  intros Hsrc Hui Hcp Hrm.
  destruct (root_is_dir _ _ _ _ Hsrc) as (root & c & Hw & Hc & Hm).
  simpl in Hm. injection Hm as ->.
  assert (Hno : lookupPath UI (files w) = None).
  { rewrite Hw. simpl. by rewrite Hc, Hui. }
  destruct (hasNonElectron (names m)) eqn:Hsome.
  - (* something to move *)
    assert (Hroot : files w = Dir (<["src" := Dir m]> root)).
    { rewrite Hw. f_equal. symmetry. by apply insert_id. }
    destruct (move_loop E (names m) root m ∅ (console w))
      as (ms' & mu' & c' & Hrun & Hs & Hu).
    { apply NoDup_fst_map_to_list. }
    { rewrite elem_of_names, Hui. by intros [? ?]. }
    { exact Hcp. }
    { exact Hrm. }
    { intros name Hin _. by apply elem_of_names. }
    eexists. split.
    { unfold moveSrcToUi.
      erewrite bind_Ret; [|apply (exists_true SRC _ _ Hsrc)].
      cbn [negb]. erewrite bind_Ret; [|reflexivity].
      erewrite bind_Ret; [|apply (exists_false UI _ Hno)].
      cbv beta iota.
      erewrite bind_Ret; [|unfold fs.readdir; rewrite Hsrc; reflexivity].
      rewrite Hsome.
      cbn [negb].
      erewrite bind_Ret; last first.
      { unfold ensureDir. erewrite bind_Ret; [|apply (exists_false UI _ Hno)].
        cbn [negb]. unfold fs.mkdir, fs.onTree. cbn [files].
        rewrite Hroot. simpl mkdirp. rewrite lookup_insert_eq. simpl.
        rewrite Hui. simpl. rewrite insert_insert_eq. reflexivity. }
      unfold setFiles. cbn [console].
      fold (withSrc root m ∅).
      erewrite bind_Ret; [|exact Hrun].
      reflexivity. }
    cbn [files say]. unfold withSrc.
    repeat split.
    + rewrite lookupPath_focus. simpl.
      rewrite lookup_insert_ne by done. rewrite Hs.
      rewrite bool_decide_false by naive_solver.
      by destruct (m !! "electron").
    + intros name Hne. rewrite lookupPath_focus. simpl.
      rewrite lookup_insert_eq. rewrite Hu.
      case_bool_decide as Hd.
      * by destruct (m !! name).
      * rewrite lookup_empty.
        destruct (m !! name) as [x|] eqn:Hx; [|done].
        exfalso. apply Hd. split; [|done]. apply elem_of_names. by exists x.
    + intros name Hne Hne'. rewrite lookupPath_focus. simpl.
      rewrite lookup_insert_ne by done. rewrite Hs.
      case_bool_decide as Hd; [done|].
      destruct (m !! name) as [x|] eqn:Hx; [|done].
      exfalso. apply Hd. split; [|done]. apply elem_of_names. by exists x.
    + intros k Hk. simpl. rewrite lookup_insert_ne by done.
      rewrite Hroot. simpl. by rewrite lookup_insert_ne.
  - (* nothing to move *)
    pose proof (moveSrcToUi_nothing_to_move E w m Hsrc Hsome) as Hrun.
    pose proof (proj1 (hasNonElectron_false _) Hsome) as Hall.
    assert (Hnone : forall name, name <> "electron" -> m !! name = None).
    { intros name Hne. destruct (m !! name) as [x|] eqn:Hx; [|done].
      exfalso. apply Hne, Hall, elem_of_names. by exists x. }
    eexists. split; [exact Hrun|].
    cbn [files say]. rewrite Hw. simpl. rewrite Hc.
    repeat split.
    + by destruct (m !! "electron").
    + intros name Hne. by rewrite Hui, Hnone.
    + intros name Hne _. by rewrite Hnone.
Qed.

Lemma moveSrcToUi_relocates_witness :
  exists w',
    moveSrcToUi crossDeviceEnv exampleTree = Ret tt w' /\
    lookupPath ["src"; "electron"] (files w')
    = Some (dir [("c.ts", File "c")]) /\
    lookupPath ["src"; "ui"; "a.ts"] (files w') = Some (File "a") /\
    lookupPath ["src"; "ui"; "b.css"] (files w') = Some (File "b") /\
    lookupPath ["src"; "a.ts"] (files w') = None.
Proof.
  destruct (moveSrcToUi_relocates crossDeviceEnv exampleTree
              (list_to_map [("a.ts", File "a"); ("b.css", File "b");
                            ("electron", dir [("c.ts", File "c")])]))
    as (w' & Hrun & He & Hu & Hs & _).
  - vm_compute. reflexivity.
  - vm_compute. reflexivity.
  - intros p. reflexivity.
  - intros p. reflexivity.
  - exists w'. split; [exact Hrun|]. split; [|split; [|split]].
    + rewrite He. vm_compute. reflexivity.
    + rewrite (Hu "a.ts") by done. vm_compute. reflexivity.
    + rewrite (Hu "b.css") by done. vm_compute. reflexivity.
    + by apply Hs.
Defined.

(** C6 read for every call fails where [src/ui] is already there: a child
    that is not excluded stays in [src] and is not under [src/ui]. *)
Lemma relocation_skipped_when_ui_exists :
  ~ (forall w', moveSrcToUi quietEnv alreadyMigrated = Ret tt w' ->
       lookupPath ["src"; "a.ts"] (files w') = None /\
       lookupPath ["src"; "ui"; "a.ts"] (files w') = Some (File "a")).
Proof.
  intros H. edestruct H as [H1 _]; [vm_compute; reflexivity|].
  vm_compute in H1. discriminate.
Qed.

(** ** The merge of the scripts *)

Lemma truthy_Some (x : string) : truthy (Some x) = true <-> x <> "".
Proof.
  unfold truthy. case_bool_decide; simpl; split; intros; congruence.
Qed.

(** One turn of the loop, read at the desired key, at its backup key, and
    elsewhere. *)
Lemma addScript_key s k v : addScript s (k, v) !! k = Some v.
Proof.
  unfold addScript. destruct (s !! k) as [cur|] eqn:Hk.
  - destruct (truthy (Some cur)); simpl; [|by rewrite lookup_insert_eq].
    case_bool_decide; simpl; [by subst|]. by rewrite lookup_insert_eq.
  - by rewrite lookup_insert_eq.
Qed.

Lemma addScript_other s k v j :
  j <> k -> j <> backupKey k -> addScript s (k, v) !! j = s !! j.
Proof.
  intros Hk Hb. unfold addScript. destruct (s !! k) as [cur|] eqn:Hc.
  - destruct (truthy (Some cur)); simpl; [|by rewrite lookup_insert_ne].
    case_bool_decide; simpl; [done|].
    rewrite lookup_insert_ne by done.
    destruct (truthy (s !! backupKey k)); simpl; [done|].
    by rewrite lookup_insert_ne.
  - by rewrite lookup_insert_ne.
Qed.

Lemma addScript_backup s k v :
  addScript s (k, v) !! backupKey k
  = if conflicts s k v && negb (truthy (s !! backupKey k)) then s !! k
    else s !! backupKey k.
Proof.
  pose proof (backupKey_neq k) as Hne.
  unfold addScript, conflicts. destruct (s !! k) as [cur|] eqn:Hc.
  - destruct (truthy (Some cur)) eqn:Ht; simpl; [|by rewrite lookup_insert_ne].
    case_bool_decide as Hv; simpl.
    + subst. rewrite bool_decide_true by done. done.
    + rewrite bool_decide_false by congruence. simpl.
      rewrite lookup_insert_ne by done.
      destruct (truthy (s !! backupKey k)); simpl; [done|].
      by rewrite lookup_insert_eq.
  - simpl. by rewrite lookup_insert_ne.
Qed.

Lemma conflicts_local s s' k v :
  s' !! k = s !! k -> conflicts s' k v = conflicts s k v.
Proof. intros H. unfold conflicts. by rewrite H. Qed.

Lemma addScript_never_deletes s kv j :
  is_Some (s !! j) -> is_Some (addScript s kv !! j).
Proof.
  destruct kv as [k v]. intros Hj.
  destruct (decide (j = k)) as [->|Hk]; [by rewrite addScript_key|].
  destruct (decide (j = backupKey k)) as [->|Hb].
  - rewrite addScript_backup.
    destruct (conflicts s k v && _) eqn:Hc; [|done].
    apply andb_prop in Hc as [Hc _]. unfold conflicts in Hc.
    apply andb_prop in Hc as [Hc _]. by destruct (s !! k).
  - by rewrite addScript_other.
Qed.

Lemma mergeScripts_never_deletes d s j :
  is_Some (s !! j) -> is_Some (mergeScripts d s !! j).
Proof.
  revert s. induction d as [|kv d IH]; intros s Hj; [done|].
  apply IH. by apply addScript_never_deletes.
Qed.

Lemma mergeScripts_other d s j :
  j ∉ d.*1 -> j ∉ backupKey <$> d.*1 -> mergeScripts d s !! j = s !! j.
Proof.
  revert s. induction d as [|[k v] d IH]; intros s Hk Hb; [done|].
  rewrite !fmap_cons in *. apply not_elem_of_cons in Hk as [Hk Hk'].
  apply not_elem_of_cons in Hb as [Hb Hb'].
  change (mergeScripts ((k, v) :: d) s) with (mergeScripts d (addScript s (k, v))).
  rewrite IH by done. by apply addScript_other.
Qed.

Lemma mergeScripts_at d s k v j :
  separated d -> (k, v) ∈ d -> j = k \/ j = backupKey k ->
  mergeScripts d s !! j = addScript s (k, v) !! j.
Proof.
  intros [Hnd Hsep]. rewrite Forall_forall in Hsep.
  assert (Hkeys : forall a b, a ∈ d.*1 -> b ∈ d.*1 -> a <> backupKey b).
  { intros a b Ha Hb ->. by apply (Hsep b). }
  clear Hsep. revert s Hnd Hkeys.
  induction d as [|[k0 v0] d IH]; intros s Hnd Hkeys Hin Hj.
  { by apply elem_of_nil in Hin. }
  rewrite fmap_cons in Hnd. apply NoDup_cons in Hnd as [Hk0 Hnd].
  change (mergeScripts ((k0, v0) :: d) s) with (mergeScripts d (addScript s (k0, v0))).
  assert (Hhd : k0 ∈ ((k0, v0) :: d).*1) by (rewrite fmap_cons; left).
  assert (Htl : forall a, a ∈ d.*1 -> a ∈ ((k0, v0) :: d).*1)
    by (intros a Ha; rewrite fmap_cons; by right).
  apply elem_of_cons in Hin as [Heq|Hin].
  - injection Heq as -> ->. apply mergeScripts_other.
    + destruct Hj as [->| ->]; [done|].
      intros Hb. by apply (Hkeys (backupKey k0) k0); auto.
    + rewrite list_elem_of_fmap. intros (b & Hjb & Hb).
      destruct Hj as [->| ->].
      * by apply (Hkeys k0 b); auto.
      * apply backupKey_inj in Hjb. by subst.
  - assert (Hk : k ∈ d.*1).
    { apply list_elem_of_fmap. by exists (k, v). }
    assert (Hne : k <> k0) by (intros ->; done).
    rewrite IH; [|done|auto|done|done].
    assert (H1 : addScript s (k0, v0) !! k = s !! k).
    { apply addScript_other; [done|]. apply Hkeys; auto. }
    assert (H2 : addScript s (k0, v0) !! backupKey k = s !! backupKey k).
    { apply addScript_other.
      - intros Hb. by apply (Hkeys k0 k); auto.
      - intros Hb. by apply backupKey_inj in Hb. }
    destruct Hj as [->| ->].
    + by rewrite !addScript_key.
    + rewrite !addScript_backup. by rewrite (conflicts_local _ _ _ _ H1), H1, H2.
Qed.

Lemma mergeScripts_fixed d t :
  (forall k v, (k, v) ∈ d -> t !! k = Some v /\ v <> "") ->
  mergeScripts d t = t.
Proof.
  induction d as [|[k v] d IH]; intros H; [done|].
  change (mergeScripts ((k, v) :: d) t) with (mergeScripts d (addScript t (k, v))).
  assert (Hstep : addScript t (k, v) = t).
  { destruct (H k v) as [Hk Hv]; [by left|].
    unfold addScript. rewrite Hk.
    rewrite (proj2 (truthy_Some v) Hv). simpl.
    by rewrite bool_decide_true. }
  rewrite Hstep. apply IH. intros k' v' Hin. apply H. by right.
Qed.

Lemma mergeScripts_installs d s k v :
  separated d -> (k, v) ∈ d -> mergeScripts d s !! k = Some v.
Proof.
  intros Hsep Hin. rewrite (mergeScripts_at d s k v k) by auto.
  apply addScript_key.
Qed.

Lemma mergeScripts_idempotent d s :
  separated d -> Forall (fun kv => kv.2 <> "") d ->
  mergeScripts d (mergeScripts d s) = mergeScripts d s.
Proof.
  intros Hsep Hval. apply mergeScripts_fixed. intros k v Hin. split.
  - by apply mergeScripts_installs.
  - rewrite Forall_forall in Hval. by apply (Hval (k, v)).
Qed.

Lemma DESIRED_SCRIPTS_separated : separated DESIRED_SCRIPTS.
Proof.
  split.
  - apply (bool_decide_unpack (NoDup _)). vm_compute. reflexivity.
  - apply (bool_decide_unpack (Forall _ _)). vm_compute. reflexivity.
Qed.

Lemma DESIRED_SCRIPTS_nonempty : Forall (fun kv => kv.2 <> "") DESIRED_SCRIPTS.
Proof. apply (bool_decide_unpack (Forall _ _)). vm_compute. reflexivity. Qed.

Lemma addScript_no_new_empty s k v j :
  v <> "" -> addScript s (k, v) !! j = Some "" -> s !! j = Some "".
Proof.
  intros Hv. destruct (decide (j = k)) as [->|Hk].
  { rewrite addScript_key. congruence. }
  destruct (decide (j = backupKey k)) as [->|Hb].
  - rewrite addScript_backup.
    destruct (conflicts s k v && _) eqn:Hc; [|done].
    apply andb_prop in Hc as [Hc _]. unfold conflicts in Hc.
    apply andb_prop in Hc as [Hc _]. intros Hk'. rewrite Hk' in Hc.
    by vm_compute in Hc.
  - by rewrite addScript_other.
Qed.

Lemma mergeScripts_no_new_empty d s j :
  Forall (fun kv => kv.2 <> "") d ->
  mergeScripts d s !! j = Some "" -> s !! j = Some "".
Proof.
  revert s. induction d as [|[k v] d IH]; intros s Hval H; [done|].
  apply Forall_cons in Hval as [Hv Hval].
  apply (addScript_no_new_empty s k v j Hv). by apply IH.
Qed.

Lemma scriptsOf_patchPkg pkg :
  scriptsOf (patchPkg pkg) = mergeScripts DESIRED_SCRIPTS (scriptsOf pkg).
Proof. reflexivity. Qed.

(** C2, as the code has it.  The merge never deletes a key of the scripts
    map; and a key whose value is not the empty string has, after the
    merge, its original value or the value desired for it. *)
Theorem merge_keeps_every_key (pkg : package) (k o : string) :
  scriptsOf pkg !! k = Some o ->
  is_Some (scriptsOf (patchPkg pkg) !! k) /\
  (o <> "" ->
   scriptsOf (patchPkg pkg) !! k = Some o \/
   exists v, In (k, v) DESIRED_SCRIPTS /\ scriptsOf (patchPkg pkg) !! k = Some v).
Proof.
  intros Hk. rewrite scriptsOf_patchPkg. split.
  { apply mergeScripts_never_deletes. by rewrite Hk. }
  intros Ho.
  destruct (decide (k ∈ DESIRED_SCRIPTS.*1)) as [Hin|Hout].
  - apply list_elem_of_fmap in Hin as ([k' v] & -> & Hin). right. exists v. split.
    + by apply list_elem_of_In.
    + by apply mergeScripts_installs; [apply DESIRED_SCRIPTS_separated|].
  - left. destruct (decide (k ∈ backupKey <$> DESIRED_SCRIPTS.*1)) as [Hb|Hb].
    + apply list_elem_of_fmap in Hb as (k' & -> & Hb).
      apply list_elem_of_fmap in Hb as ([k'' v] & -> & Hb). cbn [fst] in *.
      rewrite (mergeScripts_at _ _ k'' v) by
        (auto using DESIRED_SCRIPTS_separated).
      rewrite addScript_backup, Hk.
      rewrite (proj2 (truthy_Some o) Ho). by rewrite andb_false_r.
    + by rewrite mergeScripts_other.
Qed.

Lemma merge_keeps_every_key_witness :
  is_Some (scriptsOf (patchPkg (withScripts [("build", "A"); ("test", "jest")])) !! "test") /\
  (scriptsOf (patchPkg (withScripts [("build", "A"); ("test", "jest")])) !! "build" = Some "A" \/
   exists v, In ("build", v) DESIRED_SCRIPTS /\
     scriptsOf (patchPkg (withScripts [("build", "A"); ("test", "jest")])) !! "build" = Some v).
Proof.
  split.
  - apply (merge_keeps_every_key
             (withScripts [("build", "A"); ("test", "jest")]) "test" "jest").
    vm_compute. reflexivity.
  - apply (merge_keeps_every_key
             (withScripts [("build", "A"); ("test", "jest")]) "build" "A").
    + vm_compute. reflexivity.
    + discriminate.
Defined.

(** C2 as stated fails on a backup key that holds the empty string: the
    demotion of [build] overwrites it with a value that is neither its
    own nor desired for it, and no demoted counterpart of it is made. *)
Lemma merge_overwrites_empty_backup :
  let pkg := withScripts [("build", "A"); ("_backup_build", "")] in
  scriptsOf pkg !! "_backup_build" = Some "" /\
  ~ (exists x,
       (scriptsOf (patchPkg pkg) !! "_backup_build" = Some x \/
        scriptsOf (patchPkg pkg) !! backupKey "_backup_build" = Some x) /\
       (x = "" \/ In ("_backup_build", x) DESIRED_SCRIPTS)).
Proof.
  split; [vm_compute; reflexivity|].
  intros (x & Hx & Hv).
  assert (Hx' : x = "A").
  { destruct Hx as [Hx|Hx]; vm_compute in Hx; congruence. }
  subst x. destruct Hv as [Hv|Hv]; [discriminate|].
  simpl in Hv. repeat (destruct Hv as [Hv|Hv]; [discriminate|]). exact Hv.
Qed.

(** C4, as the code has it.  A desired script whose existing value [A] is
    not empty and differs from the desired value [B]: after the merge the
    key holds [B]; the backup key holds [A], unless it already held a
    non-empty value, which then stays; and a second merge changes nothing
    in the scripts map, so that no second backup key appears and the
    backup is not overwritten. *)
Theorem conflict_demotion (pkg : package) (k A B : string) :
  In (k, B) DESIRED_SCRIPTS ->
  scriptsOf pkg !! k = Some A ->
  A <> "" ->
  A <> B ->
  scriptsOf (patchPkg pkg) !! k = Some B /\
  scriptsOf (patchPkg pkg) !! backupKey k
  = (if truthy (scriptsOf pkg !! backupKey k) then scriptsOf pkg !! backupKey k
     else Some A) /\
  scriptsOf (patchPkg (patchPkg pkg)) = scriptsOf (patchPkg pkg).
Proof.
  intros Hin Hk HA HAB. apply list_elem_of_In in Hin.
  rewrite !scriptsOf_patchPkg. split; [|split].
  - by apply mergeScripts_installs; [apply DESIRED_SCRIPTS_separated|].
  - rewrite (mergeScripts_at _ _ k B) by (auto using DESIRED_SCRIPTS_separated).
    rewrite addScript_backup. unfold conflicts. rewrite Hk.
    rewrite (proj2 (truthy_Some A) HA).
    rewrite bool_decide_false by congruence. simpl.
    by destruct (truthy (scriptsOf pkg !! backupKey k)).
  - apply mergeScripts_idempotent.
    + apply DESIRED_SCRIPTS_separated.
    + apply DESIRED_SCRIPTS_nonempty.
Qed.

Lemma conflict_demotion_witness :
  let pkg := withScripts [("build", "A")] in
  scriptsOf (patchPkg pkg) !! "build" = Some "tsc -b && vite build" /\
  scriptsOf (patchPkg pkg) !! backupKey "build"
  = (if truthy (scriptsOf pkg !! backupKey "build")
     then scriptsOf pkg !! backupKey "build" else Some "A") /\
  scriptsOf (patchPkg (patchPkg pkg)) = scriptsOf (patchPkg pkg).
Proof.
  apply (conflict_demotion (withScripts [("build", "A")]) "build" "A"
           "tsc -b && vite build").
  - simpl. tauto.
  - vm_compute. reflexivity.
  - discriminate.
  - discriminate.
Defined.

(** C4 as stated fails for the existing value [""]: it differs from the
    desired value, the desired value is installed, and no backup key is
    made for it. *)
Lemma empty_script_is_not_demoted :
  let pkg := withScripts [("build", "")] in
  "" <> "tsc -b && vite build" /\
  In ("build", "tsc -b && vite build") DESIRED_SCRIPTS /\
  scriptsOf pkg !! "build" = Some "" /\
  scriptsOf (patchPkg pkg) !! "build" = Some "tsc -b && vite build" /\
  scriptsOf (patchPkg pkg) !! "_backup_build" <> Some "".
Proof.
  split; [discriminate|]. split; [simpl; tauto|].
  split; [vm_compute; reflexivity|]. split; [vm_compute; reflexivity|].
  vm_compute. discriminate.
Qed.

(** C10. A desired script whose existing value is the empty string is
    treated as absent: the desired value is installed, the backup key is
    left as it was (none is made), and the merge leaves an empty string
    only where one already was, never at that key.  And a backup key that
    holds the empty string is overwritten by the demotion of a conflicting
    script. *)
Theorem empty_string_is_absent (pkg : package) (k v : string) :
  In (k, v) DESIRED_SCRIPTS ->
  (scriptsOf pkg !! k = Some "" ->
   scriptsOf (patchPkg pkg) !! k = Some v /\
   scriptsOf (patchPkg pkg) !! backupKey k = scriptsOf pkg !! backupKey k /\
   forall j, scriptsOf (patchPkg pkg) !! j = Some "" ->
             scriptsOf pkg !! j = Some "" /\ j <> k) /\
  (forall cur, scriptsOf pkg !! k = Some cur -> cur <> "" -> cur <> v ->
     scriptsOf pkg !! backupKey k = Some "" ->
     scriptsOf (patchPkg pkg) !! backupKey k = Some cur).
Proof.
  intros Hin. apply list_elem_of_In in Hin.
  pose proof DESIRED_SCRIPTS_separated as Hsep.
  pose proof DESIRED_SCRIPTS_nonempty as Hval.
  assert (Hv : v <> "").
  { rewrite Forall_forall in Hval. by apply (Hval (k, v)). }
  rewrite !scriptsOf_patchPkg. split.
  - intros Hk. split; [by apply mergeScripts_installs|]. split.
    + rewrite (mergeScripts_at _ _ k v) by auto.
      rewrite addScript_backup. unfold conflicts. by rewrite Hk.
    + intros j Hj. split; [by apply (mergeScripts_no_new_empty _ _ _ Hval)|].
      intros ->. rewrite (mergeScripts_installs _ _ _ v) in Hj by done.
      congruence.
  - intros cur Hk Hcur Hne Hb.
    rewrite (mergeScripts_at _ _ k v) by auto.
    rewrite addScript_backup. unfold conflicts. rewrite Hk, Hb.
    rewrite (proj2 (truthy_Some cur) Hcur).
    by rewrite bool_decide_false by congruence.
Qed.

Lemma empty_string_is_absent_witness :
  (let pkg := withScripts [("lint", "")] in
   scriptsOf (patchPkg pkg) !! "lint" = Some "eslint ." /\
   scriptsOf (patchPkg pkg) !! backupKey "lint" = scriptsOf pkg !! backupKey "lint" /\
   forall j, scriptsOf (patchPkg pkg) !! j = Some "" ->
             scriptsOf pkg !! j = Some "" /\ j <> "lint") /\
  (let pkg := withScripts [("lint", "tslint"); ("_backup_lint", "")] in
   scriptsOf (patchPkg pkg) !! backupKey "lint" = Some "tslint").
Proof.
  split.
  - apply (empty_string_is_absent (withScripts [("lint", "")]) "lint" "eslint .").
    + simpl. tauto.
    + vm_compute. reflexivity.
  - apply (empty_string_is_absent
             (withScripts [("lint", "tslint"); ("_backup_lint", "")])
             "lint" "eslint .").
    + simpl. tauto.
    + vm_compute. reflexivity.
    + discriminate.
    + discriminate.
    + vm_compute. reflexivity.
Defined.

(** ** The merge of the development dependencies *)

Lemma addDevDep_lookup deps dev dep ver j :
  addDevDep deps dev (dep, ver) !! j
  = if bool_decide (j = dep) then
      (if truthy (dev !! dep) || truthyIn deps dep then dev !! dep else Some ver)
    else dev !! j.
Proof.
  unfold addDevDep.
  destruct (truthy (dev !! dep)), (truthyIn deps dep); simpl;
    case_bool_decide; subst; try done.
  - by rewrite lookup_insert_eq.
  - by rewrite lookup_insert_ne.
Qed.

Lemma mergeDevDeps_other d deps dev j :
  j ∉ d.*1 -> mergeDevDeps d deps dev !! j = dev !! j.
Proof.
  revert dev. induction d as [|[dep ver] d IH]; intros dev Hj; [done|].
  rewrite fmap_cons in Hj. apply not_elem_of_cons in Hj as [Hne Hj].
  change (mergeDevDeps ((dep, ver) :: d) deps dev)
    with (mergeDevDeps d deps (addDevDep deps dev (dep, ver))).
  rewrite IH by done. rewrite addDevDep_lookup. by rewrite bool_decide_false.
Qed.

Lemma mergeDevDeps_at d deps dev dep ver :
  NoDup d.*1 -> (dep, ver) ∈ d ->
  mergeDevDeps d deps dev !! dep
  = if truthy (dev !! dep) || truthyIn deps dep then dev !! dep else Some ver.
Proof.
  revert dev. induction d as [|[dep0 ver0] d IH]; intros dev Hnd Hin.
  { by apply elem_of_nil in Hin. }
  rewrite fmap_cons in Hnd. apply NoDup_cons in Hnd as [Hfresh Hnd].
  change (mergeDevDeps ((dep0, ver0) :: d) deps dev)
    with (mergeDevDeps d deps (addDevDep deps dev (dep0, ver0))).
  apply elem_of_cons in Hin as [Heq|Hin].
  - injection Heq as -> ->. rewrite mergeDevDeps_other by done.
    rewrite addDevDep_lookup. by rewrite bool_decide_true.
  - assert (Hne : dep <> dep0).
    { intros ->. apply Hfresh, list_elem_of_fmap. by exists (dep0, ver). }
    rewrite IH by done. rewrite addDevDep_lookup.
    by rewrite bool_decide_false.
Qed.

Lemma DESIRED_DEVDEPS_NoDup : NoDup DESIRED_DEVDEPS.*1.
Proof. apply (bool_decide_unpack (NoDup _)). vm_compute. reflexivity. Qed.

(** C8, as the code has it.  A desired dependency is inserted, in
    [devDependencies] only, exactly when neither map holds a non-empty
    version under its name; otherwise the entry of [devDependencies] is
    what it was.  [dependencies] is never written. *)
Theorem devDependency_keep_existing (pkg : package) (name ver : string) :
  In (name, ver) DESIRED_DEVDEPS ->
  pkg_dependencies (patchPkg pkg) = pkg_dependencies pkg /\
  devDepsOf (patchPkg pkg) !! name
  = (if truthy (devDepsOf pkg !! name) || truthyIn (pkg_dependencies pkg) name
     then devDepsOf pkg !! name
     else Some ver).
Proof.
  intros Hin. apply list_elem_of_In in Hin. split; [done|].
  change (devDepsOf (patchPkg pkg))
    with (mergeDevDeps DESIRED_DEVDEPS (pkg_dependencies pkg) (devDepsOf pkg)).
  apply mergeDevDeps_at; [apply DESIRED_DEVDEPS_NoDup | done].
Qed.

Lemma devDependency_keep_existing_witness :
  let pkg := withDevDeps [("vite", "^4.0.0")] in
  pkg_dependencies (patchPkg pkg) = pkg_dependencies pkg /\
  devDepsOf (patchPkg pkg) !! "vite"
  = (if truthy (devDepsOf pkg !! "vite") || truthyIn (pkg_dependencies pkg) "vite"
     then devDepsOf pkg !! "vite"
     else Some "^5.4.2").
Proof.
  apply (devDependency_keep_existing (withDevDeps [("vite", "^4.0.0")])
           "vite" "^5.4.2").
  simpl. tauto.
Defined.

(** C8 as stated fails for an existing declaration with the empty version:
    the name is present, and its version is overwritten by the desired
    one. *)
Lemma empty_version_is_overwritten :
  let pkg := withDevDeps [("vite", "")] in
  In ("vite", "^5.4.2") DESIRED_DEVDEPS /\
  devDepsOf pkg !! "vite" = Some "" /\
  devDepsOf (patchPkg pkg) !! "vite" = Some "^5.4.2" /\
  devDepsOf (patchPkg pkg) !! "vite" <> devDepsOf pkg !! "vite".
Proof.
  split; [simpl; tauto|]. split; [vm_compute; reflexivity|].
  split; [vm_compute; reflexivity|]. vm_compute. discriminate.
Qed.

(** ** The anchor pattern *)

Lemma matchHere_lit w r s :
  matchHere (lit w ++ r) s
  = match stripCi w s with Some s' => matchHere r s' | None => None end.
Proof.
  revert s. induction w as [|c w IH]; intros s; [done|].
  simpl. destruct s as [|x s]; [done|]. destruct (ciEq c x); [apply IH | done].
Qed.

Lemma matchHere_Star cls r s :
  matchHere (Star cls :: r) s = starK cls (matchHere r) s.
Proof. reflexivity. Qed.

Lemma stripCi_cons c w x s :
  stripCi (String c w) (String x s) = if ciEq c x then stripCi w s else None.
Proof. reflexivity. Qed.

Lemma stripCi_app w u u1 t :
  stripCi w u = Some u1 -> stripCi w (u +:+ t) = Some (u1 +:+ t).
Proof.
  revert u. induction w as [|c w IH]; intros u; simpl.
  - by intros [= ->].
  - destruct u as [|x u]; [done|]. rewrite app_cons_s.
    destruct (ciEq c x); [apply IH | done].
Qed.

(** A text [w] without [<] that matches at the start of [u +:+ "<"...]
    matches inside [u]. *)
Lemma stripCi_within w u t s' :
  allCls (fun c => negb (ciEq c lt)) w = true ->
  stripCi w (u +:+ String lt t) = Some s' ->
  exists u1, stripCi w u = Some u1 /\ s' = u1 +:+ String lt t.
Proof.
  revert u. induction w as [|c w IH]; intros u Hw; simpl.
  - intros [= <-]. by exists u.
  - simpl in Hw. apply andb_prop in Hw as [Hc Hw].
    destruct u as [|x u].
    + rewrite app_nil_s. apply negb_true_iff in Hc. by rewrite Hc.
    + rewrite app_cons_s. destruct (ciEq c x); [by apply IH | done].
Qed.

Lemma allCls_app cls a b :
  allCls cls (a +:+ b) = allCls cls a && allCls cls b.
Proof.
  induction a as [|c a IH]; [done|].
  rewrite app_cons_s. simpl. by rewrite IH, andb_assoc.
Qed.

(** What [stripCi] removes has no [>] when [w] has none. *)
Lemma stripCi_notGt w s s' :
  allCls (fun c => negb (ciEq c gt)) w = true ->
  stripCi w s = Some s' ->
  exists s1, s = s1 +:+ s' /\ allCls notGt s1 = true.
Proof.
  revert s. induction w as [|c w IH]; intros s Hw; simpl.
  - intros [= <-]. by exists "".
  - simpl in Hw. apply andb_prop in Hw as [Hc Hw].
    destruct s as [|x s]; [done|].
    destruct (ciEq c x) eqn:Hx; [|done]. intros Hs.
    destruct (IH s Hw Hs) as (s1 & -> & Hs1).
    exists (String x s1). split; [done|]. simpl. rewrite Hs1, andb_true_r.
    unfold notGt. apply negb_true_iff. apply Ascii.eqb_neq. intros ->.
    apply negb_true_iff in Hc. fold gt in Hx. congruence.
Qed.

(** A greedy run can only grow: a run that matches still matches after
    more characters of the class are put before it. *)
Lemma starK_prepend cls k x s :
  allCls cls x = true -> is_Some (starK cls k s) ->
  is_Some (starK cls k (x +:+ s)).
Proof.
  induction x as [|c x IH]; intros Hx Hs; [done|].
  simpl in Hx. apply andb_prop in Hx as [Hc Hx].
  rewrite app_cons_s. simpl. rewrite Hc.
  destruct (IH Hx Hs) as [r ->]. by exists r.
Qed.

Lemma starK_mono cls (k k' : string -> option string) s :
  (forall s, is_Some (k s) -> is_Some (k' s)) ->
  is_Some (starK cls k s) -> is_Some (starK cls k' s).
Proof.
  intros Hk. induction s as [|c s IH]; simpl; [apply Hk|].
  destruct (cls c); [|apply Hk].
  destruct (starK cls k s) as [r|].
  - intros _. destruct IH as [r' ->]; [by exists r|]. by exists r'.
  - intros Hs. destruct (starK cls k' s) as [r'|]; [by exists r' | by apply Hk].
Qed.

(** If a pattern matches, so does every beginning of it. *)
Lemma matchHere_prefix r1 r2 s :
  is_Some (matchHere (r1 ++ r2) s) -> is_Some (matchHere r1 s).
Proof.
  revert s. induction r1 as [|a r1 IH]; intros s; [by exists s|].
  destruct a as [c|cls|cls|cls]; simpl.
  - destruct s as [|x s]; [done|]. destruct (ciEq c x); [apply IH | done].
  - destruct s as [|x s]; [done|]. destruct (cls x); [apply IH | done].
  - apply starK_mono, IH.
  - destruct s as [|x s]; [done|]. destruct (cls x); [|done].
    apply starK_mono, IH.
Qed.

(** A run of a class that rejects [>] never reads past a [>]. *)
Lemma starK_confined cls (k : string -> option string) :
  cls gt = false ->
  (forall x, exists o : option string,
     forall y, k (x +:+ String gt y) = (fun x2 => x2 +:+ String gt y) <$> o) ->
  forall x, exists o : option string,
    forall y, starK cls k (x +:+ String gt y)
              = (fun x2 => x2 +:+ String gt y) <$> o.
Proof.
  intros Ha IH x. induction x as [|a x IHx].
  - destruct (IH "") as [o Ho]. exists o. intros y.
    rewrite app_nil_s. simpl. rewrite Ha. apply (Ho y).
  - destruct IHx as [o1 Ho1]. destruct (IH (String a x)) as [o2 Ho2].
    destruct (cls a) eqn:Hc.
    + exists (match o1 with Some r1 => Some r1 | None => o2 end).
      intros y. rewrite app_cons_s. simpl. rewrite Hc, Ho1.
      destruct o1; simpl; [done|]. rewrite <- app_cons_s. apply Ho2.
    + exists o2. intros y. rewrite app_cons_s. simpl. rewrite Hc.
      rewrite <- app_cons_s. apply Ho2.
Qed.

(** A pattern whose atoms all reject [>] never reads past a [>]: what it
    does on [x +:+ ">" +:+ y] depends on [x] only. *)
Lemma matchHere_confined r :
  forallb (fun a => negb (accepts a gt)) r = true ->
  forall x, exists o : option string,
    forall y, matchHere r (x +:+ String gt y)
              = (fun x2 => x2 +:+ String gt y) <$> o.
Proof.
  induction r as [|a r IH]; intros Hr x.
  { exists (Some x). done. }
  simpl in Hr. apply andb_prop in Hr as [Ha Hr]. apply negb_true_iff in Ha.
  specialize (IH Hr).
  destruct a as [c|cls|cls|cls]; simpl in Ha.
  - destruct x as [|a x].
    + exists None. intros y. simpl. by rewrite Ha.
    + destruct (ciEq c a) eqn:Hc.
      * destruct (IH x) as [o Ho]. exists o. intros y.
        rewrite app_cons_s. simpl. rewrite Hc. apply Ho.
      * exists None. intros y. rewrite app_cons_s. simpl. by rewrite Hc.
  - destruct x as [|a x].
    + exists None. intros y. simpl. by rewrite Ha.
    + destruct (cls a) eqn:Hc.
      * destruct (IH x) as [o Ho]. exists o. intros y.
        rewrite app_cons_s. simpl. rewrite Hc. apply Ho.
      * exists None. intros y. rewrite app_cons_s. simpl. by rewrite Hc.
  - apply (starK_confined cls (matchHere r) Ha IH).
  - destruct x as [|a x].
    + exists None. intros y. simpl. by rewrite Ha.
    + destruct (cls a) eqn:Hc.
      * destruct (starK_confined cls (matchHere r) Ha IH x) as [o Ho].
        exists o. intros y. rewrite app_cons_s. simpl. rewrite Hc. apply Ho.
      * exists None. intros y. rewrite app_cons_s. simpl. by rewrite Hc.
Qed.

Lemma has_gt u :
  allCls notGt u = false -> exists x z, u = x +:+ String gt z.
Proof.
  induction u as [|c u IH]; simpl; [done|].
  destruct (notGt c) eqn:Hc; simpl.
  - intros Hu. destruct (IH Hu) as (x & z & ->). by exists (String c x), z.
  - intros _. unfold notGt in Hc. apply negb_false_iff, Ascii.eqb_eq in Hc.
    subst c. by exists "", u.
Qed.

(** What [search] finds, and what it has ruled out before it. *)
Lemma search_inv r s pre rest :
  search r s = Some (pre, rest) ->
  exists t, s = pre +:+ t /\ matchHere r t = Some rest /\
    forall a u, pre = a +:+ u -> u <> "" -> matchHere r (u +:+ t) = None.
Proof.
  revert pre. induction s as [|c s IH]; intros pre; simpl.
  - destruct (matchHere r "") as [x|] eqn:Hm; [|done].
    intros [= <- <-]. exists "". split; [done|]. split; [done|].
    intros a u Ha Hu. by destruct a, u.
  - destruct (matchHere r (String c s)) as [x|] eqn:Hm.
    + intros [= <- <-]. exists (String c s). split; [done|]. split; [done|].
      intros a u Ha Hu. by destruct a, u.
    + destruct (search r s) as [[pre' rest']|] eqn:Hs; [|done].
      intros [= <- <-]. destruct (IH pre' eq_refl) as (t & -> & Ht & Hno).
      exists t. split; [done|]. split; [done|].
      intros a u Ha Hu. destruct a as [|b a].
      * rewrite app_nil_s in Ha. subst u. by rewrite app_cons_s.
      * rewrite app_cons_s in Ha. injection Ha as -> ->. by apply (Hno a).
Qed.

Lemma search_None r s :
  search r s = None -> forall a u, s = a +:+ u -> matchHere r u = None.
Proof.
  induction s as [|c s IH]; simpl.
  - destruct (matchHere r "") eqn:Hm; [done|].
    intros _ a u Ha. destruct a, u; try done.
  - destruct (matchHere r (String c s)) eqn:Hm; [done|].
    destruct (search r s) as [[pre' rest']|] eqn:Hs; [done|].
    intros _ a u Ha. destruct a as [|b a].
    + rewrite app_nil_s in Ha. by subst u.
    + rewrite app_cons_s in Ha. injection Ha as -> ->. by apply (IH eq_refl a).
Qed.

Lemma search_intro r pre t rest :
  matchHere r t = Some rest ->
  (forall a u, pre = a +:+ u -> u <> "" -> matchHere r (u +:+ t) = None) ->
  search r (pre +:+ t) = Some (pre, rest).
Proof.
  intros Ht. induction pre as [|c pre IH]; intros Hno.
  - rewrite app_nil_s. destruct t; simpl; by rewrite Ht.
  - rewrite app_cons_s. simpl. rewrite <- app_cons_s.
    rewrite (Hno "" (String c pre)) by done.
    rewrite IH; [done|]. intros a u -> Hu. by apply (Hno (String c a)).
Qed.

Lemma moduleTagRegex_star :
  moduleTagRegex = (lit "<script" ++ Star notGt :: drop 8 moduleTagRegex)%list.
Proof. reflexivity. Qed.

(** No match can start before the anchor once the anchor is replaced by a
    text that starts with [<]: an earlier start would either have matched
    in the original document, or it opens a module script tag by itself. *)
Lemma no_earlier_match u t0 t' :
  u <> "" ->
  is_Some (matchHere moduleTagRegex t0) ->
  matchHere moduleTagRegex (u +:+ t0) = None ->
  matchHere moduleTagHead u = None ->
  matchHere moduleTagRegex (u +:+ String lt t') = None.
Proof.
  intros Hu [post Ht0] Hno0 Hhead.
  destruct (matchHere moduleTagRegex (u +:+ String lt t')) as [r|] eqn:Hm; [|done].
  exfalso. destruct (allCls notGt u) eqn:Hgt.
  - (* no [>] in [u]: the run after <script reaches the anchor *)
    rewrite moduleTagRegex_star in Hm, Hno0, Ht0.
    rewrite matchHere_lit in Hm, Hno0, Ht0.
    destruct u as [|a u]; [done|]. rewrite app_cons_s in Hm.
    rewrite stripCi_cons in Hm. destruct (ciEq "<" a) eqn:Ha; [|done].
    destruct (stripCi "script" (u +:+ String lt t')) as [s'|] eqn:Hs; [|done].
    apply stripCi_within in Hs as (u1 & Hu1 & ->); [|reflexivity].
    assert (Hstrip : stripCi "<script" (String a u) = Some u1).
    { rewrite stripCi_cons. by rewrite Ha. }
    rewrite (stripCi_app _ _ _ t0 Hstrip) in Hno0.
    destruct (stripCi "<script" t0) as [t0'|] eqn:Hs0; [|done].
    apply stripCi_notGt in Hs0 as (s1 & -> & Hs1); [|reflexivity].
    apply stripCi_notGt in Hstrip as (s2 & Hs2 & _); [|reflexivity].
    rewrite Hs2, allCls_app in Hgt. apply andb_prop in Hgt as [_ Hu1gt].
    rewrite <- app_assoc_s in Hno0.
    destruct (starK_prepend notGt (matchHere (drop 8 moduleTagRegex))
                (u1 +:+ s1) t0') as [x Hx].
    + by rewrite allCls_app, Hu1gt, Hs1.
    + rewrite matchHere_Star in Ht0. by rewrite Ht0.
    + rewrite matchHere_Star in Hno0. congruence.
  - (* a [>] in [u]: the opening part of the pattern matched inside [u] *)
    destruct (has_gt u Hgt) as (x & z & ->).
    assert (Hsome : is_Some (matchHere moduleTagHead
                               ((x +:+ String gt z) +:+ String lt t'))).
    { apply (matchHere_prefix _ moduleTagTail). fold moduleTagRegex.
      by rewrite Hm. }
    rewrite app_assoc_s, app_cons_s in Hsome.
    destruct (matchHere_confined moduleTagHead eq_refl x) as [o Ho].
    rewrite Ho in Hsome. rewrite Ho in Hhead.
    destruct o; [done|]. by destruct Hsome.
Qed.

Lemma relScript_matches entry post :
  In entry ENTRY_CANDIDATES ->
  matchHere moduleTagRegex (relScript entry +:+ post) = Some post.
Proof.
  intros Hin. simpl in Hin.
  repeat (destruct Hin as [<-|Hin]; [vm_compute; reflexivity|]). done.
Qed.

Lemma relScript_starts_lt entry post :
  exists t', relScript entry +:+ post = String lt t'.
Proof. eexists. reflexivity. Qed.

(** After the anchor is replaced by the new tag, the first match of the
    pattern is that new tag. *)
Lemma search_after_patch (entry html pre post : string) :
  In entry ENTRY_CANDIDATES ->
  search moduleTagRegex html = Some (pre, post) ->
  search moduleTagHead pre = None ->
  search moduleTagRegex (pre +:+ relScript entry +:+ post) = Some (pre, post).
Proof.
  intros Hin Hs Hhead.
  destruct (search_inv _ _ _ _ Hs) as (t0 & -> & Ht0 & Hno).
  apply search_intro; [by apply relScript_matches|].
  intros a u Ha Hu. destruct (relScript_starts_lt entry post) as [t' ->].
  apply (no_earlier_match u t0 t' Hu); [by rewrite Ht0 | by apply (Hno a) |].
  by apply (search_None _ _ Hhead a).
Qed.

Lemma patchHtml_match (entry html pre post : string) :
  search moduleTagRegex html = Some (pre, post) ->
  patchHtml entry html = pre +:+ relScript entry +:+ post.
Proof. intros Hs. unfold patchHtml, test, replaceRegex. by rewrite Hs. Qed.




(** The condition on what precedes the match is needed: after an opening
    that is never closed, the first match of the patched document starts
    at that opening, and a second patch changes the text. *)
Lemma patchHtml_after_stray_opening :
  (exists pre, search moduleTagRegex strayOpening = Some (pre, "") /\
               search moduleTagHead pre <> None) /\
  patchHtml "main.tsx" (patchHtml "main.tsx" strayOpening)
  <> patchHtml "main.tsx" strayOpening.
Proof.
  split.
  - eexists. split; [vm_compute; reflexivity|]. vm_compute. discriminate.
  - vm_compute. discriminate.
Qed.

(** ** What a step leaves alone *)

Section Frame.

Variable E : env.
Variable k : string.

Lemma avoids_cons k' p : avoids k (k' :: p) = true -> k' <> k.
Proof. simpl. intros H. apply negb_true_iff in H. by apply String.eqb_neq. Qed.

Lemma putPath_absent p x n n' :
  avoids k p = true -> putPath p x n = Some n' -> absent k n -> absent k n'.
Proof.
  destruct p as [|k' p]; [done|]. intros Hk%avoids_cons.
  destruct n as [?|m]; [by destruct p|]. unfold absent.
  destruct p as [|k2 p].
  - simpl. intros [= <-]. simpl. by rewrite lookup_insert_ne.
  - change (putPath (k' :: k2 :: p) x (Dir m))
      with (match m !! k' with
            | Some c => match putPath (k2 :: p) x c with
                        | Some c' => Some (Dir (<[k':=c']> m))
                        | None => None
                        end
            | None => None
            end).
    destruct (m !! k') as [c|]; [|done].
    destruct (putPath (k2 :: p) x c); [|done].
    intros [= <-]. simpl. by rewrite lookup_insert_ne.
Qed.

Lemma delPath_absent p n n' :
  avoids k p = true -> delPath p n = Some n' -> absent k n -> absent k n'.
Proof.
  destruct p as [|k' p]; [done|]. intros Hk%avoids_cons.
  destruct n as [?|m]; [by destruct p|]. unfold absent.
  destruct p as [|k2 p].
  - simpl. intros [= <-]. simpl. by rewrite lookup_delete_ne.
  - change (delPath (k' :: k2 :: p) (Dir m))
      with (match m !! k' with
            | Some c => match delPath (k2 :: p) c with
                        | Some c' => Some (Dir (<[k':=c']> m))
                        | None => None
                        end
            | None => None
            end).
    destruct (m !! k') as [c|]; [|done].
    destruct (delPath (k2 :: p) c); [|done].
    intros [= <-]. simpl. by rewrite lookup_insert_ne.
Qed.

Lemma mkdirp_absent p n n' :
  avoids k p = true -> mkdirp p n = Some n' -> absent k n -> absent k n'.
Proof.
  destruct p as [|k' p].
  - intros _. destruct n; simpl; [done|]. by intros [= <-].
  - intros Hk%avoids_cons. destruct n as [?|m]; [done|]. simpl.
    destruct (mkdirp p _); [|done]. intros [= <-]. unfold absent. simpl.
    by rewrite lookup_insert_ne.
Qed.

Notation Q := (absent k).

Lemma keeps_ret {A} (a : A) : keeps Q (ret a).
Proof. by intros w Hw. Qed.

Lemma keeps_bind {A B} (m : M A) (f : A -> M B) :
  keeps Q m -> (forall a, keeps Q (f a)) -> keeps Q (bind m f).
Proof.
  intros Hm Hf w Hw. unfold bind. specialize (Hm w Hw).
  destruct (m w) as [a w'|c w'|w'|w']; [|done|done|done]. by apply Hf.
Qed.

Lemma keeps_tryCatch {A} (m h : M A) :
  keeps Q m -> keeps Q h -> keeps Q (tryCatch m h).
Proof.
  intros Hm Hh w Hw. unfold tryCatch. specialize (Hm w Hw).
  destruct (m w) as [a w'|c w'|w'|w']; [done|done| |done]. by apply Hh.
Qed.

Lemma keeps_say {A} (a : A) e : keeps Q (fun w => Ret a (say e w)).
Proof. by intros w Hw. Qed.

Lemma keeps_log msg : keeps Q (log msg).
Proof. apply keeps_say. Qed.

Lemma keeps_ok msg : keeps Q (ok msg).
Proof. apply keeps_say. Qed.

Lemma keeps_warn msg : keeps Q (warn msg).
Proof. apply keeps_say. Qed.

Lemma keeps_fail {A} msg : keeps Q (@fail A msg).
Proof. by intros w Hw. Qed.

Lemma keeps_throw {A} : keeps Q (@throw A).
Proof. by intros w Hw. Qed.

Lemma keeps_forEach {A} (l : list A) (body : A -> M unit) :
  (forall x, keeps Q (body x)) -> keeps Q (forEach l body).
Proof.
  intros Hb. induction l as [|x l IH]; simpl; [apply keeps_ret|].
  apply keeps_bind; [apply Hb | by intros _].
Qed.

Lemma keeps_onTree (f : node -> option node) :
  (forall n n', f n = Some n' -> Q n -> Q n') -> keeps Q (fs.onTree f).
Proof.
  intros Hf w Hw. unfold fs.onTree.
  destruct (f (files w)) as [n|] eqn:Hn; [|done]. by apply (Hf _ _ Hn).
Qed.

Lemma keeps_exists p : keeps Q (exists_ p).
Proof. intros w Hw. rewrite exists_spec. done. Qed.

Lemma keeps_mkdir p : avoids k p = true -> keeps Q (fs.mkdir p).
Proof. intros Hp. apply keeps_onTree. intros n n'. by apply mkdirp_absent. Qed.

Lemma keeps_ensureDir p : avoids k p = true -> keeps Q (ensureDir p).
Proof.
  intros Hp. apply keeps_bind; [apply keeps_exists|].
  intros []; [apply keeps_ret | by apply keeps_mkdir].
Qed.

Lemma keeps_readFile p : keeps Q (fs.readFile p).
Proof.
  intros w Hw. unfold fs.readFile.
  by destruct (lookupPath p (files w)) as [[?|?]|].
Qed.

Lemma keeps_readdir p : keeps Q (fs.readdir p).
Proof.
  intros w Hw. unfold fs.readdir.
  by destruct (lookupPath p (files w)) as [[?|?]|].
Qed.

Lemma keeps_writeFile p c : avoids k p = true -> keeps Q (fs.writeFile p c).
Proof.
  intros Hp w Hw. unfold fs.writeFile.
  assert (Hput : keeps Q (fs.onTree (putPath p (File c)))).
  { apply keeps_onTree. intros n n'. by apply putPath_absent. }
  destruct (lookupPath p (files w)) as [[?|?]|]; [by apply Hput|done|by apply Hput].
Qed.

Lemma keeps_copyFile p q : avoids k q = true -> keeps Q (fs.copyFile E p q).
Proof.
  intros Hq w Hw. unfold fs.copyFile.
  destruct (copyFileThrows E p); [done|].
  destruct (lookupPath p (files w)) as [[c|?]|]; [|done|done].
  by apply keeps_writeFile.
Qed.

Lemma keeps_rename from to :
  avoids k from = true -> avoids k to = true -> keeps Q (fs.rename E from to).
Proof.
  intros Hf Ht w Hw. unfold fs.rename.
  destruct (renameThrows E from); [done|].
  destruct (lookupPath from (files w)) as [x|]; [|done].
  revert w Hw. apply keeps_onTree. intros n n'.
  destruct (delPath from n) as [n1|] eqn:Hd; [|done].
  intros Hp Hn. apply (putPath_absent _ _ _ _ Ht Hp).
  by apply (delPath_absent _ _ _ Hf Hd).
Qed.

Lemma keeps_cp from to : avoids k to = true -> keeps Q (fs.cp E from to).
Proof.
  intros Ht w Hw. unfold fs.cp.
  destruct (cpThrows E from); [done|].
  destruct (lookupPath from (files w)) as [x|]; [|done].
  revert w Hw. apply keeps_onTree. intros n n'. by apply putPath_absent.
Qed.

Lemma keeps_rm p : avoids k p = true -> keeps Q (fs.rm E p).
Proof.
  intros Hp w Hw. unfold fs.rm. destruct (rmThrows E p); [done|].
  destruct (delPath p (files w)) as [n|] eqn:Hd; [|done].
  by apply (delPath_absent _ _ _ Hp Hd).
Qed.

Lemma keeps_safeWrite p content force :
  avoids k p = true -> avoids k (bakPath p) = true ->
  avoids k (dirname p) = true ->
  keeps Q (safeWrite E p content force).
Proof.
  intros Hp Hb Hd. unfold safeWrite.
  assert (Hwrite : keeps Q
    (ensureDir (dirname p) ;; fs.writeFile p content ;;
     log ("Wrote: " +:+ showPath p) ;; ret true)).
  { apply keeps_bind; [by apply keeps_ensureDir|intros _].
    apply keeps_bind; [by apply keeps_writeFile|intros _].
    apply keeps_bind; [apply keeps_log|intros _]. apply keeps_ret. }
  apply keeps_bind; [apply keeps_exists|]. intros [|]; [|done].
  destruct force; [done|]. cbn [negb].
  apply keeps_bind; [apply keeps_readFile|]. intros old.
  case_bool_decide.
  - apply keeps_bind; [apply keeps_log|intros _]. apply keeps_ret.
  - apply keeps_bind.
    + apply keeps_tryCatch; [by apply keeps_copyFile | apply keeps_ret].
    + intros _. apply keeps_bind; [apply keeps_warn|by intros _].
Qed.

End Frame.

(** ** The run and its fatal conditions *)

Section Run.

Variable E : env.

Notation noManifestIn := (absent "package.json").

Local Ltac step :=
  first
    [ apply keeps_ret | apply keeps_log | apply keeps_ok | apply keeps_warn
    | apply keeps_fail | apply keeps_throw | apply keeps_exists
    | apply keeps_readFile | apply keeps_readdir
    | apply keeps_ensureDir; reflexivity
    | apply keeps_safeWrite; reflexivity
    | apply keeps_bind; [|intros ?] ].

Lemma keeps_moveSrcToUi : keeps noManifestIn (moveSrcToUi E).
Proof.
  unfold moveSrcToUi.
  step; [step|]. step; [destruct a; cbn [negb]; step|].
  step; [step|]. destruct a1; [step|].
  step; [step|]. destruct (negb _); [step|].
  step; [step|]. step; [|step].
  apply keeps_forEach. intros name. destruct (String.eqb name "electron"); [step|].
  step; [|step]. apply keeps_tryCatch.
  - apply keeps_rename; reflexivity.
  - step; [apply keeps_cp; reflexivity | apply keeps_rm; reflexivity].
Qed.

Lemma keeps_detectEntryIn cs : keeps noManifestIn (detectEntryIn cs).
Proof.
  induction cs as [|c cs IH]; simpl; [step|].
  step; [step|]. by destruct a; [step|].
Qed.

Lemma keeps_patchIndexHtml entry : keeps noManifestIn (patchIndexHtml E entry).
Proof.
  unfold patchIndexHtml. step; [step|]. destruct a; cbn [negb].
  - step; [step|]. step.
    + destruct (test _ _); [step|]. destruct (negb _); step.
    + step; [step|]. step.
  - step; [step|]. step.
Qed.

Lemma keeps_beforeManifest : keeps noManifestIn (beforeManifest E).
Proof.
  unfold beforeManifest.
  step; [step|]. step; [step|].
  step; [destruct a0; [apply keeps_moveSrcToUi | step]|].
  step; [step|]. step; [step|]. step; [step|].
  step; [apply keeps_detectEntryIn|].
  step; [apply keeps_patchIndexHtml|].
  step; [step|]. step; [step|]. step; [step|]. step; [step|]. step.
Qed.

Lemma patchPackageJson_missing w :
  lookupPath PACKAGE_JSON (files w) = None ->
  patchPackageJson E w = Exit 1 (say (Error "package.json not found.") w).
Proof.
  intros H. unfold patchPackageJson.
  erewrite bind_Ret; [|by apply exists_false]. cbn [negb].
  by erewrite bind_Exit.
Qed.

Lemma moveSrcToUi_missing w :
  lookupPath SRC (files w) = None ->
  moveSrcToUi E w
  = Exit 1 (say (Error "No src/ directory found. Run this in the React project root.") w).
Proof.
  intros H. unfold moveSrcToUi.
  erewrite bind_Ret; [|by apply exists_false]. cbn [negb].
  by erewrite bind_Exit.
Qed.

End Run.

(** C3, as the code has it.  Without [package.json] the manifest stage
    ends the process with status 1, and so does the whole run: it ends
    with status 1 in the world the earlier stages have left, with the
    diagnostic added, and no later stage runs.  Without [src],
    [moveSrcToUi] ends the process with status 1 when it is called. *)
Theorem missing_manifest_aborts (E : env) (w : world) :
  (lookupPath PACKAGE_JSON (files w) = None ->
   patchPackageJson E w = Exit 1 (say (Error "package.json not found.") w) /\
   exists w', main E w = Exit 1 w' /\
     forall w1, beforeManifest E w = Ret tt w1 ->
                w' = say (Error "package.json not found.") w1) /\
  (lookupPath SRC (files w) = None ->
   moveSrcToUi E w
   = Exit 1 (say (Error "No src/ directory found. Run this in the React project root.") w)).
Proof.
  split; [|apply moveSrcToUi_missing].
  intros H. split; [by apply patchPackageJson_missing|].
  pose proof (keeps_beforeManifest E w H) as Hk.
  unfold main, tryCatch, bind.
  destruct (beforeManifest E w) as [[] w1|c w1|w1|w1].
  - rewrite (patchPackageJson_missing E w1 Hk).
    eexists. split; [reflexivity|]. by intros ? [= <-].
  - destruct Hk as [-> _]. eexists. split; [reflexivity|]. by intros ? [=].
  - eexists. split; [reflexivity|]. by intros ? [=].
  - done.
Qed.

Lemma missing_manifest_aborts_witness :
  (patchPackageJson quietEnv noManifest
   = Exit 1 (say (Error "package.json not found.") noManifest) /\
   exists w', main quietEnv noManifest = Exit 1 w' /\
     forall w1, beforeManifest quietEnv noManifest = Ret tt w1 ->
                w' = say (Error "package.json not found.") w1) /\
  moveSrcToUi quietEnv noSrc
  = Exit 1 (say (Error "No src/ directory found. Run this in the React project root.") noSrc).
Proof.
  split.
  - apply (missing_manifest_aborts quietEnv noManifest). vm_compute. reflexivity.
  - apply (missing_manifest_aborts quietEnv noSrc). vm_compute. reflexivity.
Defined.

(** C3 as stated fails for the missing source directory: the main
    function tests for it, warns, skips the relocation and runs every
    later stage to the end. *)
Lemma missing_src_does_not_abort :
  lookupPath SRC (files noSrc) = None /\
  (forall c w', main quietEnv noSrc <> Exit c w') /\
  exists w',
    main quietEnv noSrc = Ret tt w' /\
    console w' !! 1 = Some (Warn "No src/ directory found — skipping move.") /\
    lookupPath ["public"; "icon.png"] (files w') = Some (File "png") /\
    last (console w') = Some (Log "Next steps: ...").
Proof.
  split; [vm_compute; reflexivity|]. split.
  - intros c w'. vm_compute. discriminate.
  - eexists. repeat split; vm_compute; reflexivity.
Qed.

(** ** The anchor patch on disk *)

(** On an existing [index.html] the step writes the patched text in place;
    when the patch changes nothing the tree is what it was. *)
Lemma patchIndexHtml_existing (E : env) (entry html : string) (w : world) :
  lookupPath INDEX_HTML (files w) = Some (File html) ->
  exists w',
    patchIndexHtml E entry w = Ret tt w' /\
    lookupPath INDEX_HTML (files w') = Some (File (patchHtml entry html)) /\
    (patchHtml entry html = html -> files w' = files w).
Proof.
  intros H. unfold patchIndexHtml.
  erewrite bind_Ret; [|by apply (exists_true INDEX_HTML w (File html))].
  cbn [negb]. erewrite bind_Ret; [|unfold fs.readFile; by rewrite H].
  set (note := if test moduleTagRegex html then ret tt
               else if negb (includes (relScript entry) html) then ret tt
               else log "index.html already points to the detected entry -> skipping patch.").
  assert (Hnote : exists w0, note w = Ret tt w0 /\ files w0 = files w).
  { unfold note. destruct (test _ _); [by exists w|].
    destruct (negb _); [by exists w|]. eexists. split; [reflexivity|done]. }
  destruct Hnote as (w0 & Hw0 & Hf0).
  erewrite bind_Ret; [|exact Hw0].
  destruct (safeWrite_force_overwrites E INDEX_HTML (patchHtml entry html) html w0)
    as (n' & _ & Hget & Hid & Hrun); [done | by rewrite Hf0 |].
  erewrite bind_Ret; [|exact Hrun].
  eexists. split; [reflexivity|]. cbn [files say setFiles]. split; [done|].
  intros Heq. rewrite <- Hf0. by apply Hid.
Qed.

(** The anchor patch is idempotent on disk: a second run of the step on a
    document with one module script tag leaves the tree of the first. *)
Lemma patchIndexHtml_twice (E : env) (entry html pre post : string) w w1 w2 :
  In entry ENTRY_CANDIDATES ->
  search moduleTagRegex html = Some (pre, post) ->
  search moduleTagHead pre = None ->
  search moduleTagRegex post = None ->
  lookupPath INDEX_HTML (files w) = Some (File html) ->
  patchIndexHtml E entry w = Ret tt w1 ->
  patchIndexHtml E entry w1 = Ret tt w2 ->
  files w2 = files w1.
Proof.
  intros Hin Hs Hhead Hpost H H1 H2.
  pose proof (search_after_patch entry html pre post Hin Hs Hhead) as Hs'.
  rewrite <- (patchHtml_match entry html pre post Hs) in Hs'.
  destruct (patchIndexHtml_existing E entry html w H) as (w1' & H1' & Hg1 & _).
  rewrite H1 in H1'. injection H1' as <-.
  destruct (patchIndexHtml_existing E entry _ w1 Hg1) as (w2' & H2' & _ & Hsame).
  rewrite H2 in H2'. injection H2' as <-. apply Hsame.
  rewrite (patchHtml_match entry _ pre post Hs').
  symmetry. by apply patchHtml_match.
Qed.


(** * Further properties of the script *)

(** ** Paths of the tree *)

Lemma putPath_cons2 k k2 p x (m : gmap string node) :
  putPath (k :: k2 :: p) x (Dir m)
  = match m !! k with
    | Some c => match putPath (k2 :: p) x c with
                | Some c' => Some (Dir (<[k:=c']> m))
                | None => None
                end
    | None => None
    end.
Proof. reflexivity. Qed.

Lemma lookupPath_cons k p (m : gmap string node) :
  lookupPath (k :: p) (Dir m)
  = match m !! k with Some c => lookupPath p c | None => None end.
Proof. reflexivity. Qed.

Lemma putPath_lookup p x n n' :
  putPath p x n = Some n' -> lookupPath p n' = Some x.
Proof.
  revert n n'. induction p as [|k p IH]; intros n n'; [done|].
  destruct n as [?|m]; [by destruct p|]. destruct p as [|k2 p].
  - simpl. intros [= <-]. simpl. by rewrite lookup_insert_eq.
  - rewrite putPath_cons2. destruct (m !! k) as [c|]; [|done].
    destruct (putPath (k2 :: p) x c) as [c'|] eqn:Hc; [|done].
    intros [= <-]. rewrite lookupPath_cons, lookup_insert_eq. by apply (IH c).
Qed.

(** A write at [p] is not seen at a path that parts ways with [p]. *)
Lemma putPath_diverge p q x n n' :
  diverge p q = true -> putPath p x n = Some n' ->
  lookupPath q n' = lookupPath q n.
Proof.
  revert q n n'. induction p as [|k p IH]; intros q n n'; [done|].
  destruct q as [|b q]; [done|]. simpl diverge.
  destruct n as [?|m]; [by destruct p|].
  destruct (String.eqb k b) eqn:Hkb.
  - apply String.eqb_eq in Hkb. subst b. intros Hd.
    destruct p as [|k2 p]; [done|]. rewrite putPath_cons2.
    destruct (m !! k) as [c|] eqn:Hk; [|done].
    destruct (putPath (k2 :: p) x c) as [c'|] eqn:Hc; [|done].
    intros [= <-]. rewrite !lookupPath_cons, lookup_insert_eq, Hk.
    by apply (IH q c c').
  - apply String.eqb_neq in Hkb. intros _ Hput.
    assert (Hm : exists c', n' = Dir (<[k:=c']> m)).
    { destruct p as [|k2 p].
      - simpl in Hput. injection Hput as <-. by eexists.
      - rewrite putPath_cons2 in Hput. destruct (m !! k) as [c|]; [|done].
        destruct (putPath (k2 :: p) x c) as [c'|]; [|done].
        injection Hput as <-. by eexists. }
    destruct Hm as [c' ->]. rewrite !lookupPath_cons.
    by rewrite lookup_insert_ne.
Qed.

Lemma suffixed_neq (k suffix : string) : suffix <> "" -> k +:+ suffix <> k.
Proof.
  intros Hs H. apply (f_equal String.length) in H. rewrite length_app in H.
  destruct suffix; [done|]. simpl in H. lia.
Qed.

Lemma diverge_bakPath p :
  p <> [] -> diverge p (bakPath p) = true /\ diverge (bakPath p) p = true.
Proof.
  induction p as [|k p IH]; [done|]. intros _. destruct p as [|k2 p].
  - simpl. rewrite (proj2 (String.eqb_neq _ _)).
    + rewrite (proj2 (String.eqb_neq _ _)); [done|]. by apply suffixed_neq.
    + intros H. symmetry in H. revert H. by apply suffixed_neq.
  - change (bakPath (k :: k2 :: p)) with (k :: bakPath (k2 :: p)).
    simpl diverge. rewrite String.eqb_refl. by apply IH.
Qed.

(** The backup path of an existing entry can be written: it has the same
    parent. *)
Lemma putPath_sibling p x y n :
  p <> [] -> lookupPath p n = Some y -> is_Some (putPath (bakPath p) x n).
Proof.
  revert n. induction p as [|k p IH]; intros n Hp; [done|].
  destruct n as [?|m]; [done|]. destruct p as [|k2 p].
  - intros _. simpl. by eexists.
  - change (bakPath (k :: k2 :: p)) with (k :: bakPath (k2 :: p)).
    rewrite lookupPath_cons. destruct (m !! k) as [c|] eqn:Hk; [|done].
    intros Hy. destruct (IH c) as [c' Hc']; [done|done|].
    destruct (bakPath (k2 :: p)) as [|b bp] eqn:Hb; [done|].
    rewrite putPath_cons2, Hk, Hc'. by eexists.
Qed.

(** ** More on the guarded file writer *)

Lemma bind_inv_Ret {A B} (m : M A) (f : A -> M B) w b w' :
  bind m f w = Ret b w' -> exists a w1, m w = Ret a w1 /\ f a w1 = Ret b w'.
Proof.
  unfold bind. destruct (m w) as [a w1|c w1|w1|w1]; [|done|done|done].
  intros H. by exists a, w1.
Qed.

(** The last part of [safeWrite], on a file that is there. *)
Lemma write_existing p content old w n' :
  lookupPath p (files w) = Some (File old) ->
  putPath p (File content) (files w) = Some n' ->
  (ensureDir (dirname p) ;; fs.writeFile p content ;;
   log ("Wrote: " +:+ showPath p) ;; ret true) w
  = Ret true (say (Log ("Wrote: " +:+ showPath p)) (setFiles n' w)).
Proof.
  intros H Hput.
  destruct (lookupPath_dirname p (files w) _ H) as [d Hd].
  erewrite bind_Ret; last first.
  { unfold ensureDir. erewrite bind_Ret; [|by apply (exists_true _ w d)]. done. }
  erewrite bind_Ret; last first.
  { unfold fs.writeFile, fs.onTree. by rewrite H, Hput. }
  reflexivity.
Qed.

(** What [safeWrite] leaves when it returns: the file holds the content. *)
Lemma safeWrite_post (E : env) p content force w b w' :
  safeWrite E p content force w = Ret b w' ->
  lookupPath p (files w') = Some (File content) /\
  (b = false -> force = false /\ w' = say (Log ("Unchanged: " +:+ showPath p)) w).
Proof.
  assert (Hwrite : forall w0,
    (ensureDir (dirname p) ;; fs.writeFile p content ;;
     log ("Wrote: " +:+ showPath p) ;; ret true) w0 = Ret b w' ->
    lookupPath p (files w') = Some (File content) /\ b = true).
  { intros w0 H.
    apply bind_inv_Ret in H as ([] & w1 & _ & H).
    apply bind_inv_Ret in H as ([] & w2 & Hw & H).
    injection H as <- <-. split; [|done]. cbn [files say].
    unfold fs.writeFile, fs.onTree in Hw.
    destruct (lookupPath p (files w1)) as [[?|?]|];
      try done;
      destruct (putPath p (File content) (files w1)) as [n|] eqn:Hput; try done;
      injection Hw as <-; by apply (putPath_lookup p _ (files w1)). }
  unfold safeWrite. cbv zeta. intros H.
  apply bind_inv_Ret in H as (e & w1 & He & H).
  rewrite exists_spec in He. injection He as <- <-.
  case_bool_decide as Hex.
  - destruct force; cbn [negb] in H.
    + destruct (Hwrite _ H) as [? ->]. by split.
    + apply bind_inv_Ret in H as (old & w1 & Hr & H).
      unfold fs.readFile in Hr.
      destruct (lookupPath p (files w)) as [[c|?]|] eqn:Hp; try done.
      injection Hr as <- <-. case_bool_decide as Hc.
      * injection H as <- <-. subst c. by split.
      * apply bind_inv_Ret in H as ([] & w1 & _ & H).
        apply bind_inv_Ret in H as ([] & w2 & _ & H).
        destruct (Hwrite _ H) as [? ->]. by split.
  - destruct (Hwrite _ H) as [? ->]. by split.
Qed.

Lemma safeWrite_skips (E : env) p content w :
  lookupPath p (files w) = Some (File content) ->
  safeWrite E p content false w
  = Ret false (say (Log ("Unchanged: " +:+ showPath p)) w).
Proof.
  intros H. unfold safeWrite.
  erewrite bind_Ret; [|by apply (exists_true p w (File content))].
  cbn [negb]. erewrite bind_Ret; [|unfold fs.readFile; by rewrite H].
  by rewrite bool_decide_true.
Qed.

Lemma lookupPath_empty k p : lookupPath (k :: p) (Dir ∅) = None.
Proof. by rewrite lookupPath_cons, lookup_empty. Qed.

Lemma mkdirp_dir d n n1 :
  mkdirp d n = Some n1 -> exists m, lookupPath d n1 = Some (Dir m).
Proof.
  revert n n1. induction d as [|a d IH]; intros n n1.
  - destruct n as [?|m]; simpl; [done|]. intros [= <-]. by exists m.
  - destruct n as [?|m]; simpl; [done|].
    destruct (mkdirp d (default (Dir ∅) (m !! a))) as [c|] eqn:Hc; [|done].
    intros [= <-]. rewrite lookup_insert_eq. by apply (IH _ c Hc).
Qed.

Lemma mkdirp_child_absent d k n n1 :
  mkdirp d n = Some n1 -> lookupPath (d ++ [k]) n = None ->
  lookupPath (d ++ [k]) n1 = None.
Proof.
  revert n n1. induction d as [|a d IH]; intros n n1.
  - destruct n as [?|m]; simpl; [done|]. by intros [= <-].
  - destruct n as [?|m]; [done|]. simpl mkdirp.
    destruct (mkdirp d (default (Dir ∅) (m !! a))) as [c|] eqn:Hc; [|done].
    intros [= <-]. change ((a :: d) ++ [k])%list with (a :: (d ++ [k]))%list.
    rewrite !lookupPath_cons, lookup_insert_eq. intros Habs.
    apply (IH _ c Hc). destruct (m !! a) as [x|]; [done|]. simpl.
    destruct d; apply lookupPath_empty.
Qed.

Lemma mkdirp_lookup_is_dir d n n1 y :
  mkdirp d n = Some n1 -> lookupPath d n = Some y -> exists m, y = Dir m.
Proof.
  revert n n1. induction d as [|a d IH]; intros n n1.
  - destruct n as [?|m]; simpl; [done|]. intros _ [= <-]. by exists m.
  - destruct n as [?|m]; [done|]. simpl mkdirp. rewrite lookupPath_cons.
    destruct (m !! a) as [x|]; [|done]. simpl.
    destruct (mkdirp d x) as [c|] eqn:Hc; [|done]. intros _. by apply (IH x c).
Qed.

Lemma putPath_child d k x n m :
  lookupPath d n = Some (Dir m) -> is_Some (putPath (d ++ [k]) x n).
Proof.
  revert n. induction d as [|a d IH]; intros n.
  - simpl. intros [= ->]. by eexists.
  - destruct n as [?|m0]; [done|]. rewrite lookupPath_cons.
    destruct (m0 !! a) as [c|] eqn:Ha; [|done]. intros Hd.
    destruct (IH c Hd) as [c' Hc'].
    change ((a :: d) ++ [k])%list with (a :: (d ++ [k]))%list.
    destruct (d ++ [k])%list as [|k2 q] eqn:Hq; [by destruct d|].
    rewrite putPath_cons2, Ha, Hc'. by eexists.
Qed.

(** X1. Whenever [safeWrite] returns, the file holds the content; it
    returns [false] only for a write without [force] that changed
    nothing; and the same write again, without [force], is then reported
    "Unchanged" and leaves the tree as it is. *)
Theorem safeWrite_leaves_content (E : env) (p : path) (content : string)
    (force : bool) (w : world) (b : bool) (w' : world) :
  safeWrite E p content force w = Ret b w' ->
  lookupPath p (files w') = Some (File content) /\
  (b = false -> force = false /\ files w' = files w) /\
  safeWrite E p content false w'
  = Ret false (say (Log ("Unchanged: " +:+ showPath p)) w').
Proof.
  intros H. destruct (safeWrite_post E p content force w b w' H) as [Hc Hb].
  split; [done|]. split.
  - intros Hf. destruct (Hb Hf) as [-> ->]. by split.
  - by apply safeWrite_skips.
Qed.

Lemma safeWrite_leaves_content_witness :
  exists b w',
    safeWrite quietEnv ["index.html"] "new" false indexOnly = Ret b w' /\
    lookupPath ["index.html"] (files w') = Some (File "new") /\
    (b = false -> false = false /\ files w' = files indexOnly) /\
    safeWrite quietEnv ["index.html"] "new" false w'
    = Ret false (say (Log ("Unchanged: " +:+ showPath ["index.html"])) w').
Proof.
  eexists. eexists. split; [vm_compute; reflexivity|].
  apply (safeWrite_leaves_content quietEnv ["index.html"] "new" false indexOnly).
  vm_compute. reflexivity.
Defined.

(** X2. A write without [force] over a file with other content, when the
    backup copy is not refused and the backup path is no directory: the
    call returns [true], the backup path holds the old content, the file
    holds the new content, and every path that parts ways with both is
    what it was. *)
Theorem safeWrite_backs_up (E : env) (p : path) (content old : string) (w : world) :
  p <> [] ->
  lookupPath p (files w) = Some (File old) ->
  old <> content ->
  copyFileThrows E p = false ->
  (forall m, lookupPath (bakPath p) (files w) <> Some (Dir m)) ->
  exists w',
    safeWrite E p content false w = Ret true w' /\
    lookupPath p (files w') = Some (File content) /\
    lookupPath (bakPath p) (files w') = Some (File old) /\
    (forall q, diverge p q = true -> diverge (bakPath p) q = true ->
               lookupPath q (files w') = lookupPath q (files w)) /\
    console w'
    = (console w ++ [Warn ("Backed up existing file to " +:+ showPath (bakPath p));
                     Log ("Wrote: " +:+ showPath p)])%list.
Proof.
  intros Hp H Hne Hcopy Hbak.
  destruct (diverge_bakPath p Hp) as [Hpb Hbp].
  destruct (putPath_sibling p (File old) _ (files w) Hp H) as [n1 Hn1].
  assert (H1 : lookupPath p n1 = Some (File old)).
  { by rewrite (putPath_diverge _ _ _ _ _ Hbp Hn1). }
  destruct (putPath_existing p (File content) n1 (File old) Hp H1)
    as (n2 & Hn2 & Hget & _).
  exists (say (Log ("Wrote: " +:+ showPath p))
            (setFiles n2 (say (Warn ("Backed up existing file to "
                                      +:+ showPath (bakPath p)))
                            (setFiles n1 w)))).
  split; [|split; [|split; [|split]]].
  - unfold safeWrite. cbv zeta.
    erewrite bind_Ret; [|by apply (exists_true p w (File old))]. cbn [negb].
    erewrite bind_Ret; [|unfold fs.readFile; by rewrite H].
    rewrite bool_decide_false by done.
    erewrite bind_Ret; last first.
    { unfold tryCatch, fs.copyFile, fs.writeFile, fs.onTree.
      rewrite Hcopy, H.
      destruct (lookupPath (bakPath p) (files w)) as [[?|m]|] eqn:Hb;
        [by rewrite Hn1 | by destruct (Hbak m) | by rewrite Hn1]. }
    erewrite bind_Ret; [|reflexivity].
    by apply (write_existing p content old).
  - done.
  - cbn [files say setFiles]. by rewrite (putPath_diverge _ _ _ _ _ Hpb Hn2),
      (putPath_lookup _ _ _ _ Hn1).
  - intros q Hq Hq'. cbn [files say setFiles].
    by rewrite (putPath_diverge _ _ _ _ _ Hq Hn2),
      (putPath_diverge _ _ _ _ _ Hq' Hn1).
  - cbn [console say setFiles]. by rewrite <- app_assoc.
Qed.

Lemma safeWrite_backs_up_witness :
  exists w',
    safeWrite quietEnv ["index.html"] "new" false indexOnly = Ret true w' /\
    lookupPath ["index.html"] (files w') = Some (File "new") /\
    lookupPath (bakPath ["index.html"]) (files w') = Some (File "old") /\
    (forall q, diverge ["index.html"] q = true ->
               diverge (bakPath ["index.html"]) q = true ->
               lookupPath q (files w') = lookupPath q (files indexOnly)) /\
    console w'
    = (console indexOnly
       ++ [Warn ("Backed up existing file to " +:+ showPath (bakPath ["index.html"]));
           Log ("Wrote: " +:+ showPath ["index.html"])])%list.
Proof.
  apply (safeWrite_backs_up quietEnv ["index.html"] "new" "old" indexOnly).
  - discriminate.
  - vm_compute. reflexivity.
  - discriminate.
  - reflexivity.
  - intros m. vm_compute. discriminate.
Defined.

(** X3. When the backup copy fails (the platform refuses it, or the backup
    path is a directory), the failure is swallowed: the file is overwritten
    all the same, the call returns [true], the backup path is what it was,
    and the console still says that the file was backed up. *)
Theorem safeWrite_backup_refused (E : env) (p : path) (content old : string)
    (w : world) :
  p <> [] ->
  lookupPath p (files w) = Some (File old) ->
  old <> content ->
  copyFileThrows E p = true \/
  (exists m, lookupPath (bakPath p) (files w) = Some (Dir m)) ->
  exists w',
    safeWrite E p content false w = Ret true w' /\
    lookupPath p (files w') = Some (File content) /\
    lookupPath (bakPath p) (files w') = lookupPath (bakPath p) (files w) /\
    console w'
    = (console w ++ [Warn ("Backed up existing file to " +:+ showPath (bakPath p));
                     Log ("Wrote: " +:+ showPath p)])%list.
Proof.
  intros Hp H Hne Hfail.
  destruct (diverge_bakPath p Hp) as [Hpb _].
  destruct (putPath_existing p (File content) (files w) (File old) Hp H)
    as (n2 & Hn2 & Hget & _).
  exists (say (Log ("Wrote: " +:+ showPath p))
            (setFiles n2 (say (Warn ("Backed up existing file to "
                                      +:+ showPath (bakPath p))) w))).
  split; [|split; [|split]].
  - unfold safeWrite. cbv zeta.
    erewrite bind_Ret; [|by apply (exists_true p w (File old))]. cbn [negb].
    erewrite bind_Ret; [|unfold fs.readFile; by rewrite H].
    rewrite bool_decide_false by done.
    erewrite bind_Ret; last first.
    { unfold tryCatch, fs.copyFile, fs.writeFile.
      destruct (copyFileThrows E p); [reflexivity|].
      destruct Hfail as [?|[m Hm]]; [done|]. by rewrite H, Hm. }
    erewrite bind_Ret; [|reflexivity].
    by apply (write_existing p content old).
  - done.
  - cbn [files say setFiles]. by rewrite (putPath_diverge _ _ _ _ _ Hpb Hn2).
  - cbn [console say setFiles]. by rewrite <- app_assoc.
Qed.

Lemma safeWrite_backup_refused_witness :
  exists w',
    safeWrite (envWith false false false true) ["index.html"] "new" false indexOnly
    = Ret true w' /\
    lookupPath ["index.html"] (files w') = Some (File "new") /\
    lookupPath (bakPath ["index.html"]) (files w')
    = lookupPath (bakPath ["index.html"]) (files indexOnly) /\
    console w'
    = (console indexOnly
       ++ [Warn ("Backed up existing file to " +:+ showPath (bakPath ["index.html"]));
           Log ("Wrote: " +:+ showPath ["index.html"])])%list.
Proof.
  apply (safeWrite_backup_refused (envWith false false false true)
           ["index.html"] "new" "old" indexOnly).
  - discriminate.
  - vm_compute. reflexivity.
  - discriminate.
  - left. reflexivity.
Defined.

(** X4. A write to a path that does not exist, when no file is in the way
    of its parent directories: the missing directories are made, the file
    is created with the content, and the call returns [true] after the one
    console line "Wrote", with or without [force]. *)
Theorem safeWrite_creates (E : env) (p : path) (content : string)
    (force : bool) (w : world) :
  p <> [] ->
  lookupPath p (files w) = None ->
  is_Some (mkdirp (dirname p) (files w)) ->
  exists w',
    safeWrite E p content force w = Ret true w' /\
    lookupPath p (files w') = Some (File content) /\
    console w' = (console w ++ [Log ("Wrote: " +:+ showPath p)])%list.
Proof.
  intros Hp Hnone [n1 Hn1].
  assert (Hsplit : p = (dirname p ++ [List.last p ""])%list)
    by (by apply app_removelast_last).
  set (d := dirname p) in *. set (k := List.last p "") in *.
  assert (Hpre : exists w1,
    ensureDir d w = Ret tt w1 /\ console w1 = console w /\
    lookupPath p (files w1) = None /\
    exists m, lookupPath d (files w1) = Some (Dir m)).
  { unfold ensureDir. destruct (lookupPath d (files w)) as [y|] eqn:Hd.
    - erewrite bind_Ret; [|by apply (exists_true d w y)]. cbn [negb].
      exists w. split; [done|]. split; [done|]. split; [done|].
      destruct (mkdirp_lookup_is_dir d _ _ y Hn1 Hd) as [m ->]. by exists m.
    - erewrite bind_Ret; [|by apply (exists_false d w)]. cbn [negb].
      exists (setFiles n1 w). unfold fs.mkdir, fs.onTree. rewrite Hn1.
      split; [done|]. split; [done|]. cbn [files setFiles]. split.
      + rewrite Hsplit. apply (mkdirp_child_absent d k _ _ Hn1).
        by rewrite <- Hsplit.
      + by apply (mkdirp_dir d (files w)). }
  destruct Hpre as (w1 & Hens & Hcon & Hnone1 & m & Hdir).
  destruct (putPath_child d k (File content) (files w1) m Hdir) as [n2 Hn2].
  rewrite <- Hsplit in Hn2.
  exists (say (Log ("Wrote: " +:+ showPath p)) (setFiles n2 w1)).
  split; [|split].
  - unfold safeWrite. cbv zeta.
    erewrite bind_Ret; [|by apply (exists_false p w)]. cbv beta iota.
    erewrite bind_Ret; [|exact Hens].
    erewrite bind_Ret; last first.
    { unfold fs.writeFile, fs.onTree. by rewrite Hnone1, Hn2. }
    reflexivity.
  - cbn [files say setFiles]. by apply (putPath_lookup p _ (files w1)).
  - cbn [console say setFiles]. by rewrite Hcon.
Qed.

Lemma safeWrite_creates_witness :
  exists w',
    safeWrite quietEnv ["src"; "electron"; "main.ts"] "main" false emptySrc
    = Ret true w' /\
    lookupPath ["src"; "electron"; "main.ts"] (files w') = Some (File "main") /\
    console w'
    = (console emptySrc
       ++ [Log ("Wrote: " +:+ showPath ["src"; "electron"; "main.ts"])])%list.
Proof.
  apply (safeWrite_creates quietEnv ["src"; "electron"; "main.ts"] "main" false
           emptySrc).
  - discriminate.
  - vm_compute. reflexivity.
  - vm_compute. eexists. reflexivity.
Defined.

(** X5. A write to a path that is a directory throws, with or without
    [force], and leaves the world as it was: nothing is written and
    nothing is printed. *)
Theorem safeWrite_on_directory (E : env) (p : path) (content : string)
    (force : bool) (w : world) (m : gmap string node) :
  lookupPath p (files w) = Some (Dir m) ->
  safeWrite E p content force w = Throw w.
Proof.
  intros H. unfold safeWrite. cbv zeta.
  erewrite bind_Ret; [|by apply (exists_true p w (Dir m))].
  destruct force; cbn [negb].
  - destruct (lookupPath_dirname p (files w) _ H) as [d Hd].
    erewrite bind_Ret; last first.
    { unfold ensureDir. erewrite bind_Ret; [|by apply (exists_true _ w d)]. done. }
    apply bind_Throw. unfold fs.writeFile. by rewrite H.
  - apply bind_Throw. unfold fs.readFile. by rewrite H.
Qed.

Lemma safeWrite_on_directory_witness :
  safeWrite quietEnv ["src"] "text" true emptySrc = Throw emptySrc /\
  safeWrite quietEnv ["src"] "text" false emptySrc = Throw emptySrc.
Proof.
  split.
  - apply (safeWrite_on_directory quietEnv ["src"] "text" true emptySrc ∅).
    vm_compute. reflexivity.
  - apply (safeWrite_on_directory quietEnv ["src"] "text" false emptySrc ∅).
    vm_compute. reflexivity.
Defined.

(** ** The entry-point locator *)

Lemma detectEntryIn_spec (cs : list string) (w : world) :
  detectEntryIn cs w
  = Ret (default "main.tsx"
           (find (fun c => bool_decide (is_Some (lookupPath ["src"; "ui"; c] (files w))))
                 cs)) w.
Proof.
  induction cs as [|c cs IH]; [done|]. simpl detectEntryIn.
  erewrite bind_Ret; [|apply exists_spec]. simpl find.
  by destruct (bool_decide _).
Qed.

(** X6. [detectEntry] returns the first name of [ENTRY_CANDIDATES], in the
    order of the list, that exists under [src/ui], and ["main.tsx"] when
    none does; what it returns is always one of the candidates, it exists
    whenever some candidate exists, and the world is not changed. *)
Theorem detectEntry_first_candidate (w : world) :
  let present c := bool_decide (is_Some (lookupPath ["src"; "ui"; c] (files w))) in
  let entry := default "main.tsx" (find present ENTRY_CANDIDATES) in
  detectEntry w = Ret entry w /\
  In entry ENTRY_CANDIDATES /\
  (forall c, In c ENTRY_CANDIDATES -> present c = true -> present entry = true).
Proof.
  intros present entry. split; [apply detectEntryIn_spec|].
  unfold entry. destruct (find present ENTRY_CANDIDATES) as [e|] eqn:Hf.
  - apply find_some in Hf as [Hin He]. split; [done|]. by intros.
  - split; [simpl; tauto|]. intros c Hin Hc.
    pose proof (find_none _ _ Hf c Hin) as Hn. congruence.
Qed.

(** ** More on the anchor text *)

Lemma stripPrefix_spec pat s r : stripPrefix pat s = Some r -> s = pat +:+ r.
Proof.
  revert s. induction pat as [|a pat IH]; intros s; simpl.
  - by intros [= ->].
  - destruct s as [|b s]; [done|]. destruct (Ascii.eqb a b) eqn:Hab; [|done].
    apply Ascii.eqb_eq in Hab. subst b. intros H. rewrite app_cons_s.
    by rewrite (IH s H).
Qed.

Lemma includes_spec pat s :
  includes pat s = true -> exists a b, s = a +:+ pat +:+ b.
Proof.
  induction s as [|c s IH]; simpl.
  - destruct (stripPrefix pat "") as [r|] eqn:Hp; [|done].
    intros _. exists "", r. rewrite app_nil_s. by apply stripPrefix_spec.
  - destruct (stripPrefix pat (String c s)) as [r|] eqn:Hp.
    + intros _. exists "", r. rewrite app_nil_s. by apply stripPrefix_spec.
    + intros H. destruct (IH H) as (a & b & ->). by exists (String c a), b.
Qed.

Lemma replaceFirst_absent pat rep s :
  includes pat s = false -> replaceFirst pat rep s = s.
Proof.
  induction s as [|c s IH]; simpl.
  - by destruct (stripPrefix pat "").
  - destruct (stripPrefix pat (String c s)); [done|].
    intros H. by rewrite (IH H).
Qed.

Lemma replaceFirst_spec pat rep s :
  includes pat s = true ->
  exists a b, s = a +:+ pat +:+ b /\ replaceFirst pat rep s = a +:+ rep +:+ b.
Proof.
  induction s as [|c s IH]; simpl.
  - destruct (stripPrefix pat "") as [r|] eqn:Hp; [|done].
    intros _. exists "", r. rewrite !app_nil_s.
    split; [by apply stripPrefix_spec | done].
  - destruct (stripPrefix pat (String c s)) as [r|] eqn:Hp.
    + intros _. exists "", r. rewrite !app_nil_s.
      split; [by apply stripPrefix_spec | done].
    + intros H. destruct (IH H) as (a & b & Hs & Hr).
      exists (String c a), b. rewrite !app_cons_s. by rewrite <- Hs, Hr.
Qed.

(** A match somewhere in the text is found by [search]. *)
Lemma search_complete r a t rest :
  matchHere r t = Some rest -> is_Some (search r (a +:+ t)).
Proof.
  intros Ht. induction a as [|c a IH].
  - rewrite app_nil_s. destruct t; simpl; rewrite Ht; by eexists.
  - rewrite app_cons_s. simpl. rewrite <- app_cons_s.
    destruct (matchHere r (String c a +:+ t)); [by eexists|].
    destruct IH as [[pre post] ->]. by eexists.
Qed.

(** What follows a match is the end of the text the match started on. *)
Lemma starK_suffix cls (k : string -> option string) s rest :
  (forall s0 r0, k s0 = Some r0 -> exists m, s0 = m +:+ r0) ->
  starK cls k s = Some rest -> exists m, s = m +:+ rest.
Proof.
  intros Hk. induction s as [|c s IH]; simpl; [apply Hk|].
  destruct (cls c); [|apply Hk].
  destruct (starK cls k s) as [r|] eqn:Hs; [|apply Hk].
  intros [= <-]. destruct (IH eq_refl) as [m ->]. by exists (String c m).
Qed.

Lemma matchHere_suffix r s rest :
  matchHere r s = Some rest -> exists m, s = m +:+ rest.
Proof.
  revert s rest. induction r as [|a r IH]; intros s rest.
  { simpl. intros [= <-]. by exists "". }
  destruct a as [c|cls|cls|cls]; simpl.
  - destruct s as [|x s]; [done|]. destruct (ciEq c x); [|done].
    intros H. destruct (IH _ _ H) as [m ->]. by exists (String x m).
  - destruct s as [|x s]; [done|]. destruct (cls x); [|done].
    intros H. destruct (IH _ _ H) as [m ->]. by exists (String x m).
  - apply starK_suffix, IH.
  - destruct s as [|x s]; [done|]. destruct (cls x); [|done].
    intros H. destruct (starK_suffix _ _ _ _ (IH) H) as [m ->].
    by exists (String x m).
Qed.

(** X7. When the pattern matches, the patch replaces one piece of the
    document: the leftmost match ([tag], before which no match starts) is
    replaced by the new tag, and the text before it and the text after it
    are kept as they are. *)
Theorem patchHtml_replaces_one_tag (entry html : string) :
  test moduleTagRegex html = true ->
  exists pre tag post,
    html = pre +:+ tag +:+ post /\
    matchHere moduleTagRegex (tag +:+ post) = Some post /\
    (forall a u, pre = a +:+ u -> u <> "" ->
       matchHere moduleTagRegex (u +:+ tag +:+ post) = None) /\
    patchHtml entry html
    = pre +:+ ("<script type=" +:+ dq +:+ "module" +:+ dq +:+ " src=" +:+ dq +:+
               "/src/ui/" +:+ entry +:+ dq +:+ "></script>") +:+ post.
Proof.
  unfold test. destruct (search moduleTagRegex html) as [[pre post]|] eqn:Hs; [|done].
  intros _. destruct (search_inv _ _ _ _ Hs) as (t & -> & Ht & Hleft).
  destruct (matchHere_suffix _ _ _ Ht) as [tag ->].
  exists pre, tag, post. split; [done|]. split; [done|]. split; [exact Hleft|].
  by rewrite (patchHtml_match entry _ _ _ Hs).
Qed.

Lemma patchHtml_replaces_one_tag_witness :
  exists pre tag post,
    oldDocument = pre +:+ tag +:+ post /\
    matchHere moduleTagRegex (tag +:+ post) = Some post /\
    (forall a u, pre = a +:+ u -> u <> "" ->
       matchHere moduleTagRegex (u +:+ tag +:+ post) = None) /\
    patchHtml "main.tsx" oldDocument
    = pre +:+ ("<script type=" +:+ dq +:+ "module" +:+ dq +:+ " src=" +:+ dq +:+
               "/src/ui/" +:+ "main.tsx" +:+ dq +:+ "></script>") +:+ post.
Proof.
  apply (patchHtml_replaces_one_tag "main.tsx" oldDocument).
  vm_compute. reflexivity.
Defined.

Lemma stripPrefix_app pat r : stripPrefix pat (pat +:+ r) = Some r.
Proof.
  induction pat as [|a pat IH]; [by rewrite app_nil_s|].
  rewrite app_cons_s. simpl. by rewrite Ascii.eqb_refl.
Qed.

(** The occurrence [replaceFirst] replaces is the first: no occurrence
    starts before it. *)
Lemma replaceFirst_first pat rep s :
  includes pat s = true ->
  exists a b,
    s = a +:+ pat +:+ b /\
    (forall a1 u, a = a1 +:+ u -> u <> "" ->
       stripPrefix pat (u +:+ pat +:+ b) = None) /\
    replaceFirst pat rep s = a +:+ rep +:+ b.
Proof.
  assert (Hnil : forall a1 u : string, "" = a1 +:+ u -> u = "").
  { intros [|c a1] u; [by rewrite app_nil_s | by rewrite app_cons_s]. }
  induction s as [|c s IH]; simpl.
  - destruct (stripPrefix pat "") as [r|] eqn:Hp; [|done].
    intros _. exists "", r. rewrite !app_nil_s.
    split; [by apply stripPrefix_spec|]. split; [|done].
    intros a1 u Ha Hu. by destruct (Hu (Hnil _ _ Ha)).
  - destruct (stripPrefix pat (String c s)) as [r|] eqn:Hp.
    + intros _. exists "", r. rewrite !app_nil_s.
      split; [by apply stripPrefix_spec|]. split; [|done].
      intros a1 u Ha Hu. by destruct (Hu (Hnil _ _ Ha)).
    + intros H. destruct (IH H) as (a & b & Hs & Hfirst & Hr).
      exists (String c a), b. rewrite !app_cons_s.
      split; [by rewrite <- Hs|]. split; [|by rewrite Hr].
      intros [|c1 a1] u Ha Hu.
      * rewrite app_nil_s in Ha. subst u. by rewrite app_cons_s, <- Hs.
      * rewrite app_cons_s in Ha. injection Ha as _ Ha. by apply (Hfirst a1).
Qed.

(** X8. When the pattern does not match and the new tag is not in the
    document, the patch replaces the first [</body>] (before which none
    starts) by two spaces, the new tag, a line feed and [</body>], and
    keeps the rest; and when there is no [</body>] either, the document is
    returned as it is: no tag is inserted. *)
Theorem patchHtml_inserts_before_body (entry html : string) :
  test moduleTagRegex html = false ->
  includes (relScript entry) html = false ->
  (includes "</body>" html = true ->
   exists a b,
     html = a +:+ "</body>" +:+ b /\
     (forall a1 u r, a = a1 +:+ u -> u <> "" ->
        u +:+ "</body>" +:+ b <> "</body>" +:+ r) /\
     patchHtml entry html
     = a +:+ ("  " +:+
              ("<script type=" +:+ dq +:+ "module" +:+ dq +:+ " src=" +:+ dq +:+
               "/src/ui/" +:+ entry +:+ dq +:+ "></script>") +:+
              nl +:+ "</body>") +:+ b) /\
  (includes "</body>" html = false -> patchHtml entry html = html).
Proof.
  intros Ht Hi. unfold patchHtml. rewrite Ht, Hi. cbn [negb]. split.
  - intros Hb.
    destruct (replaceFirst_first "</body>"
                ("  " +:+ relScript entry +:+ nl +:+ "</body>") html Hb)
      as (a & b & Hs & Hfirst & Hr).
    exists a, b. split; [done|]. split; [|exact Hr].
    intros a1 u r Ha Hu Heq. specialize (Hfirst a1 u Ha Hu).
    by rewrite Heq, stripPrefix_app in Hfirst.
  - apply replaceFirst_absent.
Qed.

Lemma patchHtml_inserts_before_body_witness :
  (exists a b,
     "<body><p>x</p></body>" = a +:+ "</body>" +:+ b /\
     (forall a1 u r, a = a1 +:+ u -> u <> "" ->
        u +:+ "</body>" +:+ b <> "</body>" +:+ r) /\
     patchHtml "main.tsx" "<body><p>x</p></body>"
     = a +:+ ("  " +:+
              ("<script type=" +:+ dq +:+ "module" +:+ dq +:+ " src=" +:+ dq +:+
               "/src/ui/" +:+ "main.tsx" +:+ dq +:+ "></script>") +:+
              nl +:+ "</body>") +:+ b) /\
  patchHtml "main.tsx" "<p>no body tag</p>" = "<p>no body tag</p>".
Proof.
  split.
  - apply (patchHtml_inserts_before_body "main.tsx" "<body><p>x</p></body>");
      vm_compute; reflexivity.
  - apply (patchHtml_inserts_before_body "main.tsx" "<p>no body tag</p>");
      vm_compute; reflexivity.
Defined.

(** X9. A document that contains the new tag verbatim is matched by the
    pattern: for the entries [detectEntry] can return, the third branch of
    the patch ("already points to the detected entry") is never taken, and
    such a document is patched by replacing its first match. *)
Theorem patchHtml_never_skips (entry html : string) :
  In entry ENTRY_CANDIDATES ->
  includes (relScript entry) html = true ->
  test moduleTagRegex html = true /\
  patchHtml entry html = replaceRegex moduleTagRegex (relScript entry) html.
Proof.
  intros Hin Hi. destruct (includes_spec _ _ Hi) as (a & b & ->).
  assert (Ht : test moduleTagRegex (a +:+ relScript entry +:+ b) = true).
  { unfold test.
    destruct (search_complete moduleTagRegex a (relScript entry +:+ b) b)
      as [x ->]; [by apply relScript_matches | done]. }
  split; [done|]. unfold patchHtml. by rewrite Ht.
Qed.

Lemma patchHtml_never_skips_witness :
  test moduleTagRegex (freshHtml "main.tsx") = true /\
  patchHtml "main.tsx" (freshHtml "main.tsx")
  = replaceRegex moduleTagRegex (relScript "main.tsx") (freshHtml "main.tsx").
Proof.
  apply (patchHtml_never_skips "main.tsx" (freshHtml "main.tsx")).
  - simpl. tauto.
  - vm_compute. reflexivity.
Defined.

(** ** More on the merge into the manifest *)

Lemma DESIRED_DEVDEPS_nonempty : Forall (fun kv => kv.2 <> "") DESIRED_DEVDEPS.
Proof. apply (bool_decide_unpack (Forall _ _)). vm_compute. reflexivity. Qed.

Lemma mergeDevDeps_fixed d deps dev :
  (forall dep ver, (dep, ver) ∈ d ->
     truthy (dev !! dep) || truthyIn deps dep = true) ->
  mergeDevDeps d deps dev = dev.
Proof.
  induction d as [|[dep ver] d IH]; intros H; [done|].
  change (mergeDevDeps ((dep, ver) :: d) deps dev)
    with (mergeDevDeps d deps (addDevDep deps dev (dep, ver))).
  assert (Hstep : addDevDep deps dev (dep, ver) = dev).
  { specialize (H dep ver (list_elem_of_here _ _)). unfold addDevDep.
    destruct (truthy (dev !! dep)), (truthyIn deps dep); simpl in *; done. }
  rewrite Hstep. apply IH. intros dep' ver' Hin. apply (H dep' ver'). by right.
Qed.

Lemma mergeDevDeps_idempotent deps dev :
  mergeDevDeps DESIRED_DEVDEPS deps (mergeDevDeps DESIRED_DEVDEPS deps dev)
  = mergeDevDeps DESIRED_DEVDEPS deps dev.
Proof.
  apply mergeDevDeps_fixed. intros dep ver Hin.
  rewrite (mergeDevDeps_at _ _ _ dep ver DESIRED_DEVDEPS_NoDup Hin).
  destruct (truthy (dev !! dep)) eqn:Ht; simpl; [by rewrite Ht|].
  destruct (truthyIn deps dep); simpl; [by rewrite orb_true_r|].
  pose proof DESIRED_DEVDEPS_nonempty as Hval. rewrite Forall_forall in Hval.
  rewrite bool_decide_false; [done|]. by apply (Hval (dep, ver)).
Qed.

Lemma patchPkg_patchPkg (pkg : package) : patchPkg (patchPkg pkg) = patchPkg pkg.
Proof.
  unfold patchPkg.
  cbn [pkg_main pkg_scripts pkg_dependencies pkg_devDependencies pkg_other default].
  f_equal.
  - destruct (truthy (pkg_main pkg)) eqn:Hm; [by rewrite Hm | done].
  - f_equal. apply mergeScripts_idempotent.
    + apply DESIRED_SCRIPTS_separated.
    + apply DESIRED_SCRIPTS_nonempty.
  - f_equal. apply mergeDevDeps_idempotent.
Qed.

(** X10. The in-memory merge is idempotent on the whole manifest: merging
    a merged manifest again changes no field of it (type, main, scripts,
    dependencies, devDependencies and the fields passed through). *)
Theorem patchPkg_idempotent (pkg : package) :
  patchPkg (patchPkg pkg) = patchPkg pkg.
Proof. apply patchPkg_patchPkg. Qed.

(** X11. The merge of the scripts writes nowhere else than at the desired
    keys and at their backup keys: a key whose entry differs after the
    merge (changed or added) is a desired key or the backup key of one. *)
Theorem merge_touches_only_desired (pkg : package) (k : string) :
  scriptsOf (patchPkg pkg) !! k <> scriptsOf pkg !! k ->
  In k (fst <$> DESIRED_SCRIPTS) \/
  exists k', In k' (fst <$> DESIRED_SCRIPTS) /\ k = backupKey k'.
Proof.
  intros Hne.
  destruct (decide (k ∈ DESIRED_SCRIPTS.*1)) as [Hin|Hout].
  { left. by apply list_elem_of_In. }
  destruct (decide (k ∈ backupKey <$> DESIRED_SCRIPTS.*1)) as [Hb|Hb].
  - right. apply list_elem_of_fmap in Hb as (k' & -> & Hk').
    exists k'. split; [by apply list_elem_of_In | done].
  - exfalso. apply Hne. rewrite scriptsOf_patchPkg. by apply mergeScripts_other.
Qed.

Lemma merge_touches_only_desired_witness :
  In "_backup_build" (fst <$> DESIRED_SCRIPTS) \/
  exists k', In k' (fst <$> DESIRED_SCRIPTS) /\ "_backup_build" = backupKey k'.
Proof.
  apply (merge_touches_only_desired (withScripts [("build", "A")]) "_backup_build").
  vm_compute. discriminate.
Defined.

(** X12. The merge of the development dependencies changes an entry only
    by inserting the desired version under a desired name for which
    neither map holds a non-empty version; it removes no entry and changes
    no other. *)
Theorem devDependencies_touched_only_by_insert (pkg : package) (name : string) :
  devDepsOf (patchPkg pkg) !! name <> devDepsOf pkg !! name ->
  exists ver,
    In (name, ver) DESIRED_DEVDEPS /\
    devDepsOf (patchPkg pkg) !! name = Some ver /\
    truthy (devDepsOf pkg !! name) = false /\
    truthyIn (pkg_dependencies pkg) name = false.
Proof.
  change (devDepsOf (patchPkg pkg))
    with (mergeDevDeps DESIRED_DEVDEPS (pkg_dependencies pkg) (devDepsOf pkg)).
  intros Hne.
  destruct (decide (name ∈ DESIRED_DEVDEPS.*1)) as [Hin|Hout].
  - apply list_elem_of_fmap in Hin as ([n ver] & -> & Hin). cbn [fst] in *.
    rewrite (mergeDevDeps_at _ _ _ n ver DESIRED_DEVDEPS_NoDup Hin) in Hne |- *.
    exists ver. split; [by apply list_elem_of_In|].
    destruct (truthy (devDepsOf pkg !! n)); [done|].
    by destruct (truthyIn (pkg_dependencies pkg) n).
  - exfalso. apply Hne. by apply mergeDevDeps_other.
Qed.

Lemma devDependencies_touched_only_by_insert_witness :
  exists ver,
    In ("vite", ver) DESIRED_DEVDEPS /\
    devDepsOf (patchPkg (withDevDeps [("react", "^18.0.0")])) !! "vite" = Some ver /\
    truthy (devDepsOf (withDevDeps [("react", "^18.0.0")]) !! "vite") = false /\
    truthyIn (pkg_dependencies (withDevDeps [("react", "^18.0.0")])) "vite" = false.
Proof.
  apply (devDependencies_touched_only_by_insert
           (withDevDeps [("react", "^18.0.0")]) "vite").
  vm_compute. discriminate.
Defined.

Lemma scriptWarnings_original d :
  NoDup d.*1 ->
  (forall a b, a ∈ d.*1 -> b ∈ d.*1 -> a <> backupKey b) ->
  forall s s', (forall k, k ∈ d.*1 -> s' !! k = s !! k) ->
  scriptWarnings d s'
  = flat_map (fun kv => if conflicts s kv.1 kv.2 then [demotionWarning kv.1] else []) d.
Proof.
  induction d as [|[k v] d IH]; intros Hnd Hkeys s s' Hs; [done|].
  rewrite fmap_cons in Hnd. apply NoDup_cons in Hnd as [Hk Hnd].
  assert (Hhd : k ∈ ((k, v) :: d).*1) by (rewrite fmap_cons; left).
  assert (Htl : forall a, a ∈ d.*1 -> a ∈ ((k, v) :: d).*1)
    by (intros a Ha; rewrite fmap_cons; by right).
  cbn [scriptWarnings flat_map fst snd].
  rewrite (conflicts_local s s' k v (Hs k Hhd)). f_equal.
  apply IH; [done | by auto |].
  intros k' Hk'. rewrite addScript_other.
  - apply Hs. by auto.
  - intros ->. done.
  - by apply Hkeys; auto.
Qed.

(** X13. The merge warns once for each desired script whose value before
    the merge is not empty and differs from the desired value, in the
    order of the desired list, and for no other key; whether the backup key
    was free, and so whether the old value was really saved, plays no
    part. *)
Theorem scriptWarnings_per_conflict (s : gmap string string) :
  scriptWarnings DESIRED_SCRIPTS s
  = flat_map (fun kv => if conflicts s kv.1 kv.2 then [demotionWarning kv.1] else [])
             DESIRED_SCRIPTS.
Proof.
  destruct DESIRED_SCRIPTS_separated as [Hnd Hsep].
  apply scriptWarnings_original; [done| |done].
  rewrite Forall_forall in Hsep. intros a b Ha Hb ->. by apply (Hsep b).
Qed.

(** ** The manifest stage on the disk *)

Lemma safeWrite_root (E : env) (k content : string) (root : gmap string node)
    (cs : list event) :
  (forall m, root !! k <> Some (Dir m)) ->
  safeWrite E [k] content true (World (Dir root) cs)
  = Ret true (World (Dir (<[k := File content]> root))
                (cs ++ [Log ("Wrote: " +:+ k)])).
Proof.
  intros Hk.
  cbv [safeWrite exists_ tryCatch bind fs.access ensureDir fs.writeFile
       fs.onTree fs.mkdir ret log say setFiles lookupPath files console
       dirname removelast negb putPath showPath String.concat mkdirp].
  destruct (root !! k) as [[c|m]|] eqn:Hc; [|by destruct (Hk m)|]. 
  all: by rewrite Hc.
Qed.

Lemma forEach_say (evs : list event) (w : world) :
  forEach evs (fun e => fun w => Ret tt (say e w)) w
  = Ret tt (World (files w) (console w ++ evs)).
Proof.
  revert w. induction evs as [|e evs IH]; intros [n cs].
  - cbn. by rewrite app_nil_r.
  - cbn [forEach]. erewrite bind_Ret; [|reflexivity]. rewrite IH.
    cbn [files console say]. by rewrite <- app_assoc.
Qed.

(** The manifest stage up to the parse: the original text is read and
    written to the backup path. *)
Lemma patchPackageJson_backup (E : env) (root : gmap string node) (c : string)
    (cs : list event) :
  root !! "package.json" = Some (File c) ->
  (forall m, root !! "package.json.bak-electronize" <> Some (Dir m)) ->
  patchPackageJson E (World (Dir root) cs)
  = match JSON_parse E c with
    | None => throw
    | Some pkg =>
        (if truthy (pkg_type pkg) && negb (bool_decide (pkg_type pkg = Some "module"))
         then warn ("Existing package.json 'type' is '" +:+ default "" (pkg_type pkg)
                    +:+ "' — backing up and overriding with 'module'.")
         else ret tt) ;;
        forEach (scriptWarnings DESIRED_SCRIPTS (default ∅ (pkg_scripts pkg)))
                (fun e => fun w => Ret tt (say e w)) ;;
        writeJSON E PACKAGE_JSON (patchPkg pkg) ;;
        ok "Updated package.json (backup at package.json.bak-electronize)"
    end (World (Dir (<["package.json.bak-electronize" := File c]> root))
           (cs ++ [Log "Wrote: package.json.bak-electronize"])).
Proof.
  intros Hc Hbak. unfold patchPackageJson.
  erewrite bind_Ret; [|by apply (exists_true _ _ (File c)); cbn; rewrite Hc].
  cbn [negb]. erewrite bind_Ret; [|reflexivity].
  erewrite bind_Ret; [|by unfold fs.readFile; cbn; rewrite Hc].
  erewrite bind_Ret; [|by apply (safeWrite_root E "package.json.bak-electronize")].
  reflexivity.
Qed.

Lemma patchPackageJson_run (E : env) (root : gmap string node) (c : string)
    (pkg : package) (cs : list event) :
  root !! "package.json" = Some (File c) ->
  (forall m, root !! "package.json.bak-electronize" <> Some (Dir m)) ->
  JSON_parse E c = Some pkg ->
  exists cs',
    patchPackageJson E (World (Dir root) cs)
    = Ret tt (World (Dir (<["package.json" := File (JSON_stringify E (patchPkg pkg) +:+ nl)]>
                            (<["package.json.bak-electronize" := File c]> root)))
                cs').
Proof.
  intros Hc Hbak Hparse. rewrite (patchPackageJson_backup E root c cs Hc Hbak), Hparse.
  set (w1 := World _ _).
  assert (Hwarn : exists cs1,
    (if truthy (pkg_type pkg) && negb (bool_decide (pkg_type pkg = Some "module"))
     then warn ("Existing package.json 'type' is '" +:+ default "" (pkg_type pkg)
                +:+ "' — backing up and overriding with 'module'.")
     else ret tt) w1 = Ret tt (World (files w1) cs1)).
  { destruct (_ && _); eexists; reflexivity. }
  destruct Hwarn as [cs1 Hwarn].
  erewrite bind_Ret; [|exact Hwarn].
  erewrite bind_Ret; [|apply forEach_say]. cbn [files console].
  unfold writeJSON, PACKAGE_JSON. erewrite bind_Ret; last first.
  { apply safeWrite_root. intros m. rewrite lookup_insert_ne by done.
    by rewrite Hc. }
  eexists. reflexivity.
Qed.

(** X14. The manifest stage on a project whose [package.json] parses: the
    backup path holds the original text as it was read, [package.json]
    holds the serialisation of the merged manifest followed by a line
    feed, and no other entry of the project root changes; the [force] flag
    plays no part, and a backup of an earlier run is overwritten. *)
Theorem patchPackageJson_writes (E : env) (root : gmap string node) (c : string)
    (pkg : package) (w : world) :
  files w = Dir root ->
  root !! "package.json" = Some (File c) ->
  (forall m, root !! "package.json.bak-electronize" <> Some (Dir m)) ->
  JSON_parse E c = Some pkg ->
  exists w',
    patchPackageJson E w = Ret tt w' /\
    files w'
    = Dir (<["package.json" := File (JSON_stringify E (patchPkg pkg) +:+ nl)]>
             (<["package.json.bak-electronize" := File c]> root)).
Proof.
  destruct w as [n cs]. cbn [files]. intros -> Hc Hbak Hparse.
  destruct (patchPackageJson_run E root c pkg cs Hc Hbak Hparse) as [cs' Hrun].
  eexists. split; [exact Hrun | done].
Qed.

Lemma patchPackageJson_writes_witness :
  exists w',
    patchPackageJson quietEnv noSrc = Ret tt w' /\
    files w'
    = Dir (<["package.json" := File (JSON_stringify quietEnv (patchPkg emptyPackage) +:+ nl)]>
             (<["package.json.bak-electronize" := File "{}"]>
                (list_to_map [("package.json", File "{}")]))).
Proof.
  apply (patchPackageJson_writes quietEnv
           (list_to_map [("package.json", File "{}")]) "{}" emptyPackage noSrc).
  - reflexivity.
  - vm_compute. reflexivity.
  - intros m. vm_compute. discriminate.
  - reflexivity.
Defined.

(** X15. A manifest that is no JSON: the stage throws, after the backup
    was written; [package.json] itself is what it was, the project has
    gained (or had replaced) its backup and nothing else. *)
Theorem patchPackageJson_invalid_json (E : env) (root : gmap string node)
    (c : string) (w : world) :
  files w = Dir root ->
  root !! "package.json" = Some (File c) ->
  (forall m, root !! "package.json.bak-electronize" <> Some (Dir m)) ->
  JSON_parse E c = None ->
  exists w',
    patchPackageJson E w = Throw w' /\
    files w' = Dir (<["package.json.bak-electronize" := File c]> root).
Proof.
  destruct w as [n cs]. cbn [files]. intros -> Hc Hbak Hparse.
  rewrite (patchPackageJson_backup E root c cs Hc Hbak), Hparse.
  eexists. split; reflexivity.
Qed.

Lemma patchPackageJson_invalid_json_witness :
  exists w',
    patchPackageJson brokenJsonEnv noSrc = Throw w' /\
    files w' = Dir (<["package.json.bak-electronize" := File "{}"]>
                      (list_to_map [("package.json", File "{}")])).
Proof.
  apply (patchPackageJson_invalid_json brokenJsonEnv
           (list_to_map [("package.json", File "{}")]) "{}" noSrc).
  - reflexivity.
  - vm_compute. reflexivity.
  - intros m. vm_compute. discriminate.
  - reflexivity.
Defined.

(** X16. The manifest stage run twice, with a JSON codec that reads back
    what it wrote: the second run leaves [package.json] as the first run
    wrote it, and overwrites the backup with a copy of the merged
    manifest: the backup of the original text that the first run made is
    not kept. *)
Theorem patchPackageJson_second_run (E : env) (root : gmap string node)
    (c : string) (pkg : package) (w : world) :
  files w = Dir root ->
  root !! "package.json" = Some (File c) ->
  (forall m, root !! "package.json.bak-electronize" <> Some (Dir m)) ->
  JSON_parse E c = Some pkg ->
  JSON_parse E (JSON_stringify E (patchPkg pkg) +:+ nl) = Some (patchPkg pkg) ->
  exists w1 w2,
    patchPackageJson E w = Ret tt w1 /\
    patchPackageJson E w1 = Ret tt w2 /\
    files w2
    = Dir (<["package.json" := File (JSON_stringify E (patchPkg pkg) +:+ nl)]>
             (<["package.json.bak-electronize" :=
                  File (JSON_stringify E (patchPkg pkg) +:+ nl)]> root)).
Proof.
  destruct w as [n cs]. cbn [files]. intros -> Hc Hbak Hparse Hround.
  destruct (patchPackageJson_run E root c pkg cs Hc Hbak Hparse) as [cs1 Hrun1].
  set (text := JSON_stringify E (patchPkg pkg) +:+ nl) in *.
  set (root1 := <["package.json" := File text]>
                  (<["package.json.bak-electronize" := File c]> root)) in *.
  destruct (patchPackageJson_run E root1 text (patchPkg pkg) cs1) as [cs2 Hrun2].
  { unfold root1. by rewrite lookup_insert_eq. }
  { intros m. unfold root1. rewrite lookup_insert_ne by done.
    by rewrite lookup_insert_eq. }
  { done. }
  eexists _, _. split; [exact Hrun1|]. split; [exact Hrun2|].
  cbn [files]. rewrite patchPkg_patchPkg. fold text. unfold root1. f_equal.
  apply map_eq. intros i.
  destruct (decide (i = "package.json")) as [->|Hi];
    [by rewrite !lookup_insert_eq|].
  rewrite !(lookup_insert_ne _ "package.json") by done.
  destruct (decide (i = "package.json.bak-electronize")) as [->|Hi'];
    [by rewrite !lookup_insert_eq|].
  by rewrite !lookup_insert_ne.
Qed.

Lemma patchPackageJson_second_run_witness :
  exists w1 w2,
    patchPackageJson mergedEnv noSrc = Ret tt w1 /\
    patchPackageJson mergedEnv w1 = Ret tt w2 /\
    files w2
    = Dir (<["package.json" :=
               File (JSON_stringify mergedEnv (patchPkg (patchPkg emptyPackage)) +:+ nl)]>
             (<["package.json.bak-electronize" :=
                  File (JSON_stringify mergedEnv (patchPkg (patchPkg emptyPackage)) +:+ nl)]>
                (list_to_map [("package.json", File "{}")]))).
Proof.
  apply (patchPackageJson_second_run mergedEnv
           (list_to_map [("package.json", File "{}")]) "{}"
           (patchPkg emptyPackage) noSrc).
  - reflexivity.
  - vm_compute. reflexivity.
  - intros m. vm_compute. discriminate.
  - reflexivity.
  - reflexivity.
Defined.

(** ** The icons *)

Lemma ensurePublicIcons_in (E : env) (root pub : gmap string node) (cs : list event) :
  ensurePublicIcons E (World (Dir (<["public" := Dir pub]> root)) cs)
  = Ret tt (World (Dir (<["public" :=
                          Dir (let pub1 := match pub !! "favicon.ico" with Some _ => pub
                                            | None => <["favicon.ico" := File (ICON_PNG E)]> pub end in
                               match pub1 !! "icon.png" with Some _ => pub1
                                | None => <["icon.png" := File (ICON_PNG E)]> pub1 end)]> root))
              (cs ++ [Ok "Ensured public/favicon.ico and public/icon.png"])).
Proof.
  unfold ensurePublicIcons. cbv zeta. cbn [app].
  erewrite bind_Ret; last first.
  { unfold ensureDir. erewrite bind_Ret;
      [|apply (exists_true _ _ (Dir pub)); cbn; by rewrite lookup_insert_eq].
    reflexivity. }
  erewrite bind_Ret; [|apply exists_spec]. cbn [files].
  rewrite lookupPath_focus. cbn [lookupPath].
  assert (Hfirst :
    (if negb (bool_decide (is_Some (match pub !! "favicon.ico" with
                                    | Some c => Some c | None => None end)))
     then fs.writeFile ["public"; "favicon.ico"] (ICON_PNG E) else ret tt)
      (World (Dir (<["public" := Dir pub]> root)) cs)
    = Ret tt (World (Dir (<["public" :=
                 Dir (match pub !! "favicon.ico" with Some _ => pub
                       | None => <["favicon.ico" := File (ICON_PNG E)]> pub end)]> root)) cs)).
  { destruct (pub !! "favicon.ico") as [x|] eqn:Hx.
    - rewrite bool_decide_true by (by eexists). reflexivity.
    - rewrite bool_decide_false by (by intros [? ?]). cbn [negb].
      unfold fs.writeFile, fs.onTree. cbn [files].
      rewrite lookupPath_focus. cbn [lookupPath]. rewrite Hx.
      rewrite putPath_focus. reflexivity. }
  erewrite bind_Ret; [|exact Hfirst]. clear Hfirst.
  set (pub1 := match pub !! "favicon.ico" with Some _ => pub | None => _ end).
  erewrite bind_Ret; [|apply exists_spec]. cbn [files].
  rewrite lookupPath_focus. cbn [lookupPath].
  assert (Hsecond :
    (if negb (bool_decide (is_Some (match pub1 !! "icon.png" with
                                    | Some c => Some c | None => None end)))
     then fs.writeFile ["public"; "icon.png"] (ICON_PNG E) else ret tt)
      (World (Dir (<["public" := Dir pub1]> root)) cs)
    = Ret tt (World (Dir (<["public" :=
                 Dir (match pub1 !! "icon.png" with Some _ => pub1
                       | None => <["icon.png" := File (ICON_PNG E)]> pub1 end)]> root)) cs)).
  { destruct (pub1 !! "icon.png") as [x|] eqn:Hx.
    - rewrite bool_decide_true by (by eexists). reflexivity.
    - rewrite bool_decide_false by (by intros [? ?]). cbn [negb].
      unfold fs.writeFile, fs.onTree. cbn [files].
      rewrite lookupPath_focus. cbn [lookupPath]. rewrite Hx.
      rewrite putPath_focus. reflexivity. }
  erewrite bind_Ret; [|exact Hsecond]. reflexivity.
Qed.

Lemma ensurePublicIcons_run (E : env) (root pub : gmap string node) (cs : list event) :
  root !! "public" = Some (Dir pub) \/ (root !! "public" = None /\ pub = ∅) ->
  exists pub',
    ensurePublicIcons E (World (Dir root) cs)
    = Ret tt (World (Dir (<["public" := Dir pub']> root))
                (cs ++ [Ok "Ensured public/favicon.ico and public/icon.png"])) /\
    (forall k x, pub !! k = Some x -> pub' !! k = Some x) /\
    (forall k, pub !! k = None ->
       pub' !! k = if bool_decide (k = "favicon.ico" \/ k = "icon.png")
                   then Some (File (ICON_PNG E)) else None).
Proof.
  intros Hpub.
  assert (Hrun : ensurePublicIcons E (World (Dir root) cs)
                 = ensurePublicIcons E (World (Dir (<["public" := Dir pub]> root)) cs)).
  { destruct Hpub as [Hpub | [Hpub ->]].
    - by rewrite insert_id.
    - unfold ensurePublicIcons. cbv zeta.
      etransitivity.
      { apply bind_Ret. unfold ensureDir. erewrite bind_Ret;
          [|apply exists_false; cbn; by rewrite Hpub].
        cbn [negb]. unfold fs.mkdir, fs.onTree. cbn [files mkdirp].
        rewrite Hpub. reflexivity. }
      symmetry. etransitivity.
      { apply bind_Ret. unfold ensureDir. erewrite bind_Ret;
          [|apply (exists_true _ _ (Dir ∅)); cbn; by rewrite lookup_insert_eq].
        reflexivity. }
      reflexivity. }
  rewrite Hrun, ensurePublicIcons_in. eexists. split; [reflexivity|].
  cbv zeta. split.
  - intros k x Hk.
    destruct (pub !! "favicon.ico") eqn:H1.
    + destruct (pub !! "icon.png") eqn:H2; [done|].
      rewrite lookup_insert_ne; [done | intros <-; congruence].
    + assert (k <> "favicon.ico") by (intros ->; congruence).
      destruct (<["favicon.ico" := File (ICON_PNG E)]> pub !! "icon.png") eqn:H2.
      * by rewrite lookup_insert_ne.
      * rewrite lookup_insert_ne in H2 by done.
        rewrite !lookup_insert_ne; [done | done | intros <-; congruence].
  - intros k Hk.
    destruct (decide (k = "favicon.ico")) as [->|Hne1].
    { rewrite Hk. rewrite bool_decide_true by (by left).
      rewrite (lookup_insert_ne _ "favicon.ico" "icon.png") by done.
      destruct (pub !! "icon.png"); [by rewrite lookup_insert_eq|].
      rewrite lookup_insert_ne by done. by rewrite lookup_insert_eq. }
    destruct (decide (k = "icon.png")) as [->|Hne2].
    { rewrite bool_decide_true by (by right).
      destruct (pub !! "favicon.ico").
      - rewrite Hk. by rewrite lookup_insert_eq.
      - rewrite (lookup_insert_ne _ "favicon.ico" "icon.png") by done.
        rewrite Hk. by rewrite lookup_insert_eq. }
    rewrite bool_decide_false by naive_solver.
    destruct (pub !! "favicon.ico").
    + destruct (pub !! "icon.png"); [done | by rewrite lookup_insert_ne].
    + destruct (_ !! "icon.png"); rewrite ?lookup_insert_ne; done.
Qed.

(** X17. The icon stage, when [public] is a directory or does not exist:
    it returns; [public] is a directory afterwards; every entry [public]
    had is what it was, whatever it is (an icon the project already has is
    never replaced); of the names it did not have, [favicon.ico] and
    [icon.png] hold the placeholder image and every other is still absent;
    no other entry of the project root changes. *)
Theorem ensurePublicIcons_fills_in (E : env) (root pub : gmap string node) (w : world) :
  files w = Dir root ->
  root !! "public" = Some (Dir pub) \/ (root !! "public" = None /\ pub = ∅) ->
  exists w' pub',
    ensurePublicIcons E w = Ret tt w' /\
    files w' = Dir (<["public" := Dir pub']> root) /\
    (forall k x, pub !! k = Some x -> pub' !! k = Some x) /\
    (forall k, pub !! k = None ->
       pub' !! k = if bool_decide (k = "favicon.ico" \/ k = "icon.png")
                   then Some (File (ICON_PNG E)) else None).
Proof.
  destruct w as [n cs]. cbn [files]. intros -> Hpub.
  destruct (ensurePublicIcons_run E root pub cs Hpub) as (pub' & Hrun & Hold & Hnew).
  eexists _, pub'. split; [exact Hrun|]. by split.
Qed.

Lemma ensurePublicIcons_fills_in_witness :
  exists w' pub',
    ensurePublicIcons quietEnv withFavicon = Ret tt w' /\
    files w'
    = Dir (<["public" := Dir pub']>
             (list_to_map [("public", dir [("favicon.ico", File "mine")])])) /\
    (forall k x, (list_to_map [("favicon.ico", File "mine")] : gmap string node) !! k
                 = Some x -> pub' !! k = Some x) /\
    (forall k, (list_to_map [("favicon.ico", File "mine")] : gmap string node) !! k = None ->
       pub' !! k = if bool_decide (k = "favicon.ico" \/ k = "icon.png")
                   then Some (File (ICON_PNG quietEnv)) else None).
Proof.
  apply (ensurePublicIcons_fills_in quietEnv
           (list_to_map [("public", dir [("favicon.ico", File "mine")])])
           (list_to_map [("favicon.ico", File "mine")]) withFavicon).
  - reflexivity.
  - left. vm_compute. reflexivity.
Defined.

(** X18. The icon stage when [public] is a file: the check of the
    directory passes (the path exists), the first write throws, and the
    project is what it was. *)
Theorem ensurePublicIcons_public_is_file (E : env) (root : gmap string node)
    (c : string) (w : world) :
  files w = Dir root ->
  root !! "public" = Some (File c) ->
  ensurePublicIcons E w = Throw w.
Proof.
  destruct w as [n cs]. cbn [files]. intros -> Hpub.
  unfold ensurePublicIcons. cbv zeta. cbn [app].
  erewrite bind_Ret; last first.
  { unfold ensureDir. erewrite bind_Ret;
      [|apply (exists_true _ _ (File c)); cbn; by rewrite Hpub].
    reflexivity. }
  erewrite bind_Ret; [|apply exists_false; cbn; by rewrite Hpub].
  cbn [negb]. apply bind_Throw.
  unfold fs.writeFile, fs.onTree. cbn [files lookupPath putPath].
  by rewrite Hpub.
Qed.

Lemma ensurePublicIcons_public_is_file_witness :
  ensurePublicIcons quietEnv publicIsFile = Throw publicIsFile.
Proof.
  apply (ensurePublicIcons_public_is_file quietEnv
           (list_to_map [("public", File "x")]) "x" publicIsFile).
  - reflexivity.
  - vm_compute. reflexivity.
Defined.

(** ** Invariants of the tree along a computation *)

Section Invariant.

Variable Q : node -> Prop.

Local Notation putOk p := (forall x n n', putPath p x n = Some n' -> Q n -> Q n').
Local Notation delOk p := (forall n n', delPath p n = Some n' -> Q n -> Q n').
Local Notation mkdirOk p := (forall n n', mkdirp p n = Some n' -> Q n -> Q n').

Lemma inv_ret {A} (a : A) : keeps Q (ret a).
Proof. by intros w Hw. Qed.

Lemma inv_bind {A B} (m : M A) (f : A -> M B) :
  keeps Q m -> (forall a, keeps Q (f a)) -> keeps Q (bind m f).
Proof.
  intros Hm Hf w Hw. unfold bind. specialize (Hm w Hw).
  destruct (m w) as [a w'|c w'|w'|w']; [|done|done|done]. by apply Hf.
Qed.

Lemma inv_tryCatch {A} (m h : M A) :
  keeps Q m -> keeps Q h -> keeps Q (tryCatch m h).
Proof.
  intros Hm Hh w Hw. unfold tryCatch. specialize (Hm w Hw).
  destruct (m w) as [a w'|c w'|w'|w']; [done|done| |done]. by apply Hh.
Qed.

Lemma inv_say {A} (a : A) e : keeps Q (fun w => Ret a (say e w)).
Proof. by intros w Hw. Qed.

Lemma inv_log msg : keeps Q (log msg).
Proof. apply inv_say. Qed.

Lemma inv_ok msg : keeps Q (ok msg).
Proof. apply inv_say. Qed.

Lemma inv_warn msg : keeps Q (warn msg).
Proof. apply inv_say. Qed.

Lemma inv_fail {A} msg : keeps Q (@fail A msg).
Proof. by intros w Hw. Qed.

Lemma inv_throw {A} : keeps Q (@throw A).
Proof. by intros w Hw. Qed.

Lemma inv_forEach {A} (l : list A) (body : A -> M unit) :
  (forall x, x ∈ l -> keeps Q (body x)) -> keeps Q (forEach l body).
Proof.
  induction l as [|x l IH]; intros Hb; simpl; [apply inv_ret|].
  apply inv_bind; [apply Hb; by left | intros _].
  apply IH. intros y Hy. apply Hb. by right.
Qed.

Lemma inv_onTree (f : node -> option node) :
  (forall n n', f n = Some n' -> Q n -> Q n') -> keeps Q (fs.onTree f).
Proof.
  intros Hf w Hw. unfold fs.onTree.
  destruct (f (files w)) as [n|] eqn:Hn; [|done]. by apply (Hf _ _ Hn).
Qed.

Lemma inv_exists p : keeps Q (exists_ p).
Proof. intros w Hw. rewrite exists_spec. done. Qed.

Lemma inv_readFile p : keeps Q (fs.readFile p).
Proof.
  intros w Hw. unfold fs.readFile.
  by destruct (lookupPath p (files w)) as [[?|?]|].
Qed.

Lemma inv_readdir p : keeps Q (fs.readdir p).
Proof.
  intros w Hw. unfold fs.readdir.
  by destruct (lookupPath p (files w)) as [[?|?]|].
Qed.

Lemma inv_mkdir p : mkdirOk p -> keeps Q (fs.mkdir p).
Proof. intros Hp. by apply inv_onTree. Qed.

Lemma inv_ensureDir p : mkdirOk p -> keeps Q (ensureDir p).
Proof.
  intros Hp. apply inv_bind; [apply inv_exists|].
  intros []; [apply inv_ret | by apply inv_mkdir].
Qed.

Lemma inv_writeFile p c : putOk p -> keeps Q (fs.writeFile p c).
Proof.
  intros Hp w Hw. unfold fs.writeFile.
  assert (Hput : keeps Q (fs.onTree (putPath p (File c)))).
  { apply inv_onTree. apply Hp. }
  destruct (lookupPath p (files w)) as [[?|?]|]; [by apply Hput|done|by apply Hput].
Qed.

Lemma inv_copyFile E p q : putOk q -> keeps Q (fs.copyFile E p q).
Proof.
  intros Hq w Hw. unfold fs.copyFile.
  destruct (copyFileThrows E p); [done|].
  destruct (lookupPath p (files w)) as [[c|?]|]; [|done|done].
  by apply inv_writeFile.
Qed.

Lemma inv_rename E from to : delOk from -> putOk to -> keeps Q (fs.rename E from to).
Proof.
  intros Hf Ht w Hw. unfold fs.rename.
  destruct (renameThrows E from); [done|].
  destruct (lookupPath from (files w)) as [x|]; [|done].
  revert w Hw. apply inv_onTree. intros n n'.
  destruct (delPath from n) as [n1|] eqn:Hd; [|done].
  intros Hp Hn. apply (Ht _ _ _ Hp). by apply (Hf _ _ Hd).
Qed.

Lemma inv_cp E from to : putOk to -> keeps Q (fs.cp E from to).
Proof.
  intros Ht w Hw. unfold fs.cp.
  destruct (cpThrows E from); [done|].
  destruct (lookupPath from (files w)) as [x|]; [|done].
  revert w Hw. apply inv_onTree. apply Ht.
Qed.

Lemma inv_rm E p : delOk p -> keeps Q (fs.rm E p).
Proof.
  intros Hp w Hw. unfold fs.rm. destruct (rmThrows E p); [done|].
  destruct (delPath p (files w)) as [n|] eqn:Hd; [|done].
  by apply (Hp _ _ Hd).
Qed.

(** A write with [force] makes no backup, so that the backup path only
    matters without it. *)
Lemma inv_safeWrite E p content force :
  mkdirOk (dirname p) -> putOk p -> (force = false -> putOk (bakPath p)) ->
  keeps Q (safeWrite E p content force).
Proof.
  intros Hd Hp Hb. unfold safeWrite.
  assert (Hwrite : keeps Q
    (ensureDir (dirname p) ;; fs.writeFile p content ;;
     log ("Wrote: " +:+ showPath p) ;; ret true)).
  { apply inv_bind; [by apply inv_ensureDir|intros _].
    apply inv_bind; [by apply inv_writeFile|intros _].
    apply inv_bind; [apply inv_log|intros _]. apply inv_ret. }
  apply inv_bind; [apply inv_exists|]. intros [|]; [|done].
  destruct force; [done|]. cbn [negb].
  apply inv_bind; [apply inv_readFile|]. intros old.
  case_bool_decide.
  - apply inv_bind; [apply inv_log|intros _]. apply inv_ret.
  - apply inv_bind.
    + apply inv_tryCatch; [apply inv_copyFile; by apply Hb | apply inv_ret].
    + intros _. apply inv_bind; [apply inv_warn|by intros _].
Qed.

End Invariant.

(** ** What the run leaves alone *)

Section RootEntry.

Variable E : env.
Variable k : string.
Variable x : option node.
Hypothesis Hk : k ∉ touchedRoots.

Local Notation Q := (entryIs k x).

Lemma putPath_entry p y n n' :
  avoids k p = true -> putPath p y n = Some n' -> Q n -> Q n'.
Proof.
  destruct p as [|k' p]; [done|]. intros Hne%avoids_cons.
  destruct n as [?|m]; [by destruct p|]. unfold entryIs.
  destruct p as [|k2 p].
  - simpl. intros [= <-]. simpl. by rewrite lookup_insert_ne.
  - rewrite putPath_cons2.
    destruct (m !! k') as [c|]; [|done].
    destruct (putPath (k2 :: p) y c); [|done].
    intros [= <-]. simpl. by rewrite lookup_insert_ne.
Qed.

Lemma delPath_entry p n n' :
  avoids k p = true -> delPath p n = Some n' -> Q n -> Q n'.
Proof.
  destruct p as [|k' p]; [done|]. intros Hne%avoids_cons.
  destruct n as [?|m]; [by destruct p|]. unfold entryIs.
  destruct p as [|k2 p].
  - simpl. intros [= <-]. simpl. by rewrite lookup_delete_ne.
  - change (delPath (k' :: k2 :: p) (Dir m))
      with (match m !! k' with
            | Some c => match delPath (k2 :: p) c with
                        | Some c' => Some (Dir (<[k':=c']> m))
                        | None => None
                        end
            | None => None
            end).
    destruct (m !! k') as [c|]; [|done].
    destruct (delPath (k2 :: p) c); [|done].
    intros [= <-]. simpl. by rewrite lookup_insert_ne.
Qed.

Lemma mkdirp_entry p n n' :
  avoids k p = true -> mkdirp p n = Some n' -> Q n -> Q n'.
Proof.
  destruct p as [|k' p].
  - intros _. destruct n; simpl; [done|]. by intros [= <-].
  - intros Hne%avoids_cons. destruct n as [?|m]; [done|]. simpl.
    destruct (mkdirp p _); [|done]. intros [= <-]. unfold entryIs. simpl.
    by rewrite lookup_insert_ne.
Qed.

Lemma away_from (r : string) (p : path) : r ∈ touchedRoots -> avoids k (r :: p) = true.
Proof.
  intros Hr. simpl. apply negb_true_iff, String.eqb_neq. intros ->. by apply Hk.
Qed.

Local Ltac listed :=
  unfold touchedRoots;
  repeat first [apply list_elem_of_here | apply list_elem_of_further].

Local Ltac away :=
  intros;
  lazymatch goal with
  | |- avoids ?r ?p = true =>
      let p' := eval cbv in p in change (avoids r p' = true)
  end;
  first [ reflexivity | apply away_from; listed ].

Local Ltac go :=
  first
    [ apply inv_ret | apply inv_log | apply inv_ok | apply inv_warn
    | apply inv_fail | apply inv_throw | apply inv_exists
    | apply inv_readFile | apply inv_readdir
    | apply inv_ensureDir; intros ? ?; apply mkdirp_entry; away
    | apply inv_writeFile; intros ? ? ?; apply putPath_entry; away
    | apply inv_safeWrite;
        [ intros ? ?; apply mkdirp_entry; away
        | intros ? ? ?; apply putPath_entry; away
        | first [ by intros [=] | intros _ ? ? ?; apply putPath_entry; away ] ]
    | apply inv_bind; [|intros ?] ].

Lemma entry_moveSrcToUi : keeps Q (moveSrcToUi E).
Proof.
  unfold moveSrcToUi.
  go; [go|]. go; [destruct a; cbn [negb]; go|].
  go; [go|]. destruct a1; [go|].
  go; [go|]. destruct (negb _); [go|].
  go; [go|]. go; [|go].
  apply inv_forEach. intros name _. destruct (String.eqb name "electron"); [go|].
  go; [|go]. apply inv_tryCatch.
  - apply inv_rename; [intros ? ?; apply delPath_entry; away
                      | intros ? ? ?; apply putPath_entry; away].
  - go; [apply inv_cp; intros ? ? ?; apply putPath_entry; away
        | apply inv_rm; intros ? ?; apply delPath_entry; away].
Qed.

Lemma entry_detectEntryIn cs : keeps Q (detectEntryIn cs).
Proof.
  induction cs as [|c cs IH]; simpl; [go|].
  go; [go|]. by destruct a; [go|].
Qed.

Lemma entry_patchIndexHtml entry : keeps Q (patchIndexHtml E entry).
Proof.
  unfold patchIndexHtml. go; [go|]. destruct a; cbn [negb].
  - go; [go|]. go.
    + destruct (test _ _); [go|]. destruct (negb _); go.
    + go; [go|]. go.
  - go; [go|]. go.
Qed.

Lemma entry_beforeManifest : keeps Q (beforeManifest E).
Proof.
  unfold beforeManifest.
  go; [go|]. go; [go|].
  go; [destruct a0; [apply entry_moveSrcToUi | go]|].
  go; [go|]. go; [go|]. go; [go|].
  go; [apply entry_detectEntryIn|].
  go; [apply entry_patchIndexHtml|].
  go; [go|]. go; [go|]. go; [go|]. go; [go|]. go.
Qed.

Lemma entry_patchPackageJson : keeps Q (patchPackageJson E).
Proof.
  unfold patchPackageJson.
  go; [go|]. go; [destruct a; cbn [negb]; go|].
  go; [go|]. go; [go|].
  destruct (JSON_parse E a1) as [pkg|]; [|go].
  go; [destruct (_ && _); go|].
  go; [apply inv_forEach; intros e _; apply inv_say|].
  go; [unfold writeJSON; go|]. go.
Qed.

Lemma entry_ensurePublicIcons : keeps Q (ensurePublicIcons E).
Proof.
  unfold ensurePublicIcons. cbv zeta.
  go; [go|]. go; [go|]. go; [destruct a0; cbn [negb]; go|].
  go; [go|]. go; [destruct a2; cbn [negb]; go|]. go.
Qed.

Lemma entry_afterManifest : DO_INSTALL E = false -> keeps Q (afterManifest E).
Proof.
  intros Hinstall. unfold afterManifest. rewrite Hinstall.
  go; [apply entry_ensurePublicIcons|].
  apply inv_bind; [apply inv_log | intros _].
  apply inv_bind; [apply inv_ok | intros _; apply inv_log].
Qed.

Lemma entry_script : DO_INSTALL E = false -> keeps Q (script E).
Proof.
  intros Hinstall. unfold script. go; [destruct (negb _); go|]. unfold main.
  apply inv_tryCatch.
  - go; [apply entry_beforeManifest|].
    go; [apply entry_patchPackageJson | by apply entry_afterManifest].
  - by intros w Hw.
Qed.

End RootEntry.

(** X19. A run without [--install] changes, creates or removes no entry of
    the project root other than [src], [index.html], the three
    configuration files, [electron-builder.yml], [package.json], the
    backups beside these and [public]: every other entry is, with
    everything below it, what it was, however the run ends.  (With the
    flag, [npm] writes what it writes.) *)
Theorem script_touches_only_its_entries (E : env) (k : string) (w : world) :
  DO_INSTALL E = false ->
  k ∉ touchedRoots ->
  match script E w with
  | Ret _ w' | Exit _ w' | Throw w' | Uncaught w' =>
      lookupPath [k] (files w') = lookupPath [k] (files w)
  end.
Proof.
  intros Hinstall Hk.
  pose proof (entry_script E k (lookupPath [k] (files w)) Hk Hinstall w eq_refl) as H.
  destruct (script E w) as [a w'|c w'|w'|w']; [done | by destruct H | done | done].
Qed.

Lemma script_touches_only_its_entries_witness :
  match script quietEnv withReadme with
  | Ret _ w' | Exit _ w' | Throw w' | Uncaught w' =>
      lookupPath ["README.md"] (files w') = lookupPath ["README.md"] (files withReadme)
  end.
Proof.
  apply (script_touches_only_its_entries quietEnv "README.md" withReadme).
  - reflexivity.
  - unfold touchedRoots. rewrite !elem_of_cons, elem_of_nil.
    intros H. repeat destruct H as [H|H]; discriminate || done.
Defined.

(** ** How a run can end *)

Lemma empty_name_untouched : "" ∉ touchedRoots.
Proof. unfold touchedRoots. rewrite !not_elem_of_cons. by repeat split; [..|apply not_elem_of_nil]. Qed.

Lemma ends_of_keeps {A} (U : Prop) (m : M A) :
  (forall x, keeps (entryIs "" x) m) -> ends U m.
Proof.
  intros H w. specialize (H (lookupPath [""] (files w)) w eq_refl).
  destruct (m w) as [a w'|c w'|w'|w']; [done | by destruct H | done | done].
Qed.

Lemma ends_say {A} (U : Prop) (a : A) e : ends U (fun w => Ret a (say e w)).
Proof. by intros w. Qed.

Lemma ends_bind {A B} (U : Prop) (m : M A) (f : A -> M B) :
  ends U m -> (forall a, ends U (f a)) -> ends U (bind m f).
Proof.
  intros Hm Hf w. unfold bind. specialize (Hm w).
  destruct (m w) as [a w'|c w'|w'|w']; [|done|done|done]. apply Hf.
Qed.

Lemma ends_runNpmInstall (E : env) : ends (npmSpawns E = false) (runNpmInstall E).
Proof.
  unfold runNpmInstall.
  apply ends_bind; [apply ends_say | intros _].
  apply ends_bind; [|intros _; apply ends_say].
  intros w. destruct (npmSpawns E); cbn [negb]; [|done].
  by destruct (npmInstallOk E).
Qed.

Lemma ends_afterManifest (E : env) :
  ends (DO_INSTALL E = true /\ npmSpawns E = false) (afterManifest E).
Proof.
  unfold afterManifest. apply ends_bind; [|intros _].
  { apply ends_of_keeps. intros x.
    apply entry_ensurePublicIcons, empty_name_untouched. }
  apply ends_bind; [|intros _].
  - destruct (DO_INSTALL E); [|apply ends_say].
    intros w. pose proof (ends_runNpmInstall E w) as H.
    by destruct (runNpmInstall E w).
  - apply ends_bind; [apply ends_say | intros _; apply ends_say].
Qed.

(** X20. A run of the script ends in one of three ways.  The main function
    returns; or the process exits, and then with status 1 (a stage has
    called [fail], or the main function has caught an error); or, only in
    a run with [--install] and only when [npm] cannot be started, an error
    is thrown that the main function does not catch.  No rejected promise
    escapes the main function. *)
Theorem script_outcomes (E : env) (w : world) :
  match script E w with
  | Ret _ _ => True
  | Exit c _ => c = 1%Z
  | Throw _ => False
  | Uncaught _ => DO_INSTALL E = true /\ npmSpawns E = false
  end.
Proof.
  assert (Hbody : ends (DO_INSTALL E = true /\ npmSpawns E = false)
                    (beforeManifest E ;; patchPackageJson E ;; afterManifest E)).
  { apply ends_bind; [|intros _; apply ends_bind; [|intros _]].
    - apply ends_of_keeps. intros x. apply entry_beforeManifest, empty_name_untouched.
    - apply ends_of_keeps. intros x. apply entry_patchPackageJson, empty_name_untouched.
    - apply ends_afterManifest. }
  unfold script, bind, warn, ret.
  destruct (negb (nodeVerOk E)); unfold main, tryCatch;
    match goal with
    | |- context [(beforeManifest E ;; _) ?w1] =>
        specialize (Hbody w1);
        destruct ((beforeManifest E ;; patchPackageJson E ;; afterManifest E) w1)
    end; done.
Qed.

(** The third way is taken: with [--install] and no [npm] to start, the
    run ends after the icons, on the error of the child. *)
Lemma spawn_error_is_not_caught :
  exists w',
    script noNpmEnv noSrc = Uncaught w' /\
    last (console w')
    = Some (Log "Running npm install to add devDependencies (this can take a few minutes)...").
Proof. eexists. split; vm_compute; reflexivity. Qed.

(** ** A relocation that is interrupted *)

Lemma delPath_hasUi name n n' :
  name <> "ui" -> delPath ["src"; name] n = Some n' -> hasUi n -> hasUi n'.
Proof.
  intros Hne Hd [u Hu]. unfold hasUi, UI in *.
  destruct (root_is_dir _ _ _ _ Hu) as (root & c & -> & Hc & Hu').
  destruct (root_is_dir _ _ _ _ Hu') as (ms & c' & -> & Hc' & _).
  simpl in Hd. rewrite Hc in Hd. injection Hd as <-.
  rewrite lookupPath_cons, lookup_insert_eq, lookupPath_cons.
  rewrite lookup_delete_ne, Hc' by done.
  by eexists.
Qed.

Lemma putPath_hasUi name x n n' :
  putPath ["src"; "ui"; name] x n = Some n' -> hasUi n'.
Proof.
  intros Hp%putPath_lookup. unfold hasUi, UI.
  destruct (root_is_dir _ _ _ _ Hp) as (root & c & -> & Hc & Hp').
  destruct (root_is_dir _ _ _ _ Hp') as (ms & c' & -> & Hc' & _).
  rewrite lookupPath_cons, Hc, lookupPath_cons, Hc'. by eexists.
Qed.

Lemma move_loop_hasUi (E : env) (l : list string) :
  "ui" ∉ l ->
  keeps hasUi
    (forEach l (fun name =>
       if String.eqb name "electron" then ret tt
       else
         let from := (SRC ++ [name])%list in
         let to := (UI ++ [name])%list in
         tryCatch (fs.rename E from to) (fs.cp E from to ;; fs.rm E from) ;;
         log ("Moved src/" +:+ name +:+ " -> src/ui/" +:+ name))).
Proof.
  intros Hui. apply inv_forEach. intros name Hin.
  assert (Hne : name <> "ui") by (by intros ->).
  destruct (String.eqb name "electron"); [apply inv_ret|]. cbv zeta. cbn [app SRC UI].
  apply inv_bind; [|intros _; apply inv_log].
  apply inv_tryCatch.
  - apply inv_rename.
    + intros n n'. by apply delPath_hasUi.
    + intros x n n' Hp _. by apply (putPath_hasUi name x n).
  - apply inv_bind; [|intros _].
    + apply inv_cp. intros x n n' Hp _. by apply (putPath_hasUi name x n).
    + apply inv_rm. intros n n'. by apply delPath_hasUi.
Qed.

(** X21. A relocation that throws midway (a move the platform refuses and
    whose copy fallback fails, with [src] a directory) has made [src/ui]
    before, and leaves it there with whatever was moved so far.  Every
    later run, whatever the platform then allows, finds [src/ui] and skips
    the relocation: the children of [src] that were not moved stay where
    they are. *)
Theorem moveSrcToUi_interrupted (E : env) (w w' : world) (m : gmap string node) :
  lookupPath SRC (files w) = Some (Dir m) ->
  moveSrcToUi E w = Throw w' ->
  hasUi (files w') /\
  forall E',
    moveSrcToUi E' w'
    = Ret tt (say (Log "src/ui already exists — skipping move.") w').
Proof.
  intros Hsrc Hthrow.
  assert (Hui : hasUi (files w')); [|split; [done | intros E'; by apply moveSrcToUi_ui_exists]].
  unfold moveSrcToUi in Hthrow.
  erewrite bind_Ret in Hthrow; [|apply (exists_true SRC w _ Hsrc)].
  cbn [negb] in Hthrow. erewrite bind_Ret in Hthrow; [|reflexivity].
  destruct (lookupPath UI (files w)) as [u|] eqn:Hu.
  { erewrite bind_Ret in Hthrow; [|apply (exists_true UI w u Hu)]. done. }
  erewrite bind_Ret in Hthrow; [|apply (exists_false UI w Hu)].
  cbv beta iota in Hthrow.
  erewrite bind_Ret in Hthrow; [|unfold fs.readdir; rewrite Hsrc; reflexivity].
  destruct (hasNonElectron (names m)); cbn [negb] in Hthrow; [|done].
  destruct (root_is_dir _ _ _ _ Hsrc) as (root & c & Hw & Hc & Hm).
  simpl in Hm. injection Hm as ->.
  assert (Hno : m !! "ui" = None).
  { rewrite Hw in Hu. unfold UI in Hu. rewrite lookupPath_cons, Hc, lookupPath_cons in Hu.
    by destruct (m !! "ui"). }
  erewrite bind_Ret in Hthrow; last first.
  { unfold ensureDir. erewrite bind_Ret; [|apply (exists_false UI _ Hu)].
    cbn [negb]. unfold fs.mkdir, fs.onTree. rewrite Hw. simpl mkdirp.
    rewrite Hc. simpl. rewrite Hno. reflexivity. }
  match type of Hthrow with
  | bind (forEach ?l ?body) _ ?w1 = _ =>
      pose proof (move_loop_hasUi E l) as Hloop;
      assert (H1 : hasUi (files w1))
  end.
  { unfold hasUi, UI, setFiles. cbn [files].
    rewrite lookupPath_cons, lookup_insert_eq, lookupPath_cons, lookup_insert_eq.
    by eexists. }
  unfold bind in Hthrow at 1.
  match type of Hthrow with
  | match forEach ?l ?body ?w1 with _ => _ end = _ =>
      assert (Hk : keeps hasUi (forEach l body));
        [|specialize (Hk w1 H1); destruct (forEach l body w1) as [a w2|code w2|w2|w2]]
  end.
  - apply Hloop. rewrite elem_of_names, Hno. by intros [? ?].
  - done.
  - done.
  - by injection Hthrow as <-.
  - done.
Qed.

Lemma moveSrcToUi_interrupted_witness :
  hasUi (files alreadyMigrated) /\
  forall E',
    moveSrcToUi E' alreadyMigrated
    = Ret tt (say (Log "src/ui already exists — skipping move.") alreadyMigrated).
Proof.
  apply (moveSrcToUi_interrupted (envWith true true false false) oneFile
           alreadyMigrated (list_to_map [("a.ts", File "a")])).
  - vm_compute. reflexivity.
  - vm_compute. reflexivity.
Defined.

(** ** A document the script has made itself *)

Lemma freshHtml_parts entry :
  freshHtml entry = freshHead +:+ relScript entry +:+ freshTail.
Proof.
  unfold freshHtml, freshHead, freshTail. by rewrite !app_assoc_s.
Qed.

Lemma search_fresh entry :
  In entry ENTRY_CANDIDATES ->
  search moduleTagRegex (freshHtml entry) = Some (freshHead, freshTail).
Proof.
  intros Hin. simpl in Hin.
  repeat (destruct Hin as [<-|Hin]; [vm_compute; reflexivity|]). done.
Qed.

Lemma patchHtml_fresh entry entry' :
  In entry ENTRY_CANDIDATES ->
  patchHtml entry' (freshHtml entry) = freshHtml entry'.
Proof.
  intros Hin. rewrite (patchHtml_match entry' _ _ _ (search_fresh entry Hin)).
  by rewrite freshHtml_parts.
Qed.

Lemma safeWrite_root_new (E : env) (k content : string) (force : bool)
    (root : gmap string node) (cs : list event) :
  root !! k = None ->
  safeWrite E [k] content force (World (Dir root) cs)
  = Ret true (World (Dir (<[k := File content]> root))
                (cs ++ [Log ("Wrote: " +:+ k)])).
Proof.
  intros Hk.
  cbv [safeWrite exists_ tryCatch bind fs.access ensureDir fs.writeFile
       fs.onTree fs.mkdir ret log say setFiles lookupPath files console
       dirname removelast negb putPath showPath String.concat mkdirp].
  by repeat rewrite Hk.
Qed.

Lemma patchIndexHtml_create (E : env) (entry : string) (root : gmap string node)
    (cs : list event) :
  root !! "index.html" = None ->
  exists cs',
    patchIndexHtml E entry (World (Dir root) cs)
    = Ret tt (World (Dir (<["index.html" := File (freshHtml entry)]> root)) cs').
Proof.
  intros Hno. unfold patchIndexHtml.
  erewrite bind_Ret; [|apply exists_false; cbn; by rewrite Hno].
  cbn [negb]. unfold INDEX_HTML.
  erewrite bind_Ret; [|by apply safeWrite_root_new].
  eexists. reflexivity.
Qed.

Lemma patchIndexHtml_rewrite (E : env) (entry html : string)
    (root : gmap string node) (cs : list event) :
  root !! "index.html" = Some (File html) ->
  exists cs',
    patchIndexHtml E entry (World (Dir root) cs)
    = Ret tt (World (Dir (<["index.html" := File (patchHtml entry html)]> root)) cs').
Proof.
  intros Hhtml. unfold patchIndexHtml.
  erewrite bind_Ret; [|apply (exists_true _ _ (File html)); cbn; by rewrite Hhtml].
  cbn [negb].
  erewrite bind_Ret; [|unfold fs.readFile; cbn; by rewrite Hhtml].
  assert (Hlog : exists cs1,
    (if test moduleTagRegex html then ret tt
     else if negb (includes (relScript entry) html) then ret tt
     else log "index.html already points to the detected entry -> skipping patch.")
      (World (Dir root) cs) = Ret tt (World (Dir root) cs1)).
  { destruct (test _ _); [by eexists|]. destruct (negb _); by eexists. }
  destruct Hlog as [cs1 Hlog].
  erewrite bind_Ret; [|exact Hlog]. unfold INDEX_HTML.
  erewrite bind_Ret; [|apply safeWrite_root; intros m; by rewrite Hhtml].
  eexists. reflexivity.
Qed.

(** X22. The document the script makes when there is no [index.html] is
    one it reads back as its own: a later run that detects the entry
    [entry'] rewrites it to exactly the document it would have made for
    [entry'], and so leaves it unchanged when the entry is the same; no
    other entry of the project root changes. *)
Theorem patchIndexHtml_creates_then_retargets (E : env) (entry entry' : string)
    (root : gmap string node) (w : world) :
  files w = Dir root ->
  root !! "index.html" = None ->
  In entry ENTRY_CANDIDATES ->
  exists w1 w2,
    patchIndexHtml E entry w = Ret tt w1 /\
    files w1 = Dir (<["index.html" := File (freshHtml entry)]> root) /\
    patchIndexHtml E entry' w1 = Ret tt w2 /\
    files w2 = Dir (<["index.html" := File (freshHtml entry')]> root).
Proof.
  destruct w as [n cs]. cbn [files]. intros -> Hno Hin.
  destruct (patchIndexHtml_create E entry root cs Hno) as [cs1 Hrun1].
  destruct (patchIndexHtml_rewrite E entry' (freshHtml entry)
              (<["index.html" := File (freshHtml entry)]> root) cs1) as [cs2 Hrun2].
  { by rewrite lookup_insert_eq. }
  eexists _, _. split; [exact Hrun1|]. split; [done|]. split; [exact Hrun2|].
  cbn [files]. by rewrite insert_insert_eq, (patchHtml_fresh entry entry' Hin).
Qed.

Lemma patchIndexHtml_creates_then_retargets_witness :
  exists w1 w2,
    patchIndexHtml quietEnv "main.tsx" noIndex = Ret tt w1 /\
    files w1 = Dir (<["index.html" := File (freshHtml "main.tsx")]>
                      (list_to_map [("src", dir [("main.tsx", File "x")])])) /\
    patchIndexHtml quietEnv "index.jsx" w1 = Ret tt w2 /\
    files w2 = Dir (<["index.html" := File (freshHtml "index.jsx")]>
                      (list_to_map [("src", dir [("main.tsx", File "x")])])).
Proof.
  apply (patchIndexHtml_creates_then_retargets quietEnv "main.tsx" "index.jsx"
           (list_to_map [("src", dir [("main.tsx", File "x")])]) noIndex).
  - reflexivity.
  - vm_compute. reflexivity.
  - simpl. tauto.
Defined.

(** ** The relocation and the entry it leaves to detect *)

Lemma find_ext_Forall {A} (P P' : A -> bool) (R : A -> Prop) (l : list A) :
  Forall R l -> (forall a, R a -> P a = P' a) -> find P l = find P' l.
Proof.
  intros Hl HP. induction Hl as [|a l Ha Hl IH]; [done|].
  cbn [find]. by rewrite (HP a Ha), IH.
Qed.

Lemma moveSrcToUi_under_ui (E : env) (w : world) (m : gmap string node) :
  lookupPath SRC (files w) = Some (Dir m) ->
  m !! "ui" = None ->
  (forall p, cpThrows E p = false) ->
  (forall p, rmThrows E p = false) ->
  exists w',
    moveSrcToUi E w = Ret tt w' /\
    (forall name, name <> "electron" ->
       lookupPath ["src"; "ui"; name] (files w') = m !! name).
Proof.
  intros Hsrc Hui Hcp Hrm.
  destruct (root_is_dir _ _ _ _ Hsrc) as (root & c & Hw & Hc & Hm).
  simpl in Hm. injection Hm as ->.
  assert (Hno : lookupPath UI (files w) = None).
  { rewrite Hw. simpl. by rewrite Hc, Hui. }
  destruct (hasNonElectron (names m)) eqn:Hsome.
  - assert (Hroot : files w = Dir (<["src" := Dir m]> root)).
    { rewrite Hw. f_equal. symmetry. by apply insert_id. }
    destruct (move_loop E (names m) root m ∅ (console w))
      as (ms' & mu' & c' & Hrun & Hs & Hu).
    { apply NoDup_fst_map_to_list. }
    { rewrite elem_of_names, Hui. by intros [? ?]. }
    { exact Hcp. }
    { exact Hrm. }
    { intros name Hin _. by apply elem_of_names. }
    eexists. split.
    { unfold moveSrcToUi.
      erewrite bind_Ret; [|apply (exists_true SRC _ _ Hsrc)].
      cbn [negb]. erewrite bind_Ret; [|reflexivity].
      erewrite bind_Ret; [|apply (exists_false UI _ Hno)].
      cbv beta iota.
      erewrite bind_Ret; [|unfold fs.readdir; rewrite Hsrc; reflexivity].
      rewrite Hsome.
      cbn [negb].
      erewrite bind_Ret; last first.
      { unfold ensureDir. erewrite bind_Ret; [|apply (exists_false UI _ Hno)].
        cbn [negb]. unfold fs.mkdir, fs.onTree. cbn [files].
        rewrite Hroot. simpl mkdirp. rewrite lookup_insert_eq. simpl.
        rewrite Hui. simpl. rewrite insert_insert_eq. reflexivity. }
      unfold setFiles. cbn [console].
      fold (withSrc root m ∅).
      erewrite bind_Ret; [|exact Hrun].
      reflexivity. }
    cbn [files say]. unfold withSrc.
    intros name Hne. rewrite lookupPath_focus. simpl.
    rewrite lookup_insert_eq. rewrite Hu.
    case_bool_decide as Hd.
    + by destruct (m !! name).
    + rewrite lookup_empty.
      destruct (m !! name) as [x|] eqn:Hx; [|done].
      exfalso. apply Hd. split; [|done]. apply elem_of_names. by exists x.
  - pose proof (moveSrcToUi_nothing_to_move E w m Hsrc Hsome) as Hrun.
    pose proof (proj1 (hasNonElectron_false _) Hsome) as Hall.
    eexists. split; [exact Hrun|].
    cbn [files say]. rewrite Hw. simpl. rewrite Hc.
    intros name Hne. rewrite Hui.
    destruct (m !! name) as [x|] eqn:Hx; [|done].
    exfalso. apply Hne, Hall, elem_of_names. by exists x.
Qed.

(** X23. The relocation followed by the detection of the entry, when
    [src/ui] does not exist yet and no step of the copy fallback is
    refused: the entry is the first candidate, in the order of the list,
    that was a child of [src] before the relocation, and [main.tsx] when
    [src] had none of them. *)
Theorem relocation_then_detectEntry (E : env) (w : world) (m : gmap string node) :
  lookupPath SRC (files w) = Some (Dir m) ->
  m !! "ui" = None ->
  (forall p, cpThrows E p = false) ->
  (forall p, rmThrows E p = false) ->
  exists w',
    (moveSrcToUi E ;; detectEntry) w
    = Ret (default "main.tsx"
             (find (fun c => bool_decide (is_Some (m !! c))) ENTRY_CANDIDATES)) w'.
Proof.
  intros Hsrc Hui Hcp Hrm.
  destruct (moveSrcToUi_under_ui E w m Hsrc Hui Hcp Hrm) as (w' & Hrun & Hlook).
  exists w'. erewrite bind_Ret; [|exact Hrun].
  unfold detectEntry. rewrite detectEntryIn_spec. do 2 f_equal.
  apply (find_ext_Forall _ _ (fun c => c <> "electron")).
  - apply (bool_decide_unpack (Forall _ _)). vm_compute. reflexivity.
  - intros c Hc. by rewrite (Hlook c Hc).
Qed.

Lemma relocation_then_detectEntry_witness :
  exists w',
    (moveSrcToUi quietEnv ;; detectEntry) jsProject
    = Ret (default "main.tsx"
             (find (fun c => bool_decide
                               (is_Some ((list_to_map [("index.jsx", File "i");
                                                       ("main.js", File "m");
                                                       ("App.jsx", File "a")]
                                            : gmap string node) !! c)))
                   ENTRY_CANDIDATES)) w'.
Proof.
  apply (relocation_then_detectEntry quietEnv jsProject).
  - vm_compute. reflexivity.
  - vm_compute. reflexivity.
  - reflexivity.
  - reflexivity.
Defined.

(** ** Directories *)

Lemma mkdirp_keeps_files p : forall q n n' y,
  mkdirp p n = Some n' ->
  lookupPath q n = Some (File y) -> lookupPath q n' = Some (File y).
Proof.
  induction p as [|k p IH]; intros q n n' y.
  - destruct n; simpl; [done|]. by intros [= <-].
  - destruct n as [?|m]; [done|]. simpl.
    destruct (mkdirp p (default (Dir ∅) (m !! k))) as [c'|] eqn:Hc; [|done].
    intros [= <-]. destruct q as [|k' q]; [done|].
    rewrite !lookupPath_cons.
    destruct (decide (k' = k)) as [->|Hne].
    + rewrite lookup_insert_eq. destruct (m !! k) as [c|] eqn:Hk; [|done].
      by apply (IH q c c' y).
    + by rewrite lookup_insert_ne.
Qed.

(** X24. [ensureDir]: when it returns, the path exists; a path that
    existed before (a directory or a file) leaves the world as it was; a
    path that did not is a directory afterwards; and no file of the
    project, wherever it is, is lost or changed by the directories that
    were made. *)
Theorem ensureDir_post (p : path) (w w' : world) :
  ensureDir p w = Ret tt w' ->
  is_Some (lookupPath p (files w')) /\
  (is_Some (lookupPath p (files w)) -> w' = w) /\
  (lookupPath p (files w) = None -> exists m, lookupPath p (files w') = Some (Dir m)) /\
  (forall q y, lookupPath q (files w) = Some (File y) ->
               lookupPath q (files w') = Some (File y)).
Proof.
  unfold ensureDir. intros Hrun.
  erewrite bind_Ret in Hrun; [|apply exists_spec].
  case_bool_decide as He; cbn [negb] in Hrun.
  - injection Hrun as <-. split; [done|]. split; [done|].
    split; [|done]. intros Hn. rewrite Hn in He. by destruct He.
  - unfold fs.mkdir, fs.onTree in Hrun.
    destruct (mkdirp p (files w)) as [n1|] eqn:Hmk; [|done].
    injection Hrun as <-. cbn [files setFiles].
    destruct (mkdirp_dir _ _ _ Hmk) as [m Hm].
    split; [by eexists|]. split; [done|]. split; [by exists m|].
    intros q y. by apply (mkdirp_keeps_files p).
Qed.

Lemma ensureDir_post_witness :
  is_Some (lookupPath ELECTRON_DIR (files (setFiles electronMade emptySrc))) /\
  (is_Some (lookupPath ELECTRON_DIR (files emptySrc)) ->
   setFiles electronMade emptySrc = emptySrc) /\
  (lookupPath ELECTRON_DIR (files emptySrc) = None ->
   exists m, lookupPath ELECTRON_DIR (files (setFiles electronMade emptySrc))
             = Some (Dir m)) /\
  (forall q y, lookupPath q (files emptySrc) = Some (File y) ->
               lookupPath q (files (setFiles electronMade emptySrc)) = Some (File y)).
Proof.
  apply (ensureDir_post ELECTRON_DIR emptySrc (setFiles electronMade emptySrc)).
  vm_compute. reflexivity.
Defined.

(** ** A run that cannot start *)

(** X25. When [src] is a file, the run is over before anything is
    written: the relocation finds [src], cannot list it, the error is
    caught by the main function, and the process exits with status 1; the
    project is what it was, and the console holds the opening line and the
    fatal error. *)
Theorem main_src_is_file (E : env) (w : world) (c : string) :
  lookupPath SRC (files w) = Some (File c) ->
  main E w
  = Exit 1 (say (Error "Fatal error:")
              (say (Log "Starting electronize process (ESM mode) ...") w)).
Proof.
  intros Hsrc. unfold main, tryCatch.
  set (w1 := say (Log "Starting electronize process (ESM mode) ...") w).
  assert (Hmove : moveSrcToUi E w1 = Throw w1).
  { unfold moveSrcToUi.
    erewrite bind_Ret; [|apply (exists_true SRC w1 _ Hsrc)].
    cbn [negb]. erewrite bind_Ret; [|reflexivity].
    erewrite bind_Ret; [|apply exists_false; cbn [files w1 say]; unfold UI, SRC in *].
    - cbv beta iota. apply bind_Throw. unfold fs.readdir. cbn [files w1 say].
      by rewrite Hsrc.
    - destruct (root_is_dir _ _ _ _ Hsrc) as (root & x & -> & Hx & Hc).
      injection Hc as ->. by rewrite lookupPath_cons, Hx. }
  assert (Hbody : (beforeManifest E ;; patchPackageJson E ;; afterManifest E) w
                  = Throw w1).
  { apply bind_Throw. unfold beforeManifest.
    erewrite bind_Ret; [|reflexivity]. fold w1.
    erewrite bind_Ret; [|apply (exists_true SRC w1 _ Hsrc)].
    by apply bind_Throw. }
  by rewrite Hbody.
Qed.

Lemma main_src_is_file_witness :
  main quietEnv srcIsFile
  = Exit 1 (say (Error "Fatal error:")
              (say (Log "Starting electronize process (ESM mode) ...") srcIsFile)).
Proof.
  apply (main_src_is_file quietEnv srcIsFile "x").
  vm_compute. reflexivity.
Defined.
